(** * qrunner/arch: discovery and reconciliation pipeline

    A shallow embedding of the Go sources of the asset inventory
    (reconciler, PostgreSQL store, Neo4j store, collector registry,
    scheduler, notifier and the HTTP handlers that feed them), followed
    by the properties of the natural-language specification that are
    checked against it.

    Conventions.
    - A Go [int] is a [Z]; a [string] is a [string]; a [[]T] is a [list T];
      a [*string] that may be nil is an [option string]; a Go map is a
      stdpp [gmap].
    - [uuid.UUID] is an opaque 128-bit value, here an [N].
    - [time.Time] is an instant on a linear time line, here a [Z].
    - Code that talks to the database, the graph store, the event bus, the
      clock or the random source is written in a state monad over [World].
      The world holds the tables, the graph, the bus and the log, and the
      script of what the environment will answer: the clock readings, the
      transport faults and the random identifiers, each indexed by a cursor
      that advances with every use. *)

From Stdlib Require Import ZArith List String Ascii DecimalString Lia.
From stdpp Require Import base option list gmap strings sorting.

Local Open Scope string_scope.
Local Open Scope list_scope.
Local Open Scope Z_scope.

Definition UUID : Type := N.
Definition Time : Type := Z.

(** Go's [error] values carry a message; [fmt.Errorf("ctx: %w", err)] wraps. *)
Inductive result (A : Type) : Type :=
| Ok (a : A)
| Err (msg : string).
Arguments Ok {A} a.
Arguments Err {A} msg.

Definition wrap {A} (ctx : string) (msg : string) : result A :=
  Err (ctx +:+ ": " +:+ msg).

(* ================================================================== *)
(** * encoding/json, as far as the reconciler uses it *)
(* ================================================================== *)

Module json.

  (** The reconciler's diff: [map[string]any] whose values are
      [map[string]string] with the keys "old" and "new". *)
Abbreviation Diff := (gmap string (gmap string string)).

  (** The document held by a [json.RawMessage] that [json.Marshal] made
      from a diff map.  Object keys are emitted sorted, so a document is
      determined by the map it was made from. *)
Inductive RawMessage : Type :=
  | null
  | object (members : Diff).

  (** [json.Marshal(diff)]: a nil map encodes as [null], any other map as
      the object of its entries. *)
Definition Marshal (diff : option Diff) : RawMessage :=
    match diff with
    | None => null
    | Some m => object m
    end.

End json.

(* ================================================================== *)
(** * Package model *)
(* ================================================================== *)

Module model.

  (** [type AssetStatus string] and its three constants. *)
Definition AssetStatus : Type := string.
Definition AssetStatusActive : AssetStatus := "active".
Definition AssetStatusStale : AssetStatus := "stale".
Definition AssetStatusRemoved : AssetStatus := "removed".

Module Asset.
Record t : Type := mk {
      ID : UUID;
      ExternalID : string;
      Source : string;
      AssetType : string;
      Name : string;
      FQDN : option string;
      IPAddresses : list string;
      Attributes : string;        (* json.RawMessage: the raw bytes *)
      FirstSeen : Time;
      LastSeen : Time;
      Status : AssetStatus;
      CreatedAt : Time;
      UpdatedAt : Time
    }.
End Asset.

  (** [type ChangeAction string] and its constants. *)
Definition ChangeAction : Type := string.
Definition ChangeActionCreated : ChangeAction := "asset.created".
Definition ChangeActionUpdated : ChangeAction := "asset.updated".
Definition ChangeActionRemoved : ChangeAction := "asset.removed".
Definition ChangeActionRelChanged : ChangeAction := "relationship.changed".

Module ChangeEvent.
    (** [Diff] is the [json.RawMessage] produced by [json.Marshal] on a
        diff map; it is represented by the JSON document it encodes. *)
Record t : Type := mk {
      ID : UUID;
      AssetID : UUID;
      Action : ChangeAction;
      Source : string;
      Diff : json.RawMessage;
      Timestamp : Time
    }.
End ChangeEvent.

Definition RelationshipType : Type := string.

Module Relationship.
Record t : Type := mk {
      ID : UUID;
      FromID : UUID;
      ToID : UUID;
      Type_ : RelationshipType;
      Source : string;
      Properties : string;
      CreatedAt : Time;
      UpdatedAt : Time
    }.
End Relationship.

Module CollectorConfig.
Record t : Type := mk {
      Name : string;
      Type_ : string;
      Enabled : bool;
      Interval : Z;                 (* time.Duration, nanoseconds *)
      Settings : gmap string string
    }.
End CollectorConfig.

Module CollectorStatus.
Record t : Type := mk {
      Name : string;
      LastRun : Time;
      LastSuccess : Time;
      LastError : string;
      Running : bool;
      AssetCount : Z
    }.
End CollectorStatus.

End model.


(* ================================================================== *)
(** * The world the program runs in *)
(* ================================================================== *)

(** A node of the graph store: the properties [UpsertNode] sets. *)
Record GraphNode : Type := mkNode {
  node_name : string;
  node_asset_type : string;
  node_source : string;
  node_status : string
}.

(** An edge of the graph store, as [UpsertRelationship] writes it. *)
Record GraphEdge : Type := mkEdge {
  edge_from : UUID;
  edge_to : UUID;
  edge_type : string;
  edge_id : UUID;
  edge_source : string;
  edge_properties : string
}.

Inductive Level : Type := Info | Warn | Error.

(** A location of the Go heap holding a [*model.CollectorStatus]. *)
Definition loc : Type := nat.

Record World : Type := mkWorld {
  (* PostgreSQL *)
  assets : list model.Asset.t;
  change_events : list model.ChangeEvent.t;
  (* Neo4j *)
  nodes : gmap UUID GraphNode;
  edges : list GraphEdge;
  (* event bus: subject and payload of every delivered message *)
  published : list (string * model.ChangeEvent.t);
  (* webhook endpoint: URL and payload of every request sent *)
  posted : list (string * model.ChangeEvent.t);
  (* zap logger: level and message of every entry *)
  logs : list (Level * string);
  (* heap cells of the collector statuses *)
  heap : gmap loc model.CollectorStatus.t;
  (* cursors into the environment script *)
  ticks : nat;
  calls : nat;
  draws : nat;
  (* the environment script: successive readings of time.Now(), *)
  clock : nat -> Time;
  (* transport error of the n-th I/O call, if any, *)
  faults : nat -> option string;
  (* HTTP status answered to the n-th I/O call, *)
  responses : nat -> Z;
  (* successive results of uuid.New() *)
  uuids : nat -> UUID
}.

Definition set_assets (v : list model.Asset.t) (w : World) : World :=
  mkWorld v (change_events w) (nodes w) (edges w) (published w) (posted w) (logs w)
          (heap w) (ticks w) (calls w) (draws w) (clock w) (faults w) (responses w) (uuids w).
Definition set_change_events (v : list model.ChangeEvent.t) (w : World) : World :=
  mkWorld (assets w) v (nodes w) (edges w) (published w) (posted w) (logs w)
          (heap w) (ticks w) (calls w) (draws w) (clock w) (faults w) (responses w) (uuids w).
Definition set_nodes (v : gmap UUID GraphNode) (w : World) : World :=
  mkWorld (assets w) (change_events w) v (edges w) (published w) (posted w) (logs w)
          (heap w) (ticks w) (calls w) (draws w) (clock w) (faults w) (responses w) (uuids w).
Definition set_edges (v : list GraphEdge) (w : World) : World :=
  mkWorld (assets w) (change_events w) (nodes w) v (published w) (posted w) (logs w)
          (heap w) (ticks w) (calls w) (draws w) (clock w) (faults w) (responses w) (uuids w).
Definition set_published (v : list (string * model.ChangeEvent.t)) (w : World) : World :=
  mkWorld (assets w) (change_events w) (nodes w) (edges w) v (posted w) (logs w)
          (heap w) (ticks w) (calls w) (draws w) (clock w) (faults w) (responses w) (uuids w).
Definition set_posted (v : list (string * model.ChangeEvent.t)) (w : World) : World :=
  mkWorld (assets w) (change_events w) (nodes w) (edges w) (published w) v (logs w)
          (heap w) (ticks w) (calls w) (draws w) (clock w) (faults w) (responses w) (uuids w).
Definition set_logs (v : list (Level * string)) (w : World) : World :=
  mkWorld (assets w) (change_events w) (nodes w) (edges w) (published w) (posted w) v
          (heap w) (ticks w) (calls w) (draws w) (clock w) (faults w) (responses w) (uuids w).
Definition set_heap (v : gmap loc model.CollectorStatus.t) (w : World) : World :=
  mkWorld (assets w) (change_events w) (nodes w) (edges w) (published w) (posted w) (logs w)
          v (ticks w) (calls w) (draws w) (clock w) (faults w) (responses w) (uuids w).
Definition set_ticks (v : nat) (w : World) : World :=
  mkWorld (assets w) (change_events w) (nodes w) (edges w) (published w) (posted w) (logs w)
          (heap w) v (calls w) (draws w) (clock w) (faults w) (responses w) (uuids w).
Definition set_calls (v : nat) (w : World) : World :=
  mkWorld (assets w) (change_events w) (nodes w) (edges w) (published w) (posted w) (logs w)
          (heap w) (ticks w) v (draws w) (clock w) (faults w) (responses w) (uuids w).
Definition set_draws (v : nat) (w : World) : World :=
  mkWorld (assets w) (change_events w) (nodes w) (edges w) (published w) (posted w) (logs w)
          (heap w) (ticks w) (calls w) v (clock w) (faults w) (responses w) (uuids w).

(** ** The state monad *)

Definition M (A : Type) : Type := World -> A * World.

Definition ret {A} (a : A) : M A := fun w => (a, w).

Definition bind {A B} (m : M A) (k : A -> M B) : M B :=
  fun w => let (a, w') := m w in k a w'.

Declare Scope go_scope.
Delimit Scope go_scope with go.
Notation "x <- m ;; k" := (bind m (fun x => k))
  (at level 100, m at next level, right associativity) : go_scope.
Notation "m ;; k" := (bind m (fun _ => k))
  (at level 100, right associativity) : go_scope.
Local Open Scope go_scope.

(** [time.Now().UTC()]: the next reading of the clock. *)
Definition time_Now : M Time :=
  fun w => (clock w (ticks w), set_ticks (S (ticks w)) w).

(** [uuid.New()]: the next random identifier. *)
Definition uuid_New : M UUID :=
  fun w => (uuids w (draws w), set_draws (S (draws w)) w).

(** One round trip to an external service.  The environment decides
    whether the transport fails; only then is [body] not run. *)
Definition io {A} (body : M (result A)) : M (result A) :=
  fun w =>
    let w1 := set_calls (S (calls w)) w in
    match faults w (calls w) with
    | Some msg => (Err msg, w1)
    | None => body w1
    end.

(** [logger.Info/Warn/Error(msg, ...)]. *)
Definition log (lvl : Level) (msg : string) : M unit :=
  fun w => (tt, set_logs (logs w ++ [(lvl, msg)]) w).

(** [model.NewAsset] (asset.go, lines 38-54): a reading of the clock, a
    new identifier, empty addresses and the attributes "{}". *)
Definition NewAsset (externalID source assetType name : string) : M model.Asset.t :=
  now <- time_Now ;;
  id <- uuid_New ;;
  ret (model.Asset.mk id externalID source assetType name None [] "{}"
                      now now model.AssetStatusActive now now).

(* ================================================================== *)
(** * Package store: the filter of the list query *)
(* ================================================================== *)

Module store.
Module AssetFilter.
Record t : Type := mk {
      Source : string;
      AssetType : string;
      Status : string;
      Search : string;
      Limit : Z;
      Offset : Z
    }.
End AssetFilter.
End store.

(* ================================================================== *)
(** * Package postgres: the canonical store *)
(* ================================================================== *)

Module postgres.
Import model.

  (** The [asset_status] enum of the schema. *)
Definition valid_status (s : string) : bool :=
    bool_decide (s = "active") || bool_decide (s = "stale") || bool_decide (s = "removed").

  (** Primary key on [id], unique index on [(source, external_id)]. *)
Definition collides (a : Asset.t) (rows : list Asset.t) : bool :=
    existsb (fun r => bool_decide (Asset.ID r = Asset.ID a)
                      || (bool_decide (Asset.Source r = Asset.Source a)
                          && bool_decide (Asset.ExternalID r = Asset.ExternalID a)))
            rows.

  (** [INSERT INTO assets ... VALUES ($1..$13)]. *)
Definition Create (asset : Asset.t) : M (result unit) :=
    r <- io (fun w =>
               if collides asset (assets w) then
                 (Err "duplicate key value violates unique constraint", w)
               else if negb (valid_status (Asset.Status asset)) then
                 (Err "invalid input value for enum asset_status", w)
               else (Ok tt, set_assets (assets w ++ [asset]) w)) ;;
    ret (match r with
         | Err e => wrap "inserting asset" e
         | Ok _ => Ok tt
         end).

  (** [scanAsset] over [QueryRow]: no row is [(nil, nil)]. *)
Definition scanAsset (sel : Asset.t -> bool) : M (result (option Asset.t)) :=
    r <- io (fun w => (Ok (find sel (assets w)), w)) ;;
    ret (match r with
         | Err e => wrap "scanning asset" e
         | Ok a => Ok a
         end).

  (** [SELECT ... FROM assets WHERE id = $1]. *)
Definition GetByID (id : UUID) : M (result (option Asset.t)) :=
    scanAsset (fun a => bool_decide (Asset.ID a = id)).

  (** [SELECT ... FROM assets WHERE source = $1 AND external_id = $2]. *)
Definition GetByExternalID (source externalID : string) : M (result (option Asset.t)) :=
    scanAsset (fun a => bool_decide (Asset.Source a = source)
                        && bool_decide (Asset.ExternalID a = externalID)).

  (** The row [UPDATE assets SET ... WHERE id = $1] leaves behind:
      [first_seen] and [created_at] are not in the SET list. *)
Definition updated_row (asset row : Asset.t) : Asset.t :=
    Asset.mk (Asset.ID row)
             (Asset.ExternalID asset) (Asset.Source asset) (Asset.AssetType asset)
             (Asset.Name asset) (Asset.FQDN asset) (Asset.IPAddresses asset)
             (Asset.Attributes asset)
             (Asset.FirstSeen row)
             (Asset.LastSeen asset) (Asset.Status asset)
             (Asset.CreatedAt row)
             (Asset.UpdatedAt asset).

Definition update_rows (asset : Asset.t) (rows : list Asset.t) : list Asset.t :=
    map (fun row => if bool_decide (Asset.ID row = Asset.ID asset)
                    then updated_row asset row else row) rows.

  (** The unique index, seen from an update of the row [asset.ID]. *)
Definition update_collides (asset : Asset.t) (rows : list Asset.t) : bool :=
    existsb (fun r => bool_decide (Asset.ID r = Asset.ID asset)) rows
    && existsb (fun r => negb (bool_decide (Asset.ID r = Asset.ID asset))
                         && bool_decide (Asset.Source r = Asset.Source asset)
                         && bool_decide (Asset.ExternalID r = Asset.ExternalID asset))
               rows.

Definition stamp_UpdatedAt (now : Time) (a : Asset.t) : Asset.t :=
    Asset.mk (Asset.ID a) (Asset.ExternalID a) (Asset.Source a) (Asset.AssetType a)
             (Asset.Name a) (Asset.FQDN a) (Asset.IPAddresses a) (Asset.Attributes a)
             (Asset.FirstSeen a) (Asset.LastSeen a) (Asset.Status a)
             (Asset.CreatedAt a) now.

  (** [Update]: stamps [asset.UpdatedAt = time.Now().UTC()] on the caller's
      object, then writes the row.  The stamped object is returned together
      with the error, since the caller keeps using it. *)
Definition Update (asset : Asset.t) : M (result unit * Asset.t) :=
    now <- time_Now ;;
    let asset := stamp_UpdatedAt now asset in
    r <- io (fun w =>
               if update_collides asset (assets w) then
                 (Err "duplicate key value violates unique constraint", w)
               else if negb (valid_status (Asset.Status asset)) then
                 (Err "invalid input value for enum asset_status", w)
               else (Ok tt, set_assets (update_rows asset (assets w)) w)) ;;
    ret (match r with
         | Err e => wrap "updating asset" e
         | Ok _ => Ok tt
         end, asset).

  (** [DELETE FROM assets WHERE id = $1]; change events cascade. *)
Definition Delete (id : UUID) : M (result unit) :=
    r <- io (fun w =>
               (Ok tt,
                set_change_events
                  (filter (fun e => ChangeEvent.AssetID e <> id) (change_events w))
                  (set_assets (filter (fun a => Asset.ID a <> id) (assets w)) w))) ;;
    ret (match r with
         | Err e => wrap "deleting asset" e
         | Ok _ => Ok tt
         end).

  (** [SELECT ... FROM assets WHERE $1 = ANY(ip_addresses)]. *)
Definition FindByIP (ip : string) : M (result (list Asset.t)) :=
    r <- io (fun w =>
               (Ok (filter (fun a => ip ∈ Asset.IPAddresses a) (assets w)), w)) ;;
    ret (match r with
         | Err e => wrap "finding assets by IP" e
         | Ok l => Ok l
         end).

  (** [SELECT ... FROM assets WHERE fqdn = $1]. *)
Definition FindByFQDN (fqdn : string) : M (result (list Asset.t)) :=
    r <- io (fun w =>
               (Ok (filter (fun a => Asset.FQDN a = Some fqdn) (assets w)), w)) ;;
    ret (match r with
         | Err e => wrap "finding assets by FQDN" e
         | Ok l => Ok l
         end).

  (** [INSERT INTO change_events ...]: primary key on [id], foreign key
      from [asset_id] to [assets(id)]. *)
Definition CreateChangeEvent (event : ChangeEvent.t) : M (result unit) :=
    r <- io (fun w =>
               if existsb (fun e => bool_decide (ChangeEvent.ID e = ChangeEvent.ID event))
                          (change_events w) then
                 (Err "duplicate key value violates unique constraint", w)
               else if negb (existsb (fun a => bool_decide (Asset.ID a = ChangeEvent.AssetID event))
                                     (assets w)) then
                 (Err "violates foreign key constraint", w)
               else (Ok tt, set_change_events (change_events w ++ [event]) w)) ;;
    ret (match r with
         | Err e => wrap "inserting change event" e
         | Ok _ => Ok tt
         end).

  (** ** The list query *)

Section List.
Import store.

    (** PostgreSQL's [text ILIKE pattern]. *)
Variable ILIKE : string -> string -> bool.

    (** The WHERE clause [List] assembles from the non-empty filter fields. *)
Definition where_ (f : AssetFilter.t) (a : Asset.t) : bool :=
      (bool_decide (AssetFilter.Source f = "")
       || bool_decide (Asset.Source a = AssetFilter.Source f))
      && (bool_decide (AssetFilter.AssetType f = "")
          || bool_decide (Asset.AssetType a = AssetFilter.AssetType f))
      && (bool_decide (AssetFilter.Status f = "")
          || bool_decide (Asset.Status a = AssetFilter.Status f))
      && (bool_decide (AssetFilter.Search f = "")
          || ILIKE (Asset.Name a) ("%" +:+ AssetFilter.Search f +:+ "%")
          || match Asset.FQDN a with
             | Some q => ILIKE q ("%" +:+ AssetFilter.Search f +:+ "%")
             | None => false
             end).

    (** [limit := filter.Limit; if limit <= 0 { limit = 50 }]. *)
Definition List_limit (f : AssetFilter.t) : Z :=
      if AssetFilter.Limit f <=? 0 then 50 else AssetFilter.Limit f.

    (** [offset := filter.Offset; if offset < 0 { offset = 0 }]. *)
Definition List_offset (f : AssetFilter.t) : Z :=
      if AssetFilter.Offset f <? 0 then 0 else AssetFilter.Offset f.

    (** [ORDER BY updated_at DESC]. *)
Definition newer_first (a b : Asset.t) : Prop :=
  Asset.UpdatedAt b <= Asset.UpdatedAt a.

#[local] Instance newer_first_dec a b : Decision (newer_first a b).
Proof. unfold newer_first. apply _. Defined.

(** [ORDER BY updated_at DESC LIMIT $n OFFSET $m]. *)
Definition page (limit offset : Z) (rows : list Asset.t) : list Asset.t :=
      take (Z.to_nat limit)
           (drop (Z.to_nat offset)
                 (merge_sort newer_first rows)).

    (** [List]: the count query, then the data query. *)
Definition List (f : AssetFilter.t) : M (result (list Asset.t * Z)) :=
      c <- io (fun w => (Ok (Z.of_nat (length (filter (fun a => where_ f a = true) (assets w)))), w)) ;;
      match c with
      | Err e => ret (wrap "counting assets" e)
      | Ok total =>
          let limit := List_limit f in
          let offset := List_offset f in
          d <- io (fun w => (Ok (page limit offset
                                      (filter (fun a => where_ f a = true) (assets w))), w)) ;;
          ret (match d with
               | Err e => wrap "listing assets" e
               | Ok rows => Ok (rows, total)
               end)
      end.
End List.

(** ** The change history *)

(** [ORDER BY timestamp DESC]. *)
Definition newer_event_first (a b : ChangeEvent.t) : Prop :=
  ChangeEvent.Timestamp b <= ChangeEvent.Timestamp a.

#[local] Instance newer_event_first_dec a b : Decision (newer_event_first a b).
Proof. unfold newer_event_first. apply _. Defined.

(** [ORDER BY timestamp DESC LIMIT $n OFFSET $m].  These two queries pass
    the caller's numbers on as they are; PostgreSQL refuses a negative
    LIMIT or OFFSET. *)
Definition page_events (limit offset : Z) (rows : list ChangeEvent.t)
  : result (list ChangeEvent.t) :=
  if limit <? 0 then Err "LIMIT must not be negative"
  else if offset <? 0 then Err "OFFSET must not be negative"
  else Ok (take (Z.to_nat limit)
                (drop (Z.to_nat offset) (merge_sort newer_event_first rows))).

(** [ListChangeEventsByAssetID] (lines 248-274). *)
Definition ListChangeEventsByAssetID (assetID : UUID) (limit offset : Z)
  : M (result (list ChangeEvent.t * Z)) :=
  c <- io (fun w =>
             (Ok (Z.of_nat (length (filter (fun e => ChangeEvent.AssetID e = assetID)
                                           (change_events w)))), w)) ;;
  match c with
  | Err e => ret (wrap "counting change events" e)
  | Ok total =>
      d <- io (fun w =>
                 (page_events limit offset
                              (filter (fun e => ChangeEvent.AssetID e = assetID)
                                      (change_events w)), w)) ;;
      ret (match d with
           | Err e => wrap "listing change events" e
           | Ok events => Ok (events, total)
           end)
  end.

(** [ListRecentChangeEvents] (lines 277-302). *)
Definition ListRecentChangeEvents (limit offset : Z)
  : M (result (list ChangeEvent.t * Z)) :=
  c <- io (fun w => (Ok (Z.of_nat (length (change_events w))), w)) ;;
  match c with
  | Err e => ret (wrap "counting change events" e)
  | Ok total =>
      d <- io (fun w => (page_events limit offset (change_events w), w)) ;;
      ret (match d with
           | Err e => wrap "listing recent changes" e
           | Ok events => Ok (events, total)
           end)
  end.

End postgres.

(* ================================================================== *)
(** * Package neo4j: the graph store (write side) *)
(* ================================================================== *)

Module neo4j.
Import model.

(** [type Store struct { driver }]: the graph itself lives in the world. *)
Inductive Store : Type := store.

(** [MERGE (a:Asset {id: $id}) SET a.name, a.asset_type, a.source, a.status]. *)
Definition UpsertNode (asset : Asset.t) : M (result unit) :=
  r <- io (fun w =>
             (Ok tt,
              set_nodes (<[Asset.ID asset :=
                             mkNode (Asset.Name asset) (Asset.AssetType asset)
                                    (Asset.Source asset) (Asset.Status asset)]>
                           (nodes w)) w)) ;;
  ret (match r with
       | Err e => wrap "upserting neo4j node" e
       | Ok _ => Ok tt
       end).

(** [MATCH (from) MATCH (to) MERGE (from)-[r:T {id: $id}]->(to) SET ...]:
    nothing is written unless both endpoints exist; an edge with the same
    endpoints, type and id is updated, otherwise one is created. *)
Definition same_edge (rel : Relationship.t) (e : GraphEdge) : bool :=
  bool_decide (edge_from e = Relationship.FromID rel)
  && bool_decide (edge_to e = Relationship.ToID rel)
  && bool_decide (edge_type e = Relationship.Type_ rel)
  && bool_decide (edge_id e = Relationship.ID rel).

Definition edge_of (rel : Relationship.t) : GraphEdge :=
  mkEdge (Relationship.FromID rel) (Relationship.ToID rel) (Relationship.Type_ rel)
         (Relationship.ID rel) (Relationship.Source rel) (Relationship.Properties rel).

Definition merge_edge (rel : Relationship.t) (g : gmap UUID GraphNode)
    (es : list GraphEdge) : list GraphEdge :=
  match g !! Relationship.FromID rel, g !! Relationship.ToID rel with
  | Some _, Some _ =>
      if existsb (same_edge rel) es
      then map (fun e => if same_edge rel e then edge_of rel else e) es
      else es ++ [edge_of rel]
  | _, _ => es
  end.

Definition UpsertRelationship (rel : Relationship.t) : M (result unit) :=
  r <- io (fun w => (Ok tt, set_edges (merge_edge rel (nodes w) (edges w)) w)) ;;
  ret (match r with
       | Err e => wrap "upserting neo4j relationship" e
       | Ok _ => Ok tt
       end).

(** ** The read side: bounded traversals *)

(** Cypher's variable-length pattern [-[r*1..d]->]: every path of one to
    [d] relationships leaving [at_] (entering it when [outgoing] is false)
    that uses no relationship twice.  A path is the list of the
    relationships it follows, numbered by their position in the store. *)
Fixpoint paths (outgoing : bool) (es : list (nat * GraphEdge)) (d : nat) (at_ : UUID)
    (used : list nat) : list (list (nat * GraphEdge)) :=
  match d with
  | O => []
  | S d' =>
      flat_map
        (fun e : nat * GraphEdge =>
           let here := if outgoing then edge_from e.2 else edge_to e.2 in
           let there := if outgoing then edge_to e.2 else edge_from e.2 in
           if bool_decide (here = at_) && negb (bool_decide (e.1 ∈ used))
           then [e] :: map (cons e) (paths outgoing es d' there (e.1 :: used))
           else [])
        es
  end.

(** [nodes(path)]: the anchored node and the far end of every step. *)
Definition path_nodes (outgoing : bool) (at_ : UUID) (p : list (nat * GraphEdge)) : list UUID :=
  at_ :: map (fun e : nat * GraphEdge => if outgoing then edge_to e.2 else edge_from e.2) p.

(** [nodeToAsset]: only the stored properties are filled in. *)
Definition nodeToAsset (id : UUID) (n : GraphNode) : Asset.t :=
  Asset.mk id "" (node_source n) (node_asset_type n) (node_name n) None [] ""
           0 0 (node_status n) 0 0.

(** [neoRelToRelationship]: type, id and source; the endpoints stay zero. *)
Definition neoRelToRelationship (e : GraphEdge) : Relationship.t :=
  Relationship.mk (edge_id e) 0%N 0%N (edge_type e) (edge_source e) "" 0 0.

(** [fmt.Sprintf("%d", depth)]. *)
Definition itoa (n : Z) : string := NilZero.string_of_int (Z.to_int n).

(** The depth [traverseGraph] puts into the pattern (lines 389-391). *)
Definition traverse_depth (depth : Z) : Z :=
  if depth <=? 0 then 3 else depth.

(** The pattern text of lines 393-398. *)
Definition pattern (depth : Z) (direction : string) : string :=
  if bool_decide (direction = "outgoing")
  then "(a:Asset {id: $id})-[r*1.." +:+ itoa depth +:+ "]->(b:Asset)"
  else "(b:Asset)-[r*1.." +:+ itoa depth +:+ "]->(a:Asset {id: $id})".

(** What the query of lines 401-407 returns on the graph of the world:
    the distinct nodes and the distinct relationships of all matching
    paths. *)
Definition run_traversal (g : gmap UUID GraphNode) (es : list GraphEdge)
    (assetID : UUID) (depth : Z) (outgoing : bool)
  : list Asset.t * list Relationship.t :=
  match g !! assetID with
  | None => ([], [])
  | Some _ =>
      let ps := paths outgoing (imap (fun i e => (i, e)) es) (Z.to_nat depth) assetID [] in
      let ns := remove_dups (flat_map (path_nodes outgoing assetID) ps) in
      let rs := remove_dups (flat_map (map fst) ps) in
      (omap (fun id => nodeToAsset id <$> g !! id) ns,
       omap (fun i => neoRelToRelationship <$> es !! i) rs)
  end.

(** [traverseGraph] (lines 385-449); the second component of the result is
    the pattern text that was sent. *)
Definition traverseGraph (assetID : UUID) (depth : Z) (direction : string)
  : M (result (list Asset.t * list Relationship.t) * string) :=
  let depth := traverse_depth depth in
  let pat := pattern depth direction in
  r <- io (fun w =>
             (Ok (run_traversal (nodes w) (edges w) assetID depth
                                (bool_decide (direction = "outgoing"))), w)) ;;
  ret (match r with
       | Err e => wrap "traversing graph" e
       | Ok x => Ok x
       end, pat).

Definition GetDependencyGraph (assetID : UUID) (depth : Z) :=
  traverseGraph assetID depth "outgoing".

Definition GetImpactGraph (assetID : UUID) (depth : Z) :=
  traverseGraph assetID depth "incoming".

(** ** Deletions *)

(** [MATCH (a:Asset {id: $id}) DETACH DELETE a]: the node goes together
    with every relationship that starts or ends at it. *)
Definition detach (id : UUID) (g : gmap UUID GraphNode) (es : list GraphEdge)
  : gmap UUID GraphNode * list GraphEdge :=
  match g !! id with
  | None => (g, es)
  | Some _ =>
      (delete id g,
       filter (fun e => edge_from e <> id /\ edge_to e <> id) es)
  end.

(** [DeleteNode] (lines 278-292). *)
Definition DeleteNode (id : UUID) : M (result unit) :=
  r <- io (fun w =>
             let '(g, es) := detach id (nodes w) (edges w) in
             (Ok tt, set_edges es (set_nodes g w))) ;;
  ret (match r with
       | Err e => wrap "deleting neo4j node" e
       | Ok _ => Ok tt
       end).

(** [DeleteRelationship] (lines 327-341):
    [MATCH ()-[r {id: $id}]-() DELETE r]. *)
Definition DeleteRelationship (id : UUID) : M (result unit) :=
  r <- io (fun w =>
             (Ok tt, set_edges (filter (fun e => edge_id e <> id) (edges w)) w)) ;;
  ret (match r with
       | Err e => wrap "deleting neo4j relationship" e
       | Ok _ => Ok tt
       end).

End neo4j.

(* ================================================================== *)
(** * Package collector: results, the interface, the registry *)
(* ================================================================== *)

Module collector.
Import model.

Record CollectResult : Type := mkResult {
  Assets : list Asset.t;
  Relationships : list Relationship.t
}.

(** The [Collector] interface.  [Collect] talks to an upstream source; its
    outcome is a function of the moment it is called, given by the index of
    the I/O call. *)
Record Collector : Type := mkCollector {
  Name : string;
  Collect : CollectorConfig.t -> nat -> result CollectResult
}.

(** ** The registry *)

(** [type Registry struct]: three maps under one lock.  [statuses] maps a
    name to a pointer; the pointed-to status lives on the heap of the
    world. *)
Record Registry : Type := mkRegistry {
  collectors : gmap string Collector;
  configs : gmap string CollectorConfig.t;
  statuses : gmap string loc
}.

Definition NewRegistry : Registry := mkRegistry ∅ ∅ ∅.

(** [&model.CollectorStatus{Name: name}]: a new heap cell. *)
Definition new_status (name : string) : M loc :=
  fun w =>
    let p := fresh (dom (heap w)) in
    (p, set_heap (<[p := CollectorStatus.mk name 0 0 "" false 0]> (heap w)) w).

(** [Register] (lines 48-55). *)
Definition Register (r : Registry) (c : Collector) (cfg : CollectorConfig.t) : M Registry :=
  p <- new_status (Name c) ;;
  log Info "registered collector" ;;
  ret (mkRegistry (<[Name c := c]> (collectors r))
                  (<[Name c := cfg]> (configs r))
                  (<[Name c := p]> (statuses r))).

(** [Get] (lines 58-66).  The source quotes the name in the message
    with [%q]; the message here carries it bare. *)
Definition Get (r : Registry) (name : string) : result (Collector * CollectorConfig.t) :=
  match collectors r !! name with
  | None => Err ("collector " +:+ name +:+ " not found")
  | Some c =>
      Ok (c, default (CollectorConfig.mk "" "" false 0 ∅) (configs r !! name))
  end.

(** [List] (lines 69-77): a new slice, filled with the pointers found in
    [statuses].  Go leaves the iteration order of a map open; the order
    of [map_to_list] stands for it. *)
Definition List (r : Registry) : list loc :=
  (map_to_list (statuses r)).*2.

(** [Names] (lines 80-88). *)
Definition Names (r : Registry) : list string :=
  (map_to_list (collectors r)).*1.

(** Reading and writing through a [*model.CollectorStatus]. *)
Definition load (p : loc) (w : World) : option CollectorStatus.t := heap w !! p.

Definition store_ (p : loc) (v : CollectorStatus.t) (w : World) : World :=
  set_heap (<[p := v]> (heap w)) w.

(** The status the live registry holds for [name]. *)
Definition status_of (r : Registry) (name : string) (w : World) : option CollectorStatus.t :=
  match statuses r !! name with
  | Some p => load p w
  | None => None
  end.

End collector.

(* ================================================================== *)
(** * Package reconciler *)
(* ================================================================== *)

Module reconciler.
Import model.

(** The [EventPublisher] interface; the repository ships no implementation.
    A publisher delivers to the event bus of the world. *)
Inductive EventPublisher : Type := bus.

Definition Publish (p : EventPublisher) (subject : string) (data : ChangeEvent.t)
  : M (result unit) :=
  io (fun w => (Ok tt, set_published (published w ++ [(subject, data)]) w)).

(** [type Reconciler struct]: the PostgreSQL store is the world's tables;
    the Neo4j store and the publisher may be nil. *)
Record Reconciler : Type := New {
  neoStore : option neo4j.Store;
  publisher : option EventPublisher
}.

(** [model.NewChangeEvent]: [uuid.New()], then [time.Now().UTC()]. *)
Definition NewChangeEvent (assetID : UUID) (action : ChangeAction) (source : string)
    (diff : json.RawMessage) : M ChangeEvent.t :=
  id <- uuid_New ;;
  ts <- time_Now ;;
  ret (ChangeEvent.mk id assetID action source diff ts).

(** [detectChanges] (reconciler.go, lines 189-217). *)
Definition detectChanges (existing incoming : Asset.t) : json.Diff :=
  let diff : json.Diff := ∅ in
  let diff :=
    if bool_decide (Asset.Name existing <> Asset.Name incoming)
    then <["name" := {["old" := Asset.Name existing; "new" := Asset.Name incoming]}]> diff
    else diff in
  let existingFQDN := default "" (Asset.FQDN existing) in
  let incomingFQDN := default "" (Asset.FQDN incoming) in
  let diff :=
    if bool_decide (existingFQDN <> incomingFQDN)
    then <["fqdn" := {["old" := existingFQDN; "new" := incomingFQDN]}]> diff
    else diff in
  let diff :=
    if bool_decide (Asset.Attributes existing <> Asset.Attributes incoming)
    then <["attributes" := {["old" := Asset.Attributes existing;
                             "new" := Asset.Attributes incoming]}]> diff
    else diff in
  diff.

(** [publishEvent] (lines 168-187). *)
Definition publishEvent (r : Reconciler) (action : ChangeAction) (asset : Asset.t)
    (diff : option json.Diff) : M unit :=
  match publisher r with
  | None => ret tt
  | Some p =>
      let diffJSON := json.Marshal diff in
      event <- NewChangeEvent (Asset.ID asset) action (Asset.Source asset) diffJSON ;;
      s <- postgres.CreateChangeEvent event ;;
      match s with
      | Err _ => log Warn "failed to store change event"
      | Ok _ => ret tt
      end ;;
      let subject := "assets." +:+ action in
      d <- Publish p subject event ;;
      match d with
      | Err _ => log Warn "failed to publish event"
      | Ok _ => ret tt
      end
  end.

(** Step 2 of [reconcileAsset] (lines 80-90): the loop over the incoming
    IP addresses. *)
Fixpoint matchByIP (ips : list string) : M (option Asset.t) :=
  match ips with
  | [] => ret None
  | ip :: rest =>
      r <- postgres.FindByIP ip ;;
      match r with
      | Err _ => log Warn "fuzzy IP match failed" ;; matchByIP rest
      | Ok [m] => ret (Some m)
      | Ok _ => matchByIP rest
      end
  end.

(** Step 3 of [reconcileAsset] (lines 94-101). *)
Definition matchByFQDN (fqdn : string) : M (option Asset.t) :=
  r <- postgres.FindByFQDN fqdn ;;
  match r with
  | Err _ => log Warn "fuzzy FQDN match failed" ;; ret None
  | Ok [m] => ret (Some m)
  | Ok _ => ret None
  end.

(** Steps 1 to 3 of [reconcileAsset] (lines 72-101): the value of
    [existing] when line 103 is reached, or the error returned at line 75. *)
Definition findExisting (incoming : Asset.t) : M (result (option Asset.t)) :=
  r <- postgres.GetByExternalID (Asset.Source incoming) (Asset.ExternalID incoming) ;;
  match r with
  | Err e => ret (wrap "looking up asset" e)
  | Ok existing =>
      existing <-
        match existing with
        | None =>
            if (0 <? length (Asset.IPAddresses incoming))%nat
            then matchByIP (Asset.IPAddresses incoming)
            else ret None
        | Some _ => ret existing
        end ;;
      existing <-
        match existing, Asset.FQDN incoming with
        | None, Some fqdn =>
            if bool_decide (fqdn <> "") then matchByFQDN fqdn else ret None
        | _, _ => ret existing
        end ;;
      ret (Ok existing)
  end.

(** Lines 107-111: the stamps of a new asset. *)
Definition stamp_new (now : Time) (a : Asset.t) : Asset.t :=
  Asset.mk (Asset.ID a) (Asset.ExternalID a) (Asset.Source a) (Asset.AssetType a)
           (Asset.Name a) (Asset.FQDN a) (Asset.IPAddresses a) (Asset.Attributes a)
           now now AssetStatusActive now now.

(** Lines 129-130: [existing.LastSeen = now; existing.Status = active]. *)
Definition touch (now : Time) (a : Asset.t) : Asset.t :=
  Asset.mk (Asset.ID a) (Asset.ExternalID a) (Asset.Source a) (Asset.AssetType a)
           (Asset.Name a) (Asset.FQDN a) (Asset.IPAddresses a) (Asset.Attributes a)
           (Asset.FirstSeen a) now AssetStatusActive (Asset.CreatedAt a)
           (Asset.UpdatedAt a).

(** Lines 134-138: the incoming fields copied onto [existing]. *)
Definition apply_changes (now : Time) (incoming a : Asset.t) : Asset.t :=
  Asset.mk (Asset.ID a) (Asset.ExternalID a) (Asset.Source a) (Asset.AssetType a)
           (Asset.Name incoming) (Asset.FQDN incoming) (Asset.IPAddresses incoming)
           (Asset.Attributes incoming)
           (Asset.FirstSeen a) (Asset.LastSeen a) (Asset.Status a) (Asset.CreatedAt a)
           now.

(** [if r.neoStore != nil { if err := r.neoStore.UpsertNode(...) ... }]. *)
Definition upsertNode (r : Reconciler) (a : Asset.t) (warning : string) : M unit :=
  match neoStore r with
  | None => ret tt
  | Some _ =>
      u <- neo4j.UpsertNode a ;;
      match u with
      | Err _ => log Warn warning
      | Ok _ => ret tt
      end
  end.

(** The new-asset branch of [reconcileAsset] (lines 105-125). *)
Definition insertNew (r : Reconciler) (now : Time) (incoming : Asset.t) : M (result unit) :=
  let incoming := stamp_new now incoming in
  c <- postgres.Create incoming ;;
  match c with
  | Err e => ret (wrap "creating new asset" e)
  | Ok _ =>
      upsertNode r incoming "failed to create neo4j node" ;;
      publishEvent r ChangeActionCreated incoming None ;;
      ret (Ok tt)
  end.

(** The existing-asset branch of [reconcileAsset] (lines 127-158). *)
Definition updateExisting (r : Reconciler) (now : Time) (existing incoming : Asset.t)
  : M (result unit) :=
  let diff := detectChanges existing incoming in
  let existing := touch now existing in
  if (0 <? size diff)%nat then
    let existing := apply_changes now incoming existing in
    u <- postgres.Update existing ;;
    match u with
    | (Err e, _) => ret (wrap "updating asset" e)
    | (Ok _, existing) =>
        upsertNode r existing "failed to update neo4j node" ;;
        publishEvent r ChangeActionUpdated existing (Some diff) ;;
        ret (Ok tt)
    end
  else
    u <- postgres.Update existing ;;
    match u with
    | (Err e, _) => ret (wrap "updating last_seen" e)
    | (Ok _, _) => ret (Ok tt)
    end.

(** [reconcileAsset] (lines 71-159).  The source also writes the stamps of
    a new asset into the caller's slice element; the caller does not read
    them again. *)
Definition reconcileAsset (r : Reconciler) (incoming : Asset.t) : M (result unit) :=
  found <- findExisting incoming ;;
  match found with
  | Err e => ret (Err e)
  | Ok existing =>
      now <- time_Now ;;
      match existing with
      | None => insertNew r now incoming
      | Some existing => updateExisting r now existing incoming
      end
  end.

(** [reconcileRelationship] (lines 161-166). *)
Definition reconcileRelationship (r : Reconciler) (rel : Relationship.t) : M (result unit) :=
  match neoStore r with
  | None => ret (Ok tt)
  | Some _ => neo4j.UpsertRelationship rel
  end.

(** The two loops of [Reconcile]: a failure is logged and the loop goes on. *)
Fixpoint reconcileAssets (r : Reconciler) (l : list Asset.t) : M unit :=
  match l with
  | [] => ret tt
  | incoming :: rest =>
      e <- reconcileAsset r incoming ;;
      match e with
      | Err _ => log Error "reconciling asset"
      | Ok _ => ret tt
      end ;;
      reconcileAssets r rest
  end.

Fixpoint reconcileRelationships (r : Reconciler) (l : list Relationship.t) : M unit :=
  match l with
  | [] => ret tt
  | rel :: rest =>
      e <- reconcileRelationship r rel ;;
      match e with
      | Err _ => log Error "reconciling relationship"
      | Ok _ => ret tt
      end ;;
      reconcileRelationships r rest
  end.

(** [Reconcile] (lines 43-69): always returns nil. *)
Definition Reconcile (r : Reconciler) (res : collector.CollectResult) : M (result unit) :=
  reconcileAssets r (collector.Assets res) ;;
  reconcileRelationships r (collector.Relationships res) ;;
  ret (Ok tt).

End reconciler.

(* ================================================================== *)
(** * Package scheduler *)
(* ================================================================== *)

Module scheduler.
Import model.

Record Scheduler : Type := New {
  registry : collector.Registry;
  reconciler_ : reconciler.Reconciler
}.

(** [c.Collect(ctx, cfg)]: one call to the upstream source. *)
Definition collect (c : collector.Collector) (cfg : CollectorConfig.t)
  : M (result collector.CollectResult) :=
  fun w => (collector.Collect c cfg (calls w), set_calls (S (calls w)) w).

(** [runCollector] (lines 89-113). *)
Definition runCollector (s : Scheduler) (c : collector.Collector) (cfg : CollectorConfig.t)
  : M unit :=
  log Info "running collector" ;;
  res <- collect c cfg ;;
  match res with
  | Err _ => log Error "collector failed"
  | Ok result =>
      log Info "collector completed" ;;
      e <- reconciler.Reconcile (reconciler_ s) result ;;
      match e with
      | Err _ => log Error "reconciliation failed"
      | Ok _ => ret tt
      end
  end.

(** What one [select] of the worker loop receives. *)
Inductive Signal : Type :=
| Done      (* <-ctx.Done() *)
| Tick.     (* <-ticker.C *)

(** Where the worker is once the signals seen so far are used up. *)
Inductive Worker : Type :=
| Waiting   (* blocked in select *)
| Exited.   (* returned *)

(** The [for { select { ... } }] of [runCollectorLoop] (lines 79-86), run
    on the signals it receives. *)
Fixpoint loop (s : Scheduler) (c : collector.Collector) (cfg : CollectorConfig.t)
    (signals : list Signal) : M Worker :=
  match signals with
  | [] => ret Waiting
  | Done :: _ => ret Exited
  | Tick :: rest => runCollector s c cfg ;; loop s c cfg rest
  end.

Definition Minute : Z := 60 * 1000000000.

(** Lines 68-71: the period of the ticker. *)
Definition ticker_interval (cfg : CollectorConfig.t) : Z :=
  if CollectorConfig.Interval cfg <=? 0 then 5 * Minute else CollectorConfig.Interval cfg.

(** [runCollectorLoop] (lines 65-87): one run at once, then the loop. *)
Definition runCollectorLoop (s : Scheduler) (c : collector.Collector)
    (cfg : CollectorConfig.t) (signals : list Signal) : M Worker :=
  runCollector s c cfg ;;
  loop s c cfg signals.

(** The loop of [Start] (lines 38-51).  A worker goroutine is started for
    every collector the loop does not skip; the collectors and configs the
    workers are started with are returned, in order. *)
Fixpoint start_workers (s : Scheduler) (names : list string)
  : M (list (collector.Collector * CollectorConfig.t)) :=
  match names with
  | [] => ret []
  | name :: rest =>
      match collector.Get (registry s) name with
      | Err _ =>
          log Error "getting collector from registry" ;;
          start_workers s rest
      | Ok (c, cfg) =>
          if negb (CollectorConfig.Enabled cfg) then
            log Info "collector disabled, skipping" ;;
            start_workers s rest
          else
            ws <- start_workers s rest ;;
            ret ((c, cfg) :: ws)
      end
  end.

(** [Start] (lines 35-54). *)
Definition Start (s : Scheduler) : M (list (collector.Collector * CollectorConfig.t)) :=
  ws <- start_workers s (collector.Names (registry s)) ;;
  log Info "scheduler started" ;;
  ret ws.

(** [RunCollectorNow] (lines 116-123): the run that is handed to a new
    goroutine, or the registry's error. *)
Definition RunCollectorNow (s : Scheduler) (name : string) : result (M unit) :=
  match collector.Get (registry s) name with
  | Err e => Err e
  | Ok (c, cfg) => Ok (runCollector s c cfg)
  end.

End scheduler.

(* ================================================================== *)
(** * The collector worker's main *)
(* ================================================================== *)

Module cmd_collector.

(** [rec := reconciler.New(pgStore, neo, nil, logger)]: the worker builds
    its reconciler without an event publisher. *)
Definition rec (neo : option neo4j.Store) : reconciler.Reconciler :=
  reconciler.New neo None.

End cmd_collector.

(* ================================================================== *)
(** * Package notifier *)
(* ================================================================== *)

Module notifier.
Import model.

Record AlertRule : Type := mkRule {
  ID : string;
  Name : string;
  Actions : list string;
  Sources : list string;
  Channels : list string
}.

Record Notifier : Type := mkNotifier {
  rules : list AlertRule;
  webhookURL : string
}.

Definition New (webhookURL : string) : Notifier := mkNotifier [] webhookURL.

Definition AddRule (n : Notifier) (rule : AlertRule) : Notifier :=
  mkNotifier (rules n ++ [rule]) (webhookURL n).

(** [matches] (lines 70-96). *)
Definition matches (rule : AlertRule) (event : ChangeEvent.t) : bool :=
  let actionMatch :=
    existsb (fun a => bool_decide (a = ChangeEvent.Action event)) (Actions rule) in
  if negb actionMatch then false
  else if (0 <? length (Sources rule))%nat then
    let sourceMatch :=
      existsb (fun s => bool_decide (s = ChangeEvent.Source event)) (Sources rule) in
    if negb sourceMatch then false else true
  else true.

Section Webhook.

(** Whether [http.NewRequestWithContext] accepts the URL. *)
Variable url_ok : string -> bool.

(** [sendWebhook] (lines 98-124). *)
Definition sendWebhook (n : Notifier) (event : ChangeEvent.t) : M unit :=
  if bool_decide (webhookURL n = "") then ret tt
  else if negb (url_ok (webhookURL n)) then log Error "creating webhook request"
  else
    resp <- io (fun w => (Ok (responses w (Nat.pred (calls w))),
                          set_posted (posted w ++ [(webhookURL n, event)]) w)) ;;
    match resp with
    | Err _ => log Error "sending webhook"
    | Ok status =>
        if 300 <=? status then log Warn "webhook returned non-success" else ret tt
    end.

(** The [switch ch] of lines 55-64. *)
Definition dispatch (n : Notifier) (event : ChangeEvent.t) (ch : string) : M unit :=
  if bool_decide (ch = "webhook") then sendWebhook n event
  else if bool_decide (ch = "email") then log Info "email notification not yet implemented"
  else if bool_decide (ch = "telegram") then log Info "telegram notification not yet implemented"
  else ret tt.

Fixpoint dispatch_all (n : Notifier) (event : ChangeEvent.t) (chs : list string) : M unit :=
  match chs with
  | [] => ret tt
  | ch :: rest => dispatch n event ch ;; dispatch_all n event rest
  end.

(** What a matched rule does (lines 50-65): one log entry, then every
    channel in order. *)
Definition fire (n : Notifier) (rule : AlertRule) (event : ChangeEvent.t) : M unit :=
  log Info "alert rule matched" ;;
  dispatch_all n event (Channels rule).

Fixpoint evaluate_rules (n : Notifier) (event : ChangeEvent.t) (rs : list AlertRule) : M unit :=
  match rs with
  | [] => ret tt
  | rule :: rest =>
      (if matches rule event then fire n rule event else ret tt) ;;
      evaluate_rules n event rest
  end.

(** [Evaluate] (lines 47-68). *)
Definition Evaluate (n : Notifier) (event : ChangeEvent.t) : M unit :=
  evaluate_rules n event (rules n).

End Webhook.

End notifier.

(* ================================================================== *)
(** * Package api: the handlers that feed the stores *)
(* ================================================================== *)

Module api.
Import model.

(** The part of an [*http.Request] the handlers read: the query string,
    in order, and the [id] path parameter. *)
Record Request : Type := mkRequest {
  query : list (string * string);
  id_param : string
}.

(** [r.URL.Query().Get(key)]: the first value of the key, or "". *)
Definition Query_Get (r : Request) (key : string) : string :=
  match find (fun kv : string * string => bool_decide (kv.1 = key)) (query r) with
  | Some kv => kv.2
  | None => ""
  end.

(** ** strconv.Atoi, with the error dropped as in [n, _ := strconv.Atoi(s)]:
    0 on a syntax error, the nearest 64-bit integer on a range error. *)

Definition digit (c : ascii) : option Z :=
  let n := Z.of_N (N_of_ascii c) in
  if (48 <=? n) && (n <=? 57) then Some (n - 48) else None.

Fixpoint digits (s : string) (acc : Z) : option Z :=
  match s with
  | EmptyString => Some acc
  | String c rest =>
      match digit c with
      | Some d => digits rest (acc * 10 + d)
      | None => None
      end
  end.

Definition MaxInt : Z := 2 ^ 63 - 1.
Definition MinInt : Z := - 2 ^ 63.

Definition Atoi (s : string) : Z :=
  let '(neg, body) :=
    match s with
    | String "-"%char rest => (true, rest)
    | String "+"%char rest => (false, rest)
    | _ => (false, s)
    end in
  match body with
  | EmptyString => 0
  | _ =>
      match digits body 0 with
      | None => 0
      | Some n =>
          let v := if neg : bool then - n else n in
          Z.max MinInt (Z.min MaxInt v)
      end
  end.

(** [paginationParams] (lines 42-52). *)
Definition paginationParams (r : Request) : Z * Z :=
  let limit := Atoi (Query_Get r "limit") in
  let offset := Atoi (Query_Get r "offset") in
  let limit := if (limit <=? 0) || (100 <? limit) then 50 else limit in
  let offset := if offset <? 0 then 0 else offset in
  (limit, offset).

(** What a handler writes: the status code and the JSON body. *)
Inductive Body : Type :=
| ErrorBody (msg : string)
| AssetsBody (data : list Asset.t) (total : Z)
| GraphBody (assets : list Asset.t) (relationships : list Relationship.t).

Record Response : Type := mkResponse {
  status : Z;
  body : Body
}.

Definition StatusOK : Z := 200.
Definition StatusBadRequest : Z := 400.
Definition StatusInternalServerError : Z := 500.
Definition StatusServiceUnavailable : Z := 503.

(** [type Server struct]: the graph store may be nil. *)
Record Server : Type := NewServer {
  neoStore : option neo4j.Store
}.

Section Handlers.

(** PostgreSQL's [ILIKE] and [uuid.Parse] of github.com/google/uuid. *)
Variable ILIKE : string -> string -> bool.
Variable uuid_Parse : string -> option UUID.

(** The filter [handleListAssets] builds (lines 63-71). *)
Definition list_filter (r : Request) : store.AssetFilter.t :=
  let '(limit, offset) := paginationParams r in
  store.AssetFilter.mk (Query_Get r "source") (Query_Get r "asset_type")
                       (Query_Get r "status") (Query_Get r "search") limit offset.

(** [handleListAssets] (lines 62-81). *)
Definition handleListAssets (s : Server) (r : Request) : M Response :=
  res <- postgres.List ILIKE (list_filter r) ;;
  match res with
  | Err _ =>
      log Error "listing assets" ;;
      ret (mkResponse StatusInternalServerError (ErrorBody "failed to list assets"))
  | Ok (rows, total) => ret (mkResponse StatusOK (AssetsBody rows total))
  end.

(** The two graph handlers (lines 269-325) differ in the traversal they
    call and in their messages. *)
Definition handleGraph (traverse : UUID -> Z -> M (result (list Asset.t * list Relationship.t) * string))
    (logmsg errmsg : string) (s : Server) (r : Request) : M Response :=
  match uuid_Parse (id_param r) with
  | None => ret (mkResponse StatusBadRequest (ErrorBody ("invalid UUID: " +:+ id_param r)))
  | Some id =>
      match neoStore s with
      | None => ret (mkResponse StatusServiceUnavailable (ErrorBody "graph store not available"))
      | Some _ =>
          let depth := Atoi (Query_Get r "depth") in
          let depth := if depth <=? 0 then 3 else depth in
          res <- traverse id depth ;;
          match res with
          | (Err _, _) =>
              log Error logmsg ;;
              ret (mkResponse StatusInternalServerError (ErrorBody errmsg))
          | (Ok (assets, rels), _) => ret (mkResponse StatusOK (GraphBody assets rels))
          end
      end
  end.

Definition handleGetDependencyGraph : Server -> Request -> M Response :=
  handleGraph neo4j.GetDependencyGraph
              "getting dependency graph" "failed to get dependency graph".

Definition handleGetImpactGraph : Server -> Request -> M Response :=
  handleGraph neo4j.GetImpactGraph
              "getting impact graph" "failed to get impact graph".

End Handlers.

(** ** The asset handlers *)

(** What the remaining handlers write. *)
Inductive Data : Type :=
| NoData
| ErrorData (msg : string)
| AssetData (asset : Asset.t)
| EventsData (events : list ChangeEvent.t) (total : Z).

Record Reply : Type := mkReply {
  code : Z;
  data : Data
}.

Definition StatusCreated : Z := 201.
Definition StatusNoContent : Z := 204.
Definition StatusNotFound : Z := 404.

(** The body [handleCreateAsset] decodes (lines 104-112); a JSON field that
    is absent leaves a pointer, slice or raw message nil, which is [None]
    here. *)
Record CreateInput : Type := mkCreateInput {
  in_ExternalID : string;
  in_Source : string;
  in_AssetType : string;
  in_Name : string;
  in_FQDN : option string;
  in_IPAddresses : option (list string);
  in_Attributes : option string
}.

(** The body [handleUpdateAsset] decodes (lines 166-172). *)
Record UpdateInput : Type := mkUpdateInput {
  up_Name : option string;
  up_FQDN : option string;
  up_IPAddresses : option (list string);
  up_Attributes : option string;
  up_Status : option string
}.

Section AssetHandlers.

Variable uuid_Parse : string -> option UUID.

(** [handleGetAsset] (lines 83-101). *)
Definition handleGetAsset (s : Server) (r : Request) : M Reply :=
  match uuid_Parse (id_param r) with
  | None => ret (mkReply StatusBadRequest (ErrorData ("invalid UUID: " +:+ id_param r)))
  | Some id =>
      res <- postgres.GetByID id ;;
      match res with
      | Err _ =>
          log Error "getting asset" ;;
          ret (mkReply StatusInternalServerError (ErrorData "failed to get asset"))
      | Ok None => ret (mkReply StatusNotFound (ErrorData "asset not found"))
      | Ok (Some asset) => ret (mkReply StatusOK (AssetData asset))
      end
  end.

(** Lines 124-131: the new asset with the optional fields of the body. *)
Definition fill_created (input : CreateInput) (asset : Asset.t) : Asset.t :=
  Asset.mk (Asset.ID asset) (Asset.ExternalID asset) (Asset.Source asset)
           (Asset.AssetType asset) (Asset.Name asset)
           (in_FQDN input)
           (default (Asset.IPAddresses asset) (in_IPAddresses input))
           (default (Asset.Attributes asset) (in_Attributes input))
           (Asset.FirstSeen asset) (Asset.LastSeen asset) (Asset.Status asset)
           (Asset.CreatedAt asset) (Asset.UpdatedAt asset).

(** [handleCreateAsset] (lines 103-147); [decoded] is what decoding the
    body gives, [None] when it fails. *)
Definition handleCreateAsset (s : Server) (decoded : option CreateInput) : M Reply :=
  match decoded with
  | None => ret (mkReply StatusBadRequest (ErrorData "invalid request body"))
  | Some input =>
      if bool_decide (in_ExternalID input = "") || bool_decide (in_Source input = "")
         || bool_decide (in_AssetType input = "") || bool_decide (in_Name input = "")
      then ret (mkReply StatusBadRequest
                        (ErrorData "external_id, source, asset_type, and name are required"))
      else
        asset <- NewAsset (in_ExternalID input) (in_Source input)
                          (in_AssetType input) (in_Name input) ;;
        let asset := fill_created input asset in
        c <- postgres.Create asset ;;
        match c with
        | Err _ =>
            log Error "creating asset" ;;
            ret (mkReply StatusInternalServerError (ErrorData "failed to create asset"))
        | Ok _ =>
            match neoStore s with
            | None => ret tt
            | Some _ =>
                u <- neo4j.UpsertNode asset ;;
                match u with
                | Err _ => log Warn "failed to upsert neo4j node"
                | Ok _ => ret tt
                end
            end ;;
            ret (mkReply StatusCreated (AssetData asset))
        end
  end.

(** Lines 179-193: the fields of the body that are present overwrite. *)
Definition apply_update (input : UpdateInput) (existing : Asset.t) : Asset.t :=
  Asset.mk (Asset.ID existing) (Asset.ExternalID existing) (Asset.Source existing)
           (Asset.AssetType existing)
           (default (Asset.Name existing) (up_Name input))
           (match up_FQDN input with
            | Some q => Some q
            | None => Asset.FQDN existing
            end)
           (default (Asset.IPAddresses existing) (up_IPAddresses input))
           (default (Asset.Attributes existing) (up_Attributes input))
           (Asset.FirstSeen existing) (Asset.LastSeen existing)
           (default (Asset.Status existing) (up_Status input))
           (Asset.CreatedAt existing) (Asset.UpdatedAt existing).

(** [handleUpdateAsset] (lines 149-202). *)
Definition handleUpdateAsset (s : Server) (r : Request) (decoded : option UpdateInput)
  : M Reply :=
  match uuid_Parse (id_param r) with
  | None => ret (mkReply StatusBadRequest (ErrorData ("invalid UUID: " +:+ id_param r)))
  | Some id =>
      res <- postgres.GetByID id ;;
      match res with
      | Err _ =>
          log Error "getting asset for update" ;;
          ret (mkReply StatusInternalServerError (ErrorData "failed to get asset"))
      | Ok None => ret (mkReply StatusNotFound (ErrorData "asset not found"))
      | Ok (Some existing) =>
          match decoded with
          | None => ret (mkReply StatusBadRequest (ErrorData "invalid request body"))
          | Some input =>
              u <- postgres.Update (apply_update input existing) ;;
              match u with
              | (Err _, _) =>
                  log Error "updating asset" ;;
                  ret (mkReply StatusInternalServerError
                               (ErrorData "failed to update asset"))
              | (Ok _, existing) => ret (mkReply StatusOK (AssetData existing))
              end
          end
      end
  end.

(** [handleDeleteAsset] (lines 204-223). *)
Definition handleDeleteAsset (s : Server) (r : Request) : M Reply :=
  match uuid_Parse (id_param r) with
  | None => ret (mkReply StatusBadRequest (ErrorData ("invalid UUID: " +:+ id_param r)))
  | Some id =>
      d <- postgres.Delete id ;;
      match d with
      | Err _ =>
          log Error "deleting asset" ;;
          ret (mkReply StatusInternalServerError (ErrorData "failed to delete asset"))
      | Ok _ =>
          match neoStore s with
          | None => ret tt
          | Some _ =>
              n <- neo4j.DeleteNode id ;;
              match n with
              | Err _ => log Warn "failed to delete neo4j node"
              | Ok _ => ret tt
              end
          end ;;
          ret (mkReply StatusNoContent NoData)
      end
  end.

(** [handleGetAssetHistory] (lines 227-242). *)
Definition handleGetAssetHistory (s : Server) (r : Request) : M Reply :=
  match uuid_Parse (id_param r) with
  | None => ret (mkReply StatusBadRequest (ErrorData ("invalid UUID: " +:+ id_param r)))
  | Some id =>
      let '(limit, offset) := paginationParams r in
      res <- postgres.ListChangeEventsByAssetID id limit offset ;;
      match res with
      | Err _ =>
          log Error "listing asset history" ;;
          ret (mkReply StatusInternalServerError (ErrorData "failed to list history"))
      | Ok (events, total) => ret (mkReply StatusOK (EventsData events total))
      end
  end.

(** [handleListChanges] (lines 345-355). *)
Definition handleListChanges (s : Server) (r : Request) : M Reply :=
  let '(limit, offset) := paginationParams r in
  res <- postgres.ListRecentChangeEvents limit offset ;;
  match res with
  | Err _ =>
      log Error "listing changes" ;;
      ret (mkReply StatusInternalServerError (ErrorData "failed to list changes"))
  | Ok (events, total) => ret (mkReply StatusOK (EventsData events total))
  end.

End AssetHandlers.

End api.

(* ================================================================== *)
(** * Package nmap: the collector that reads scan reports *)
(* ================================================================== *)

Module nmap.
Import model.

Record addressXML : Type := mkAddress {
  Addr : string;
  AddrType : string
}.

Record portXML : Type := mkPort {
  Protocol : string;
  PortID : string;
  PortState : string;        (* State.State *)
  ServiceName : string;      (* Service.Name *)
  ServiceProduct : string;   (* Service.Product *)
  ServiceVersion : string    (* Service.Version *)
}.

Record hostXML : Type := mkHost {
  HostState : string;        (* Status.State *)
  Addresses : list addressXML;
  Hostnames : list string;   (* the Name of every hostnameXML *)
  Ports : list portXML;
  OSMatches : list string    (* the Name of every osMatchXML *)
}.

(** [extractPorts] (lines 190-204). *)
Definition extractPorts (ports : list portXML) : list (gmap string string) :=
  map (fun p => {["port" := PortID p; "protocol" := Protocol p;
                  "service" := ServiceName p; "product" := ServiceProduct p;
                  "version" := ServiceVersion p]})
      (filter (fun p => PortState p = "open") ports).

(** [extractOS] (lines 206-211). *)
Definition extractOS (matches : list string) : string :=
  match matches with
  | name :: _ => name
  | [] => ""
  end.

(** Lines 105-110: the addresses of type ipv4 or ipv6, in order. *)
Definition host_ips (host : hostXML) : list string :=
  map Addr (filter (fun a => AddrType a = "ipv4" \/ AddrType a = "ipv6") (Addresses host)).

Section Collect.

(** [os.ReadFile], [xml.Unmarshal] into [nmapRunXML], and [json.Marshal]
    of the attribute map with its keys "ports" and "os_match". *)
Variable ReadFile : string -> result string.
Variable xml_Unmarshal : string -> result (list hostXML).
Variable marshal_attrs : list (gmap string string) -> string -> string.

(** The body of the loop over the hosts (lines 101-134) for a host that is
    up. *)
Definition host_asset (host : hostXML) : M Asset.t :=
  let ips := host_ips host in
  let hostname := match Hostnames host with
                  | name :: _ => name
                  | [] => ""
                  end in
  let externalID := match ips with
                    | ip :: _ => ip
                    | [] => ""
                    end in
  asset <- NewAsset externalID "nmap" "host" hostname ;;
  ret (Asset.mk (Asset.ID asset) (Asset.ExternalID asset) (Asset.Source asset)
                (Asset.AssetType asset) (Asset.Name asset)
                (if bool_decide (hostname <> "") then Some hostname else None)
                ips
                (marshal_attrs (extractPorts (Ports host)) (extractOS (OSMatches host)))
                (Asset.FirstSeen asset) (Asset.LastSeen asset) (Asset.Status asset)
                (Asset.CreatedAt asset) (Asset.UpdatedAt asset)).

Fixpoint hosts_assets (hosts : list hostXML) : M (list Asset.t) :=
  match hosts with
  | [] => ret []
  | host :: rest =>
      if bool_decide (HostState host <> "up") then hosts_assets rest
      else
        asset <- host_asset host ;;
        others <- hosts_assets rest ;;
        ret (asset :: others)
  end.

(** [Collect] (lines 83-137). *)
Definition Collect (cfg : CollectorConfig.t) : M (result collector.CollectResult) :=
  let xmlPath := default "" (CollectorConfig.Settings cfg !! "xml_path") in
  if bool_decide (xmlPath = "") then ret (Err "nmap collector requires xml_path setting")
  else
    match ReadFile xmlPath with
    | Err e => ret (wrap "reading nmap xml" e)
    | Ok data =>
        match xml_Unmarshal data with
        | Err e => ret (wrap "parsing nmap xml" e)
        | Ok hosts =>
            found <- hosts_assets hosts ;;
            ret (Ok (collector.mkResult found []))
        end
    end.

End Collect.

End nmap.

(* ================================================================== *)
(** * Sample worlds *)
(* ================================================================== *)

(** An empty installation whose clock reads 100, 101, ..., whose transport
    never fails and whose random identifiers are 1000, 1001, ... *)
Definition world0 : World :=
  mkWorld [] [] ∅ [] [] [] [] ∅ 0 0 0
          (fun n => 100 + Z.of_nat n) (fun _ => None) (fun _ => 200)
          (fun n => (1000 + N.of_nat n)%N).

(** Scenario 1 of the specification: what the nmap collector reports. *)
Definition nmap_host : model.Asset.t :=
  model.Asset.mk 7%N "10.0.0.5" "nmap" "host" "" None ["10.0.0.5"] "" 0 0 "" 0 0.

Definition with_bus : reconciler.Reconciler :=
  reconciler.New (Some neo4j.store) (Some reconciler.bus).

(* ================================================================== *)
(** * The specification's words, as definitions *)
(* ================================================================== *)

Module spec.
Import model.

(** The asset [a] with another list of IP addresses. *)
Definition with_IPAddresses (ips : list string) (a : Asset.t) : Asset.t :=
  Asset.mk (Asset.ID a) (Asset.ExternalID a) (Asset.Source a) (Asset.AssetType a)
           (Asset.Name a) (Asset.FQDN a) ips (Asset.Attributes a)
           (Asset.FirstSeen a) (Asset.LastSeen a) (Asset.Status a)
           (Asset.CreatedAt a) (Asset.UpdatedAt a).

(** An {old, new} pair of the diff. *)
Definition pair_ (old new : string) : gmap string string :=
  {["old" := old; "new" := new]}.

(** The entry of the diff for one compared field: present only when the
    two values differ. *)
Definition entry (old new : string) : option (gmap string string) :=
  if bool_decide (old = new) then None else Some (pair_ old new).

(** What the store answers to the [n]-th I/O call when it is a query whose
    rows are [rows]: the rows, unless the transport fails. *)
Definition answer {A} (w : World) (n : nat) (rows : A) : result A :=
  match faults w n with
  | Some msg => Err msg
  | None => Ok rows
  end.

Definition by_external (w : World) (source externalID : string) : option Asset.t :=
  find (fun a => bool_decide (Asset.Source a = source)
                 && bool_decide (Asset.ExternalID a = externalID)) (assets w).

Definition by_ip (w : World) (ip : string) : list Asset.t :=
  filter (fun a => ip ∈ Asset.IPAddresses a) (assets w).

Definition by_fqdn (w : World) (fqdn : string) : list Asset.t :=
  filter (fun a => Asset.FQDN a = Some fqdn) (assets w).

(** "A match is accepted only if exactly one candidate is returned." *)
Definition single (r : result (list Asset.t)) : option Asset.t :=
  match r with
  | Ok [m] => Some m
  | _ => None
  end.

(** "On multiple candidates, skip that IP and continue.  On first
    single-candidate hit, match." *)
Fixpoint first_single (answers : list (result (list Asset.t))) : option Asset.t :=
  match answers with
  | [] => None
  | r :: rest =>
      match single r with
      | Some m => Some m
      | None => first_single rest
      end
  end.

(** The answers to the IP lookups of stage 2, the first of which is the
    [c]-th I/O call. *)
Definition ip_answers (w : World) (c : nat) (ips : list string) : list (result (list Asset.t)) :=
  imap (fun k ip => answer w (c + k) (by_ip w ip)) ips.

(** "A three-stage cascade, stopping at the first match": the exact
    lookup, then the IPs in order, then the FQDN if it is not empty; [None]
    is "a new asset".  A failed exact lookup is the only error. *)
Definition cascade (w : World) (incoming : Asset.t) : result (option Asset.t) :=
  let c := calls w in
  match answer w c (by_external w (Asset.Source incoming) (Asset.ExternalID incoming)) with
  | Err msg => Err ("looking up asset: " +:+ ("scanning asset: " +:+ msg))
  | Ok (Some exact) => Ok (Some exact)
  | Ok None =>
      match first_single (ip_answers w (S c) (Asset.IPAddresses incoming)) with
      | Some m => Ok (Some m)
      | None =>
          match Asset.FQDN incoming with
          | Some fqdn =>
              if bool_decide (fqdn = "") then Ok None
              else Ok (single (answer w (S c + length (Asset.IPAddresses incoming))
                                      (by_fqdn w fqdn)))
          | None => Ok None
          end
      end
  end.

(** Two worlds that differ at most in the number of I/O calls made and in
    the log. *)
Definition only_looked (w w' : World) : Prop :=
  exists k l, w' = set_logs (logs w ++ l)%list (set_calls (calls w + k)%nat w).

(** The invariant of the change history: an [asset.updated] event has a
    diff with at least one entry, an [asset.created] event has the diff
    [null]. *)
Definition event_ok (e : ChangeEvent.t) : Prop :=
  (ChangeEvent.Action e = ChangeActionUpdated ->
     exists d, ChangeEvent.Diff e = json.object d /\ d <> ∅)
  /\ (ChangeEvent.Action e = ChangeActionCreated -> ChangeEvent.Diff e = json.null).

(** A computation that only appends well-formed events to the change
    history and to the bus. *)
Definition emits_ok {A} (m : M A) : Prop :=
  forall w, exists evs pubs,
    change_events (m w).2 = (change_events w ++ evs)%list
    /\ published (m w).2 = (published w ++ pubs)%list
    /\ Forall event_ok evs
    /\ Forall (fun p => event_ok p.2) pubs.

(** A computation that leaves the change history and the bus alone. *)
Definition silent {A} (m : M A) : Prop :=
  forall w, change_events (m w).2 = change_events w
            /\ published (m w).2 = published w.

(** A computation that leaves the collector statuses alone. *)
Definition keeps_heap {A} (m : M A) : Prop := forall w, heap (m w).2 = heap w.

(** "match = (event.action ∈ rule.actions) AND (rule.sources empty OR
    event.source ∈ rule.sources)". *)
Definition rule_matches (rule : notifier.AlertRule) (event : ChangeEvent.t) : Prop :=
  ChangeEvent.Action event ∈ notifier.Actions rule
  /\ (notifier.Sources rule = [] \/ ChangeEvent.Source event ∈ notifier.Sources rule).

#[global] Instance rule_matches_dec rule event : Decision (rule_matches rule event).
Proof. unfold rule_matches. apply _. Defined.

End spec.


(** Scenario 1 run on the empty installation, and its replay. *)
Definition nmap_snapshot : collector.CollectResult :=
  collector.mkResult [nmap_host] [].

Definition after_first_sighting : World :=
  (reconciler.Reconcile with_bus nmap_snapshot world0).2.

Definition after_replay : World :=
  (reconciler.Reconcile with_bus nmap_snapshot after_first_sighting).2.

(** Scenario 3: the same host, now named. *)
Definition nmap_host_named : model.Asset.t :=
  model.Asset.mk 7%N "10.0.0.5" "nmap" "host" "web01" None ["10.0.0.5"] "" 0 0 "" 0 0.

(** Scenario 4: the hypervisor inventory already knows the address. *)
Definition vmware_vm : model.Asset.t :=
  model.Asset.mk 1%N "vm-42" "vmware" "vm" "web01" None ["10.0.0.5"] "" 10 10 "active" 10 10.

Definition vmware_twin : model.Asset.t :=
  model.Asset.mk 2%N "vm-43" "vmware" "vm" "web02" None ["10.0.0.5"] "" 10 10 "active" 10 10.

(** A registry with one collector, and the world it was registered in. *)
Definition nmap_collector : collector.Collector :=
  collector.mkCollector "nmap" (fun _ _ => Ok nmap_snapshot).

Definition nmap_config : model.CollectorConfig.t :=
  model.CollectorConfig.mk "nmap" "nmap" true 0 ∅.

Definition one_collector : collector.Registry * World :=
  collector.Register collector.NewRegistry nmap_collector nmap_config world0.

(** A collector whose upstream is down. *)
Definition broken_collector : collector.Collector :=
  collector.mkCollector "nmap" (fun _ _ => Err "connection refused").

Definition worker : scheduler.Scheduler :=
  scheduler.New one_collector.1 (cmd_collector.rec (Some neo4j.store)).

(** A status a caller of [List] might write. *)
Definition scribbled : model.CollectorStatus.t :=
  model.CollectorStatus.mk "nmap" 0 0 "scribbled" true 99.

(** A chain of [n + 1] nodes 0 -> 1 -> ... -> n joined by RUNS_ON edges. *)
Definition chain_nodes (n : nat) : gmap UUID GraphNode :=
  list_to_map (map (fun i => (N.of_nat i, mkNode "" "vm" "vmware" "active")) (seq 0 (S n))).

Definition chain_edges (n : nat) : list GraphEdge :=
  map (fun i => mkEdge (N.of_nat i) (N.of_nat (S i)) "RUNS_ON" (N.of_nat (100 + i)) "vmware" "")
      (seq 0 n).

Definition chain_world (n : nat) : World :=
  set_edges (chain_edges n) (set_nodes (chain_nodes n) world0).

(** In the examples a path parameter is a decimal number; this stands in
    for [uuid.Parse]. *)
Definition parse_decimal (s : string) : option UUID :=
  match s with
  | EmptyString => None
  | _ => Z.to_N <$> api.digits s 0
  end.

Definition graph_server : api.Server := api.NewServer (Some neo4j.store).

Definition depth_request (id depth : string) : api.Request :=
  api.mkRequest [("depth", depth)] id.

(** A table of 120 assets. *)
Definition many_assets : list model.Asset.t :=
  map (fun i => model.Asset.mk (N.of_nat i) (neo4j.itoa (Z.of_nat i)) "nmap" "host" "" None []
                               "" 0 0 "active" 0 (Z.of_nat i))
      (seq 0 120).

Definition crowded_world : World := set_assets many_assets world0.

Definition limit_filter (limit : Z) : store.AssetFilter.t :=
  store.AssetFilter.mk "" "" "" "" limit 0.

(** A rule with no actions, and one with actions but no sources. *)
Definition rule_without_actions : notifier.AlertRule :=
  notifier.mkRule "r0" "nothing" [] [] ["webhook"].

Definition rule_any_source : notifier.AlertRule :=
  notifier.mkRule "r1" "new assets" ["asset.created"; "asset.removed"] [] ["webhook"; "email"].

Definition created_event : model.ChangeEvent.t :=
  model.ChangeEvent.mk 1000%N 7%N "asset.created" "nmap" json.null 101.

(** A report with one host that answered and one that did not. *)
Definition scanned_host : nmap.hostXML :=
  nmap.mkHost "up" [nmap.mkAddress "00:11:22:33:44:55" "mac"; nmap.mkAddress "10.0.0.5" "ipv4"]
              ["web01.example.org"]
              [nmap.mkPort "tcp" "22" "open" "ssh" "OpenSSH" "9.6";
               nmap.mkPort "tcp" "25" "closed" "smtp" "" ""]
              ["Linux 6.1"].

Definition silent_host : nmap.hostXML :=
  nmap.mkHost "down" [nmap.mkAddress "10.0.0.6" "ipv4"] [] [] [].

Definition scan_config : model.CollectorConfig.t :=
  model.CollectorConfig.mk "nmap" "nmap" true 0 {["xml_path" := "scan.xml"]}.

Module spec_notifier.

(** "For each rule, compute match = ...  If matched, dispatch to each
    channel": the evaluation loop with the match as the specification
    words it. *)
Fixpoint evaluate (url_ok : string -> bool) (n : notifier.Notifier)
    (event : model.ChangeEvent.t) (rs : list notifier.AlertRule) : M unit :=
  match rs with
  | [] => ret tt
  | rule :: rest =>
      (if decide (spec.rule_matches rule event)
       then notifier.fire url_ok n rule event
       else ret tt) ;;
      evaluate url_ok n event rest
  end.

End spec_notifier.

(* ================================================================== *)
(** * Invariants and frames *)
(* ================================================================== *)

Module inv.
Import model.

(** The two unique indexes of the [assets] table. *)
Definition asset_key (a : Asset.t) : string * string :=
  (Asset.Source a, Asset.ExternalID a).

Definition keys_unique (rows : list Asset.t) : Prop :=
  NoDup (map Asset.ID rows) /\ NoDup (map asset_key rows).

(** Every relationship of the graph joins two nodes of the graph. *)
Definition graph_closed (g : gmap UUID GraphNode) (es : list GraphEdge) : Prop :=
  Forall (fun e => is_Some (g !! edge_from e) /\ is_Some (g !! edge_to e)) es.

(** A computation every run of which is related by [R] to its start. *)
Definition respects {A} (R : World -> World -> Prop) (m : M A) : Prop :=
  forall w, R w (m w).2.

(** The relations used below. *)
Definition keys_stay_unique (w w' : World) : Prop :=
  keys_unique (assets w) -> keys_unique (assets w').

Definition graph_stays_closed (w w' : World) : Prop :=
  graph_closed (nodes w) (edges w) -> graph_closed (nodes w') (edges w').

Definition same_graph (w w' : World) : Prop :=
  nodes w' = nodes w /\ edges w' = edges w.

Definition same_stores (w w' : World) : Prop :=
  assets w' = assets w /\ change_events w' = change_events w
  /\ nodes w' = nodes w /\ edges w' = edges w
  /\ published w' = published w /\ heap w' = heap w.

Definition rows_stay (w w' : World) : Prop :=
  exists added, map Asset.ID (assets w') = map Asset.ID (assets w) ++ added.

(** A list sorted by a key, largest first. *)
Definition descending {A} (key : A -> Z) (l : list A) : Prop :=
  forall i j a b, (i <= j)%nat -> l !! i = Some a -> l !! j = Some b -> key b <= key a.

(** The asset table is the same, or has the same ids in the same order. *)
Definition same_assets (w w' : World) : Prop := assets w' = assets w.

Definition same_row_ids (w w' : World) : Prop :=
  map Asset.ID (assets w') = map Asset.ID (assets w).

(** Relationships followed head to tail from [at_], forwards when
    [outgoing] and backwards otherwise. *)
Fixpoint chained (outgoing : bool) (at_ : UUID) (p : list GraphEdge) : Prop :=
  match p with
  | [] => True
  | e :: rest =>
      (if outgoing then edge_from e else edge_to e) = at_
      /\ chained outgoing (if outgoing then edge_to e else edge_from e) rest
  end.

(** Only the log, the webhook posts and the counters may differ. *)
Definition only_notified (w w' : World) : Prop :=
  assets w' = assets w /\ change_events w' = change_events w
  /\ nodes w' = nodes w /\ edges w' = edges w
  /\ published w' = published w /\ heap w' = heap w.

(** What an evaluation of the notifier may do to the world: add posts of
    this event to the notifier's URL, and nothing to any store. *)
Definition notified (n : notifier.Notifier) (event : ChangeEvent.t) (w w' : World) : Prop :=
  only_notified w w'
  /\ (exists sent, posted w' = posted w ++ sent
                   /\ Forall (fun p => p = (notifier.webhookURL n, event)) sent)
  /\ (notifier.webhookURL n = "" -> posted w' = posted w /\ calls w' = calls w).

(** The asset the nmap collector makes of a host of the report. *)
Definition scanned (marshal_attrs : list (gmap string string) -> string -> string)
    (a : Asset.t) (host : nmap.hostXML) : Prop :=
  Asset.Source a = "nmap" /\ Asset.AssetType a = "host"
  /\ Asset.Status a = AssetStatusActive
  /\ Asset.IPAddresses a = nmap.host_ips host
  /\ Asset.ExternalID a = hd "" (nmap.host_ips host)
  /\ Asset.Name a = hd "" (nmap.Hostnames host)
  /\ Asset.Attributes a
     = marshal_attrs (nmap.extractPorts (nmap.Ports host)) (nmap.extractOS (nmap.OSMatches host))
  /\ Asset.FirstSeen a = Asset.LastSeen a
  /\ Asset.FQDN a = (if decide (Asset.Name a = "") then None else Some (Asset.Name a)).

End inv.

(* ================================================================== *)
(** * Properties of the reconciler *)
(* ================================================================== *)

Module ReconcilerProps.
Import model.
Import reconciler.



(** ** How the store calls run *)

Lemma scanAsset_run sel w :
  postgres.scanAsset sel w =
  (match faults w (calls w) with
   | Some msg => Err ("scanning asset: " +:+ msg)
   | None => Ok (find sel (assets w))
   end, set_calls (S (calls w)) w).
Proof.
  unfold postgres.scanAsset, bind, io, ret, wrap.
  destruct (faults w (calls w)); reflexivity.
Qed.

Lemma FindByIP_run ip w :
  postgres.FindByIP ip w =
  (match faults w (calls w) with
   | Some msg => Err ("finding assets by IP: " +:+ msg)
   | None => Ok (spec.by_ip w ip)
   end, set_calls (S (calls w)) w).
Proof.
  unfold postgres.FindByIP, bind, io, ret, wrap.
  destruct (faults w (calls w)); reflexivity.
Qed.

Lemma FindByFQDN_run fqdn w :
  postgres.FindByFQDN fqdn w =
  (match faults w (calls w) with
   | Some msg => Err ("finding assets by FQDN: " +:+ msg)
   | None => Ok (spec.by_fqdn w fqdn)
   end, set_calls (S (calls w)) w).
Proof.
  unfold postgres.FindByFQDN, bind, io, ret, wrap.
  destruct (faults w (calls w)); reflexivity.
Qed.

Lemma only_looked_refl w : spec.only_looked w w.
Proof.
  exists 0%nat, []. destruct w; unfold set_logs, set_calls; cbn.
  rewrite app_nil_r, Nat.add_0_r. reflexivity.
Qed.

Lemma only_looked_step w k l :
  spec.only_looked w (set_logs (logs w ++ l) (set_calls (calls w + k)%nat w)).
Proof. exists k, l. reflexivity. Qed.

Lemma only_looked_trans w1 w2 w3 :
  spec.only_looked w1 w2 -> spec.only_looked w2 w3 -> spec.only_looked w1 w3.
Proof.
  intros (k1 & l1 & ->) (k2 & l2 & ->).
  exists (k1 + k2)%nat, (l1 ++ l2).
  unfold set_logs, set_calls; cbn.
  rewrite app_assoc, Nat.add_assoc. reflexivity.
Qed.

Lemma ip_answers_cons w c ip rest :
  spec.ip_answers w c (ip :: rest) =
  spec.answer w c (spec.by_ip w ip) :: spec.ip_answers w (S c) rest.
Proof.
  unfold spec.ip_answers. cbn. rewrite Nat.add_0_r. f_equal.
  apply imap_ext. intros i x _. cbn. f_equal. lia.
Qed.

(** The loop over the IPs returns the unique candidate of the first lookup
    that yields exactly one; if there is none it has made one lookup per
    IP. *)
Lemma matchByIP_run ips : forall w,
  exists k l,
    reconciler.matchByIP ips w =
      (spec.first_single (spec.ip_answers w (calls w) ips),
       set_logs (logs w ++ l) (set_calls (calls w + k)%nat w))
    /\ (spec.first_single (spec.ip_answers w (calls w) ips) = None -> k = length ips).
Proof.
  induction ips as [|ip rest IH]; intros w.
  - exists 0%nat, []. split; [|done]. cbn. unfold ret. f_equal.
    destruct w; unfold set_logs, set_calls; cbn.
    rewrite app_nil_r, Nat.add_0_r. reflexivity.
  - rewrite ip_answers_cons. cbn [reconciler.matchByIP spec.first_single].
    unfold bind at 1. rewrite FindByIP_run. unfold spec.answer at 1 2.
    assert (Hnext : forall l0, exists k l,
      reconciler.matchByIP rest (set_logs (logs w ++ l0) (set_calls (S (calls w)) w)) =
        (spec.first_single (spec.ip_answers w (S (calls w)) rest),
         set_logs (logs w ++ l0 ++ l) (set_calls (calls w + S k)%nat w))
      /\ (spec.first_single (spec.ip_answers w (S (calls w)) rest) = None
          -> S k = length (ip :: rest))).
    { intros l0.
      destruct (IH (set_logs (logs w ++ l0) (set_calls (S (calls w)) w)))
        as (k & l & Hrun & Hk).
      exists k, l. split.
      - rewrite Hrun. f_equal. unfold set_logs, set_calls; cbn.
        rewrite <- app_assoc, <- Nat.add_succ_comm. reflexivity.
      - intros H. cbn. f_equal. apply Hk. exact H. }
    destruct (faults w (calls w)) as [msg|] eqn:Hf; cbn [spec.single].
    + destruct (Hnext [(Warn, "fuzzy IP match failed")]) as (k & l & Hrun & Hk).
      exists (S k), ((Warn, "fuzzy IP match failed") :: l).
      split; [|exact Hk]. unfold bind, log. exact Hrun.
    + destruct (Hnext []) as (k & l & Hrun & Hk).
      assert (Hw : set_logs (logs w ++ []) (set_calls (S (calls w)) w)
                   = set_calls (S (calls w)) w).
      { destruct w; unfold set_logs, set_calls; cbn. rewrite app_nil_r. reflexivity. }
      rewrite Hw in Hrun. cbn [app] in Hrun.
      destruct (spec.by_ip w ip) as [|m [|m' ms]] eqn:Hrows.
      * exists (S k), l. split; [exact Hrun | exact Hk].
      * exists 1%nat, []. split; [|done]. unfold ret. f_equal.
        destruct w; unfold set_logs, set_calls; cbn.
        rewrite app_nil_r, Nat.add_1_r. reflexivity.
      * exists (S k), l. split; [exact Hrun | exact Hk].
Qed.

Lemma set_calls_as_step w k :
  set_calls (calls w + k)%nat w = set_logs (logs w ++ []) (set_calls (calls w + k)%nat w).
Proof. destruct w; unfold set_logs, set_calls; cbn. rewrite app_nil_r. reflexivity. Qed.

(** Steps 1 to 3 compute the cascade and write nothing. *)
Lemma findExisting_run incoming w :
  exists k l,
    findExisting incoming w =
      (spec.cascade w incoming, set_logs (logs w ++ l) (set_calls (calls w + k)%nat w)).
Proof.
  unfold findExisting, postgres.GetByExternalID, spec.cascade, spec.answer.
  unfold bind at 1. rewrite scanAsset_run.
  fold (spec.by_external w (Asset.Source incoming) (Asset.ExternalID incoming)).
  destruct (faults w (calls w)) as [msg|] eqn:Hf.
  { exists 1%nat, []. unfold ret, wrap. cbn. f_equal.
    rewrite <- Nat.add_1_r. apply set_calls_as_step. }
  destruct (spec.by_external w (Asset.Source incoming) (Asset.ExternalID incoming))
    as [exact|] eqn:Hex.
  { exists 1%nat, []. unfold bind, ret. cbn.
    destruct (Asset.FQDN incoming); f_equal;
      rewrite <- Nat.add_1_r; apply set_calls_as_step. }
  (* stage 2 *)
  assert (Hip : exists k l,
    (if (0 <? length (Asset.IPAddresses incoming))%nat
     then matchByIP (Asset.IPAddresses incoming) else ret None)
      (set_calls (S (calls w)) w) =
    (spec.first_single (spec.ip_answers w (S (calls w)) (Asset.IPAddresses incoming)),
     set_logs (logs w ++ l) (set_calls (calls w + S k)%nat w))
    /\ (spec.first_single (spec.ip_answers w (S (calls w)) (Asset.IPAddresses incoming)) = None
        -> k = length (Asset.IPAddresses incoming))).
  { destruct (Asset.IPAddresses incoming) as [|ip rest] eqn:Hips.
    - exists 0%nat, []. split; [|done]. cbn. unfold ret. f_equal.
      rewrite <- Nat.add_1_r. apply set_calls_as_step.
    - change ((0 <? length (ip :: rest))%nat) with true. cbv iota.
      destruct (matchByIP_run (ip :: rest) (set_calls (S (calls w)) w))
        as (k & l & Hrun & Hk).
      exists k, l. split.
      + rewrite Hrun. f_equal. unfold set_logs, set_calls; cbn.
        rewrite <- Nat.add_succ_comm. reflexivity.
      + exact Hk. }
  destruct Hip as (k & l & Hrun & Hk).
  unfold bind at 1. rewrite Hrun.
  destruct (spec.first_single (spec.ip_answers w (S (calls w)) (Asset.IPAddresses incoming)))
    as [m|] eqn:Hfirst.
  { exists (S k), l. unfold bind, ret. destruct (Asset.FQDN incoming); reflexivity. }
  specialize (Hk eq_refl). subst k.
  (* stage 3 *)
  destruct (Asset.FQDN incoming) as [fqdn|].
  2: { exists (S (length (Asset.IPAddresses incoming))), l. reflexivity. }
  unfold bind at 1.
  destruct (decide (fqdn = "")) as [->|Hne].
  { exists (S (length (Asset.IPAddresses incoming))), l. reflexivity. }
  rewrite (bool_decide_true (fqdn <> "")) by done.
  rewrite (bool_decide_false (fqdn = "")) by done.
  unfold matchByFQDN, bind. rewrite FindByFQDN_run.
  cbn [faults calls set_logs set_calls].
  replace (calls w + S (length (Asset.IPAddresses incoming)))%nat
    with (S (calls w) + length (Asset.IPAddresses incoming))%nat by lia.
  destruct (faults w (S (calls w) + length (Asset.IPAddresses incoming))%nat) as [msg|].
  { exists (S (S (length (Asset.IPAddresses incoming)))),
           (l ++ [(Warn, "fuzzy FQDN match failed")]).
    unfold log, ret. cbn. f_equal. unfold set_logs, set_calls; cbn.
    rewrite <- app_assoc. repeat f_equal. lia. }
  change (spec.by_fqdn _ fqdn) with (spec.by_fqdn w fqdn).
  exists (S (S (length (Asset.IPAddresses incoming)))), l.
  destruct (spec.by_fqdn w fqdn) as [|m [|m' ms]]; unfold ret; cbn; f_equal;
    unfold set_logs, set_calls; cbn; repeat f_equal; lia.
Qed.

(** [reconcileAsset] is the cascade followed by the branch it selects. *)
Lemma reconcileAsset_by_cascade r incoming w :
  reconcileAsset r incoming w =
  match spec.cascade w incoming with
  | Err msg => (Err msg, (findExisting incoming w).2)
  | Ok None =>
      (now <- time_Now ;; insertNew r now incoming) (findExisting incoming w).2
  | Ok (Some existing) =>
      (now <- time_Now ;; updateExisting r now existing incoming) (findExisting incoming w).2
  end.
Proof.
  destruct (findExisting_run incoming w) as (k & l & Hrun).
  unfold reconcileAsset. unfold bind at 1. rewrite Hrun. cbn [snd].
  destruct (spec.cascade w incoming) as [[existing|]|msg]; reflexivity.
Qed.

(** C1. Identity resolution is a three-stage cascade that stops at the
    first match: the exact lookup by (source, external_id); failing that,
    the IP addresses in order, an IP counting only when its lookup returns
    exactly one candidate; failing that, the FQDN if it is not empty, again
    only on exactly one candidate; otherwise the asset is new.  The
    lookups write nothing, an exact hit makes no further lookup, and the
    branch of [reconcileAsset] that runs is the one the cascade selects. *)
Theorem identity_cascade (r : Reconciler) (incoming : Asset.t) (w : World) :
  let found := findExisting incoming w in
  found.1 = spec.cascade w incoming
  /\ spec.only_looked w found.2
  /\ (forall exact,
        spec.answer w (calls w)
          (spec.by_external w (Asset.Source incoming) (Asset.ExternalID incoming))
          = Ok (Some exact) ->
        found = (Ok (Some exact), set_calls (S (calls w)) w))
  /\ reconcileAsset r incoming w =
       match spec.cascade w incoming with
       | Err msg => (Err msg, found.2)
       | Ok None => (now <- time_Now ;; insertNew r now incoming) found.2
       | Ok (Some existing) =>
           (now <- time_Now ;; updateExisting r now existing incoming) found.2
       end.
Proof.
  cbn zeta.
  destruct (findExisting_run incoming w) as (k & l & Hrun).
  split; [|split; [|split]].
  - rewrite Hrun. reflexivity.
  - rewrite Hrun. apply only_looked_step.
  - intros exact Hexact.
    unfold findExisting, postgres.GetByExternalID.
    unfold bind at 1. rewrite scanAsset_run.
    unfold spec.answer, spec.by_external in Hexact.
    destruct (faults w (calls w)); [discriminate|].
    injection Hexact as ->.
    unfold bind, ret. destruct (Asset.FQDN incoming); reflexivity.
  - apply reconcileAsset_by_cascade.
Qed.

(** ** Computations that leave the history and the bus alone *)

Lemma silent_ret {A} (a : A) : spec.silent (ret a).
Proof. intros w. split; reflexivity. Qed.

Lemma silent_bind {A B} (m : M A) (k : A -> M B) :
  spec.silent m -> (forall a, spec.silent (k a)) -> spec.silent (bind m k).
Proof.
  intros Hm Hk w. unfold bind.
  destruct (m w) as [a w1] eqn:E.
  destruct (Hm w) as [H1 H2]. rewrite E in H1, H2. cbn in H1, H2.
  destruct (Hk a w1) as [H3 H4]. split; congruence.
Qed.

Lemma silent_log lvl msg : spec.silent (log lvl msg).
Proof. intros w. split; reflexivity. Qed.

Lemma silent_time_Now : spec.silent time_Now.
Proof. intros w. split; reflexivity. Qed.

Lemma silent_io {A} (body : M (result A)) : spec.silent body -> spec.silent (io body).
Proof.
  intros Hb w. unfold io.
  destruct (faults w (calls w)); [split; reflexivity|].
  destruct (Hb (set_calls (S (calls w)) w)) as [H1 H2]. split; assumption.
Qed.

(** One step of a proof that a monadic term is silent. *)
Ltac silent_step :=
  lazymatch goal with
  | |- spec.silent (bind _ _) => apply silent_bind; [|intros ?]
  | |- spec.silent (ret _) => apply silent_ret
  | |- spec.silent (log _ _) => apply silent_log
  | |- spec.silent time_Now => apply silent_time_Now
  | |- spec.silent (io _) => apply silent_io
  | |- spec.silent (match ?x with _ => _ end) => destruct x
  | |- spec.silent (fun _ => _) =>
      let w := fresh "w" in intros w; cbn; repeat (case_match; cbn); split; reflexivity
  end.

Lemma silent_Create a : spec.silent (postgres.Create a).
Proof. unfold postgres.Create. repeat silent_step. Qed.

Lemma silent_Update a : spec.silent (postgres.Update a).
Proof. unfold postgres.Update. repeat silent_step. Qed.

Lemma silent_scanAsset sel : spec.silent (postgres.scanAsset sel).
Proof. unfold postgres.scanAsset. repeat silent_step. Qed.

Lemma silent_FindByIP ip : spec.silent (postgres.FindByIP ip).
Proof. unfold postgres.FindByIP. repeat silent_step. Qed.

Lemma silent_FindByFQDN fqdn : spec.silent (postgres.FindByFQDN fqdn).
Proof. unfold postgres.FindByFQDN. repeat silent_step. Qed.

Lemma silent_UpsertNode a : spec.silent (neo4j.UpsertNode a).
Proof. unfold neo4j.UpsertNode. repeat silent_step. Qed.

Lemma silent_UpsertRelationship rel : spec.silent (neo4j.UpsertRelationship rel).
Proof. unfold neo4j.UpsertRelationship. repeat silent_step. Qed.

Lemma silent_upsertNode r a msg : spec.silent (upsertNode r a msg).
Proof.
  unfold upsertNode. destruct (neoStore r); [|apply silent_ret].
  apply silent_bind; [apply silent_UpsertNode|]. intros []; repeat silent_step.
Qed.

Lemma silent_matchByIP ips : spec.silent (matchByIP ips).
Proof.
  induction ips as [|ip rest IH]; cbn [matchByIP]; [apply silent_ret|].
  apply silent_bind; [apply silent_FindByIP|].
  intros [[|m [|m' ms]]|msg]; try assumption; try apply silent_ret.
  apply silent_bind; [apply silent_log | intros _; assumption].
Qed.

Lemma silent_findExisting incoming : spec.silent (findExisting incoming).
Proof.
  unfold findExisting, postgres.GetByExternalID.
  apply silent_bind; [apply silent_scanAsset|].
  intros [existing|msg]; [|apply silent_ret].
  apply silent_bind.
  { destruct existing; [apply silent_ret|].
    destruct (0 <? _)%nat; [apply silent_matchByIP | apply silent_ret]. }
  intros existing'. apply silent_bind; [|intros ?; apply silent_ret].
  destruct existing', (Asset.FQDN incoming) as [fqdn|]; try apply silent_ret.
  destruct (bool_decide (fqdn <> "")); [|apply silent_ret].
  unfold matchByFQDN. apply silent_bind; [apply silent_FindByFQDN|].
  intros [[|m [|m' ms]]|msg]; repeat silent_step.
Qed.

(** ** Computations that append only well-formed events *)

Lemma silent_emits_ok {A} (m : M A) : spec.silent m -> spec.emits_ok m.
Proof.
  intros H w. destruct (H w) as [H1 H2]. exists [], [].
  rewrite !app_nil_r. repeat split; auto.
Qed.

Lemma emits_ok_bind {A B} (m : M A) (k : A -> M B) :
  spec.emits_ok m -> (forall a, spec.emits_ok (k a)) -> spec.emits_ok (bind m k).
Proof.
  intros Hm Hk w. unfold bind.
  destruct (m w) as [a w1] eqn:E.
  destruct (Hm w) as (e1 & p1 & H1 & H2 & H3 & H4). rewrite E in H1, H2. cbn in H1, H2.
  destruct (Hk a w1) as (e2 & p2 & H5 & H6 & H7 & H8).
  exists (e1 ++ e2), (p1 ++ p2).
  rewrite H5, H6, H1, H2, !app_assoc. repeat split; try reflexivity.
  - apply Forall_app; auto.
  - apply Forall_app; auto.
Qed.

(** With no publisher, [publishEvent] returns at once. *)
Lemma publishEvent_nil neo action asset diff w :
  publishEvent (New neo None) action asset diff w = (tt, w).
Proof. reflexivity. Qed.

Lemma emits_ok_CreateChangeEvent e :
  spec.event_ok e -> spec.emits_ok (postgres.CreateChangeEvent e).
Proof.
  intros He w. unfold postgres.CreateChangeEvent, bind, io, ret.
  destruct (faults w (calls w)); cbn.
  { exists [], []. rewrite !app_nil_r. repeat split; auto. }
  destruct (existsb _ (change_events w)); cbn;
    [|destruct (negb _); cbn].
  1-2: exists [], []; rewrite !app_nil_r; repeat split; auto.
  exists [e], []. rewrite !app_nil_r. repeat split; auto.
Qed.

Lemma emits_ok_Publish p subject e :
  spec.event_ok e -> spec.emits_ok (Publish p subject e).
Proof.
  intros He w. unfold Publish, io.
  destruct (faults w (calls w)); cbn.
  { exists [], []. rewrite !app_nil_r. repeat split; auto. }
  exists [], [(subject, e)]. rewrite !app_nil_r. repeat split; auto.
Qed.

(** The event [publishEvent] builds is stored at most once and published
    at most once. *)
Lemma emits_ok_publishEvent r action asset diff :
  (action = ChangeActionUpdated -> exists d, diff = Some d /\ d <> ∅) ->
  (action = ChangeActionCreated -> diff = None) ->
  spec.emits_ok (publishEvent r action asset diff).
Proof.
  intros Hupd Hcre. unfold publishEvent.
  destruct (publisher r) as [p|]; [|apply silent_emits_ok, silent_ret].
  intros w.
  set (event := ChangeEvent.mk (uuids w (draws w)) (Asset.ID asset) action
                               (Asset.Source asset) (json.Marshal diff)
                               (clock w (ticks w))).
  assert (Hok : spec.event_ok event).
  { split; cbn; intros Ha.
    - destruct (Hupd Ha) as (d & -> & Hd). exists d. split; [reflexivity|exact Hd].
    - rewrite (Hcre Ha). reflexivity. }
  unfold bind at 1. unfold NewChangeEvent, bind, uuid_New, time_Now, ret. cbn.
  fold event.
  match goal with
  | |- context [ (let (a, w') := postgres.CreateChangeEvent event ?w1 in @?k a w') ] =>
      change (let (a, w') := postgres.CreateChangeEvent event w1 in k a w')
        with (bind (postgres.CreateChangeEvent event) k w1);
      assert (Hrest : spec.emits_ok (bind (postgres.CreateChangeEvent event) k));
      [| exact (Hrest w1) ]
  end.
  apply emits_ok_bind; [apply emits_ok_CreateChangeEvent, Hok|].
  intros s. apply emits_ok_bind.
  { destruct s; apply silent_emits_ok; [apply silent_ret | apply silent_log]. }
  intros _. apply emits_ok_bind; [apply emits_ok_Publish, Hok|].
  intros d. destruct d; apply silent_emits_ok; [apply silent_ret | apply silent_log].
Qed.

Lemma emits_ok_reconcileAsset r incoming : spec.emits_ok (reconcileAsset r incoming).
Proof.
  unfold reconcileAsset.
  apply emits_ok_bind; [apply silent_emits_ok, silent_findExisting|].
  intros [existing|msg]; [|apply silent_emits_ok, silent_ret].
  apply emits_ok_bind; [apply silent_emits_ok, silent_time_Now|].
  intros now. destruct existing as [existing|].
  - unfold updateExisting.
    destruct (0 <? size (detectChanges existing incoming))%nat eqn:Hsize.
    + apply emits_ok_bind; [apply silent_emits_ok, silent_Update|].
      intros [[]?]; [|apply silent_emits_ok, silent_ret].
      apply emits_ok_bind; [apply silent_emits_ok, silent_upsertNode|].
      intros _. apply emits_ok_bind; [|intros _; apply silent_emits_ok, silent_ret].
      apply emits_ok_publishEvent; [|discriminate].
      intros _. eexists. split; [reflexivity|].
      intros Hempty. rewrite Hempty, map_size_empty in Hsize. discriminate.
    + apply silent_emits_ok.
      apply silent_bind; [apply silent_Update|].
      intros [[]?]; apply silent_ret.
  - unfold insertNew.
    apply emits_ok_bind; [apply silent_emits_ok, silent_Create|].
    intros []; [|apply silent_emits_ok, silent_ret].
    apply emits_ok_bind; [apply silent_emits_ok, silent_upsertNode|].
    intros _. apply emits_ok_bind; [|intros _; apply silent_emits_ok, silent_ret].
    apply emits_ok_publishEvent; [discriminate|reflexivity].
Qed.

Lemma emits_ok_reconcileAssets r l : spec.emits_ok (reconcileAssets r l).
Proof.
  induction l as [|a rest IH]; cbn [reconcileAssets].
  - apply silent_emits_ok, silent_ret.
  - apply emits_ok_bind; [apply emits_ok_reconcileAsset|].
    intros e. apply emits_ok_bind; [|intros _; exact IH].
    destruct e; apply silent_emits_ok; [apply silent_ret | apply silent_log].
Qed.

Lemma silent_reconcileRelationships r l : spec.silent (reconcileRelationships r l).
Proof.
  induction l as [|rel rest IH]; cbn [reconcileRelationships]; [apply silent_ret|].
  apply silent_bind.
  { unfold reconcileRelationship.
    destruct (neoStore r); [apply silent_UpsertRelationship | apply silent_ret]. }
  intros e. apply silent_bind; [|intros _; exact IH].
  destruct e; [apply silent_ret | apply silent_log].
Qed.

Lemma emits_ok_Reconcile r res : spec.emits_ok (Reconcile r res).
Proof.
  unfold Reconcile.
  apply emits_ok_bind; [apply emits_ok_reconcileAssets|].
  intros _. apply emits_ok_bind; [apply silent_emits_ok, silent_reconcileRelationships|].
  intros _. apply silent_emits_ok, silent_ret.
Qed.

(** An existing asset with an empty diff is only re-stamped. *)
Lemma silent_updateExisting_no_diff r now existing incoming :
  detectChanges existing incoming = ∅ ->
  spec.silent (updateExisting r now existing incoming).
Proof.
  intros Hd. unfold updateExisting. rewrite Hd, map_size_empty. cbn [Nat.ltb Nat.leb].
  apply silent_bind; [apply silent_Update|].
  intros [[]?]; apply silent_ret.
Qed.

(** C3. Every change event the reconciler appends to the history or
    publishes is well formed: an asset.updated event carries a diff with
    at least one entry and an asset.created event carries the diff null;
    this holds for one asset and for a whole batch.  Reconciling an
    incoming asset against an existing one with an empty diff appends and
    publishes nothing. *)
Theorem change_events_well_formed (r : Reconciler) :
  (forall incoming, spec.emits_ok (reconcileAsset r incoming))
  /\ (forall res, spec.emits_ok (Reconcile r res))
  /\ (forall incoming w existing,
        spec.cascade w incoming = Ok (Some existing) ->
        detectChanges existing incoming = ∅ ->
        change_events (reconcileAsset r incoming w).2 = change_events w
        /\ published (reconcileAsset r incoming w).2 = published w).
Proof.
  split; [|split].
  - apply emits_ok_reconcileAsset.
  - apply emits_ok_Reconcile.
  - intros incoming w existing Hc Hd.
    rewrite reconcileAsset_by_cascade, Hc.
    assert (Hs : spec.silent (now <- time_Now ;; updateExisting r now existing incoming)).
    { apply silent_bind; [apply silent_time_Now|].
      intros now. apply silent_updateExisting_no_diff, Hd. }
    destruct (Hs (findExisting incoming w).2) as [H1 H2].
    destruct (silent_findExisting incoming w) as [H3 H4].
    split; congruence.
Qed.

Lemma identity_cascade_witness :
  findExisting nmap_host after_first_sighting
  = (Ok (Some (Asset.mk 7%N "10.0.0.5" "nmap" "host" "" None ["10.0.0.5"] ""
                        100 100 "active" 100 100)),
     set_calls (S (calls after_first_sighting)) after_first_sighting).
Proof.
  apply (proj1 (proj2 (proj2 (identity_cascade with_bus nmap_host after_first_sighting)))).
  vm_compute. reflexivity.
Defined.

Lemma change_events_well_formed_witness :
  change_events (reconcileAsset with_bus nmap_host after_first_sighting).2
  = change_events after_first_sighting
  /\ published (reconcileAsset with_bus nmap_host after_first_sighting).2
     = published after_first_sighting.
Proof.
  apply (proj2 (proj2 (change_events_well_formed with_bus)) nmap_host after_first_sighting
           (Asset.mk 7%N "10.0.0.5" "nmap" "host" "" None ["10.0.0.5"] ""
                     100 100 "active" 100 100)).
  - vm_compute. reflexivity.
  - vm_compute. reflexivity.
Defined.

Lemma silent_reconcileAsset_nil neo incoming :
  spec.silent (reconcileAsset (New neo None) incoming).
Proof.
  unfold reconcileAsset.
  apply silent_bind; [apply silent_findExisting|].
  intros [existing|msg]; [|apply silent_ret].
  apply silent_bind; [apply silent_time_Now|].
  intros now. destruct existing as [existing|].
  - unfold updateExisting.
    destruct (0 <? size (detectChanges existing incoming))%nat.
    + apply silent_bind; [apply silent_Update|].
      intros [[]?]; [|apply silent_ret].
      apply silent_bind; [apply silent_upsertNode|].
      intros _. apply silent_bind; [|intros _; apply silent_ret].
      intros w. rewrite publishEvent_nil. split; reflexivity.
    + apply silent_bind; [apply silent_Update|].
      intros [[]?]; apply silent_ret.
  - unfold insertNew.
    apply silent_bind; [apply silent_Create|].
    intros []; [|apply silent_ret].
    apply silent_bind; [apply silent_upsertNode|].
    intros _. apply silent_bind; [|intros _; apply silent_ret].
    intros w. rewrite publishEvent_nil. split; reflexivity.
Qed.

Lemma silent_reconcileAssets_nil neo l :
  spec.silent (reconcileAssets (New neo None) l).
Proof.
  induction l as [|a rest IH]; cbn [reconcileAssets]; [apply silent_ret|].
  apply silent_bind; [apply silent_reconcileAsset_nil|].
  intros e. apply silent_bind; [|intros _; exact IH].
  destruct e; [apply silent_ret | apply silent_log].
Qed.

(** C10. A reconciler built with a nil publisher records no change
    history: [publishEvent] returns before anything is built, stored or
    published, so neither one reconciled asset nor a whole batch changes
    the change-event table or the bus; the collector worker builds its
    reconciler exactly so. *)
Theorem nil_publisher_records_nothing (neo : option neo4j.Store) :
  publisher (cmd_collector.rec neo) = None
  /\ (forall action asset diff w,
        publishEvent (New neo None) action asset diff w = (tt, w))
  /\ (forall incoming w,
        change_events (reconcileAsset (New neo None) incoming w).2 = change_events w
        /\ published (reconcileAsset (New neo None) incoming w).2 = published w)
  /\ (forall res w,
        change_events (Reconcile (cmd_collector.rec neo) res w).2 = change_events w
        /\ published (Reconcile (cmd_collector.rec neo) res w).2 = published w).
Proof.
  split; [reflexivity|]. split; [intros; apply publishEvent_nil|]. split.
  - intros incoming w. apply silent_reconcileAsset_nil.
  - intros res. unfold cmd_collector.rec, Reconcile.
    apply silent_bind; [apply silent_reconcileAssets_nil|].
    intros _. apply silent_bind; [apply silent_reconcileRelationships|].
    intros _. apply silent_ret.
Qed.

(** ** Re-sighting an unchanged asset *)

(** When the incoming asset matches a stored one and no compared field
    differs, the row is rewritten with [last_seen] and [status] from the
    reconciler and with [updated_at] from the clock reading [Update] takes. *)
Lemma no_diff_update_run r incoming w existing :
  spec.cascade w incoming = Ok (Some existing) ->
  detectChanges existing incoming = ∅ ->
  let w0 := (findExisting incoming w).2 in
  let stamped := postgres.stamp_UpdatedAt (clock w (S (ticks w)))
                   (touch (clock w (ticks w)) existing) in
  faults w (calls w0) = None ->
  postgres.update_collides stamped (assets w) = false ->
  assets (reconcileAsset r incoming w).2 = postgres.update_rows stamped (assets w).
Proof.
  intros Hc Hd w0 stamped Hf Hu. subst w0 stamped.
  rewrite reconcileAsset_by_cascade, Hc.
  destruct (findExisting_run incoming w) as (k & l & Hrun).
  rewrite Hrun in *. cbn [snd] in *.
  unfold bind at 1. unfold time_Now at 1. cbn [ticks clock set_logs set_calls].
  unfold updateExisting. rewrite Hd, map_size_empty. cbn [Nat.ltb Nat.leb].
  unfold postgres.Update, bind, time_Now, io, ret.
  cbn. cbn in Hf. rewrite Hf, Hu. cbn. reflexivity.
Qed.

(** C2 (the code departs from the claim). Replaying scenario 1: the second
    run appends no change event and publishes nothing, and [last_seen]
    advances, but [updated_at] does not keep its value: [Update] stamps
    it with a fresh clock reading on every call. *)
Theorem replay_restamps_updated_at :
  change_events after_replay = change_events after_first_sighting
  /\ published after_replay = published after_first_sighting
  /\ length (change_events after_first_sighting) = 1%nat
  /\ map Asset.LastSeen (assets after_first_sighting) = [100]
  /\ map Asset.LastSeen (assets after_replay) = [102]
  /\ map Asset.UpdatedAt (assets after_first_sighting) = [100]
  /\ map Asset.UpdatedAt (assets after_replay) = [103].
Proof. vm_compute. repeat split; reflexivity. Qed.

(** ** The scenarios of the specification, run *)

Example first_sighting :
  assets after_first_sighting =
    [Asset.mk 7%N "10.0.0.5" "nmap" "host" "" None ["10.0.0.5"] "" 100 100 "active" 100 100]
  /\ nodes after_first_sighting !! 7%N = Some (mkNode "" "host" "nmap" "active")
  /\ published after_first_sighting =
       [("assets.asset.created",
         ChangeEvent.mk 1000%N 7%N "asset.created" "nmap" json.null 101)].
Proof. vm_compute. repeat split; reflexivity. Qed.

Example attribute_change :
  let w := (reconcileAsset with_bus nmap_host_named after_first_sighting).2 in
  map (fun p => (p.1, ChangeEvent.Action p.2, ChangeEvent.Diff p.2)) (published w) =
    [("assets.asset.created", "asset.created", json.null);
     ("assets.asset.updated", "asset.updated",
      json.object {["name" := {["old" := ""; "new" := "web01"]}]})]
  /\ map Asset.Name (assets w) = ["web01"].
Proof. vm_compute. repeat split; reflexivity. Qed.

Example cross_source_merge_by_ip :
  let one := set_assets [vmware_vm] world0 in
  let two := set_assets [vmware_vm; vmware_twin] world0 in
  map Asset.Source (assets (reconcileAsset with_bus nmap_host one).2) = ["vmware"]
  /\ map Asset.Source (assets (reconcileAsset with_bus nmap_host two).2)
     = ["vmware"; "vmware"; "nmap"].
Proof. vm_compute. repeat split; reflexivity. Qed.

End ReconcilerProps.

(* ================================================================== *)
(** * Properties of the registry *)
(* ================================================================== *)

Module RegistryProps.
Import model.
Import collector.

(** C8 as stated fails: a write through a pointer returned by [List]
    changes the status the live registry holds. *)
Lemma List_pointers_alias_live_statuses :
  ~ (forall (r : Registry) (w : World) (p : loc) (v : CollectorStatus.t) (name : string),
       p ∈ List r -> status_of r name (store_ p v w) = status_of r name w).
Proof.
  intros H.
  specialize (H one_collector.1 one_collector.2 0%nat scribbled "nmap").
  assert (Hin : 0%nat ∈ List one_collector.1) by (vm_compute; left).
  specialize (H Hin). vm_compute in H. discriminate.
Qed.

(** C8, amended. [List] returns a new slice with one entry per registered
    collector, and every entry is the pointer the registry itself keeps in
    [statuses]: a write through a returned pointer is what the registry
    then reports under that name, and a write elsewhere is not seen. *)
Theorem List_returns_live_pointers (r : Registry) :
  length (List r) = size (statuses r)
  /\ (forall p, p ∈ List r <-> exists name, statuses r !! name = Some p)
  /\ (forall name p v w,
        statuses r !! name = Some p -> status_of r name (store_ p v w) = Some v)
  /\ (forall name p q v w,
        statuses r !! name = Some p -> q <> p ->
        status_of r name (store_ q v w) = status_of r name w).
Proof.
  unfold List, status_of, load, store_. split; [|split; [|split]].
  - rewrite length_fmap, length_map_to_list. reflexivity.
  - intros p. rewrite list_elem_of_fmap. split.
    + intros ([name q] & -> & Hin). exists name. apply elem_of_map_to_list in Hin. exact Hin.
    + intros (name & Hp). exists (name, p). split; [reflexivity|].
      apply elem_of_map_to_list. exact Hp.
  - intros name p v w Hp. rewrite Hp. cbn. apply lookup_insert_eq.
  - intros name p q v w Hp Hq. rewrite Hp. cbn. apply lookup_insert_ne. exact Hq.
Qed.

Lemma List_returns_live_pointers_witness :
  status_of one_collector.1 "nmap" (store_ 0%nat scribbled one_collector.2) = Some scribbled.
Proof.
  apply (proj1 (proj2 (proj2 (List_returns_live_pointers one_collector.1)))).
  vm_compute. reflexivity.
Defined.

End RegistryProps.

(* ================================================================== *)
(** * Properties of the scheduler *)
(* ================================================================== *)

Module SchedulerProps.
Import model.
Import scheduler.

(** ** Computations that leave the collector statuses alone *)

Lemma keeps_heap_ret {A} (a : A) : spec.keeps_heap (ret a).
Proof. intros w. reflexivity. Qed.

Lemma keeps_heap_bind {A B} (m : M A) (k : A -> M B) :
  spec.keeps_heap m -> (forall a, spec.keeps_heap (k a)) -> spec.keeps_heap (bind m k).
Proof.
  intros Hm Hk w. unfold bind.
  destruct (m w) as [a w1] eqn:E.
  specialize (Hm w). rewrite E in Hm. cbn in Hm.
  rewrite (Hk a w1). exact Hm.
Qed.

Lemma keeps_heap_io {A} (body : M (result A)) : spec.keeps_heap body -> spec.keeps_heap (io body).
Proof.
  intros Hb w. unfold io.
  destruct (faults w (calls w)); [reflexivity|].
  apply (Hb (set_calls (S (calls w)) w)).
Qed.

Create HintDb heap_frame.

Ltac frame :=
  repeat first
    [ solve [auto with heap_frame]
    | apply keeps_heap_ret
    | apply keeps_heap_bind; [|intros ?]
    | apply keeps_heap_io
    | lazymatch goal with
      | |- spec.keeps_heap (match ?x with _ => _ end) => destruct x
      | |- spec.keeps_heap (fun _ => _) =>
          let w := fresh "w" in intros w; cbn; repeat (case_match; cbn); reflexivity
      end ].

Lemma keeps_heap_log lvl msg : spec.keeps_heap (log lvl msg).
Proof. intros w. reflexivity. Qed.
#[local] Hint Resolve keeps_heap_log : heap_frame.

Lemma keeps_heap_time_Now : spec.keeps_heap time_Now.
Proof. intros w. reflexivity. Qed.
#[local] Hint Resolve keeps_heap_time_Now : heap_frame.

Lemma keeps_heap_uuid_New : spec.keeps_heap uuid_New.
Proof. intros w. reflexivity. Qed.
#[local] Hint Resolve keeps_heap_uuid_New : heap_frame.

Lemma keeps_heap_Create a : spec.keeps_heap (postgres.Create a).
Proof. unfold postgres.Create. frame. Qed.
#[local] Hint Resolve keeps_heap_Create : heap_frame.

Lemma keeps_heap_Update a : spec.keeps_heap (postgres.Update a).
Proof. unfold postgres.Update. frame. Qed.
#[local] Hint Resolve keeps_heap_Update : heap_frame.

Lemma keeps_heap_scanAsset sel : spec.keeps_heap (postgres.scanAsset sel).
Proof. unfold postgres.scanAsset. frame. Qed.
#[local] Hint Resolve keeps_heap_scanAsset : heap_frame.

Lemma keeps_heap_FindByIP ip : spec.keeps_heap (postgres.FindByIP ip).
Proof. unfold postgres.FindByIP. frame. Qed.
#[local] Hint Resolve keeps_heap_FindByIP : heap_frame.

Lemma keeps_heap_FindByFQDN fqdn : spec.keeps_heap (postgres.FindByFQDN fqdn).
Proof. unfold postgres.FindByFQDN. frame. Qed.
#[local] Hint Resolve keeps_heap_FindByFQDN : heap_frame.

Lemma keeps_heap_CreateChangeEvent e : spec.keeps_heap (postgres.CreateChangeEvent e).
Proof. unfold postgres.CreateChangeEvent. frame. Qed.
#[local] Hint Resolve keeps_heap_CreateChangeEvent : heap_frame.

Lemma keeps_heap_UpsertNode a : spec.keeps_heap (neo4j.UpsertNode a).
Proof. unfold neo4j.UpsertNode. frame. Qed.
#[local] Hint Resolve keeps_heap_UpsertNode : heap_frame.

Lemma keeps_heap_UpsertRelationship rel : spec.keeps_heap (neo4j.UpsertRelationship rel).
Proof. unfold neo4j.UpsertRelationship. frame. Qed.
#[local] Hint Resolve keeps_heap_UpsertRelationship : heap_frame.

Lemma keeps_heap_Publish p subject e : spec.keeps_heap (reconciler.Publish p subject e).
Proof. unfold reconciler.Publish. frame. Qed.
#[local] Hint Resolve keeps_heap_Publish : heap_frame.

Lemma keeps_heap_publishEvent r action a diff :
  spec.keeps_heap (reconciler.publishEvent r action a diff).
Proof. unfold reconciler.publishEvent, reconciler.NewChangeEvent. frame. Qed.
#[local] Hint Resolve keeps_heap_publishEvent : heap_frame.

Lemma keeps_heap_upsertNode r a msg : spec.keeps_heap (reconciler.upsertNode r a msg).
Proof. unfold reconciler.upsertNode. frame. Qed.
#[local] Hint Resolve keeps_heap_upsertNode : heap_frame.

Lemma keeps_heap_matchByIP ips : spec.keeps_heap (reconciler.matchByIP ips).
Proof.
  induction ips as [|ip rest IH]; cbn [reconciler.matchByIP]; [frame|].
  apply keeps_heap_bind; [frame|].
  intros [[|m [|m' ms]]|msg]; frame; exact IH.
Qed.
#[local] Hint Resolve keeps_heap_matchByIP : heap_frame.

Lemma keeps_heap_findExisting incoming : spec.keeps_heap (reconciler.findExisting incoming).
Proof.
  unfold reconciler.findExisting, postgres.GetByExternalID, reconciler.matchByFQDN.
  frame.
Qed.
#[local] Hint Resolve keeps_heap_findExisting : heap_frame.

Lemma keeps_heap_reconcileAsset r incoming : spec.keeps_heap (reconciler.reconcileAsset r incoming).
Proof.
  unfold reconciler.reconcileAsset, reconciler.insertNew, reconciler.updateExisting.
  frame.
Qed.
#[local] Hint Resolve keeps_heap_reconcileAsset : heap_frame.

Lemma keeps_heap_reconcileAssets r l : spec.keeps_heap (reconciler.reconcileAssets r l).
Proof.
  induction l as [|a rest IH]; cbn [reconciler.reconcileAssets]; frame; exact IH.
Qed.
#[local] Hint Resolve keeps_heap_reconcileAssets : heap_frame.

Lemma keeps_heap_reconcileRelationships r l :
  spec.keeps_heap (reconciler.reconcileRelationships r l).
Proof.
  induction l as [|a rest IH]; cbn [reconciler.reconcileRelationships];
    unfold reconciler.reconcileRelationship; frame; exact IH.
Qed.
#[local] Hint Resolve keeps_heap_reconcileRelationships : heap_frame.

Lemma keeps_heap_Reconcile r res : spec.keeps_heap (reconciler.Reconcile r res).
Proof. unfold reconciler.Reconcile. frame. Qed.
#[local] Hint Resolve keeps_heap_Reconcile : heap_frame.

Lemma keeps_heap_runCollector s c cfg : spec.keeps_heap (runCollector s c cfg).
Proof. unfold runCollector, collect. frame. Qed.
#[local] Hint Resolve keeps_heap_runCollector : heap_frame.

Lemma keeps_heap_loop s c cfg signals : spec.keeps_heap (loop s c cfg signals).
Proof.
  induction signals as [|[|] rest IH]; cbn [loop]; frame; exact IH.
Qed.

Lemma loop_waits s c cfg signals :
  Done ∉ signals -> forall w, (loop s c cfg signals w).1 = Waiting.
Proof.
  induction signals as [|[|] rest IH]; intros Hnd w.
  - reflexivity.
  - exfalso. apply Hnd. left.
  - cbn [loop]. unfold bind. destruct (runCollector s c cfg w) as [u w1].
    apply IH. intros Hin. apply Hnd. right. exact Hin.
Qed.

(** C7 as stated fails: after a failed collection the status of the
    collector still has an empty [last_error]. *)
Lemma failed_run_leaves_last_error_empty :
  let w := (runCollector worker broken_collector nmap_config one_collector.2).2 in
  logs w = [(Info, "registered collector"); (Info, "running collector");
            (Error, "collector failed")]
  /\ CollectorStatus.LastError <$> collector.status_of one_collector.1 "nmap" w = Some "".
Proof. vm_compute. split; reflexivity. Qed.

(** C7, amended. A failed [Collect] is logged at error level and nothing
    else happens in that run; [Reconcile] never returns an error to the
    scheduler; whatever the runs do, the worker that has not been told to
    stop is waiting for the next tick once the ticks so far are served; no
    run changes any collector status, [last_error] included. *)
Theorem collection_errors_are_logged_and_survived
    (s : Scheduler) (c : collector.Collector) (cfg : CollectorConfig.t) :
  (forall w msg,
     collector.Collect c cfg (calls w) = Err msg ->
     runCollector s c cfg w =
       (tt, set_logs (logs w ++ [(Info, "running collector"); (Error, "collector failed")])
                     (set_calls (S (calls w)) w)))
  /\ (forall r res w, (reconciler.Reconcile r res w).1 = Ok tt)
  /\ (forall signals w,
        Done ∉ signals -> (runCollectorLoop s c cfg signals w).1 = Waiting)
  /\ (forall signals w r name,
        collector.status_of r name (runCollectorLoop s c cfg signals w).2
        = collector.status_of r name w).
Proof.
  split; [|split; [|split]].
  - intros w msg Hc. unfold runCollector, collect, bind, log. cbn. rewrite Hc. cbn.
    f_equal. unfold set_logs, set_calls; cbn. rewrite <- app_assoc. reflexivity.
  - intros r res w. unfold reconciler.Reconcile, bind, ret.
    destruct (reconciler.reconcileAssets r (collector.Assets res) w) as [u w1].
    destruct (reconciler.reconcileRelationships r (collector.Relationships res) w1).
    reflexivity.
  - intros signals w Hnd. unfold runCollectorLoop, bind.
    destruct (runCollector s c cfg w) as [u w1]. apply loop_waits. exact Hnd.
  - intros signals w r name. unfold collector.status_of, collector.load.
    assert (H : spec.keeps_heap (runCollectorLoop s c cfg signals)).
    { unfold runCollectorLoop. apply keeps_heap_bind; [apply keeps_heap_runCollector|].
      intros _. apply keeps_heap_loop. }
    rewrite (H w). reflexivity.
Qed.

Lemma collection_errors_are_logged_and_survived_witness :
  (runCollector worker broken_collector nmap_config one_collector.2).1 = tt
  /\ (runCollectorLoop worker broken_collector nmap_config [Tick; Tick; Tick]
        one_collector.2).1 = Waiting.
Proof.
  split.
  - rewrite (proj1 (collection_errors_are_logged_and_survived
                      worker broken_collector nmap_config)
               one_collector.2 "connection refused" eq_refl).
    reflexivity.
  - apply (proj1 (proj2 (proj2 (collection_errors_are_logged_and_survived
                                  worker broken_collector nmap_config)))).
    intros H. repeat (apply elem_of_cons in H as [H|H]; [discriminate|]).
    apply elem_of_nil in H. exact H.
Defined.

End SchedulerProps.

(* ================================================================== *)
(** * Properties of the notifier *)
(* ================================================================== *)

Module NotifierProps.
Import model.
Import notifier.

Lemma existsb_eq_elem_of (x : string) (l : list string) :
  existsb (fun a => bool_decide (a = x)) l = true <-> x ∈ l.
Proof.
  rewrite existsb_exists. split.
  - intros (a & Hin & Ha). apply bool_decide_eq_true in Ha. subst a.
    apply list_elem_of_In. exact Hin.
  - intros Hin. exists x. split; [apply list_elem_of_In, Hin|].
    apply bool_decide_eq_true. reflexivity.
Qed.

Lemma matches_iff rule event :
  matches rule event = true <-> spec.rule_matches rule event.
Proof.
  unfold matches, spec.rule_matches, ChangeAction.
  lazymatch goal with |- context [negb ?b] => destruct b eqn:Ea end; cbn.
  2: { split; [discriminate|]. intros [H _].
       apply (proj2 (existsb_eq_elem_of _ _)) in H. congruence. }
  apply (proj1 (existsb_eq_elem_of _ _)) in Ea.
  destruct (Sources rule) as [|s0 rest] eqn:Hsrc; cbn [length Nat.ltb Nat.leb].
  { split; [|reflexivity]. intros _. split; [exact Ea | left; reflexivity]. }
  lazymatch goal with |- context [negb ?b] => destruct b eqn:Es end; cbn.
  - split; [|reflexivity]. intros _.
    split; [exact Ea | right; apply (proj1 (existsb_eq_elem_of _ _)), Es].
  - split; [discriminate|]. intros [_ [H|H]]; [discriminate|].
    apply (proj2 (existsb_eq_elem_of _ _)) in H. congruence.
Qed.



End NotifierProps.

(* ================================================================== *)
(** * Properties of the HTTP surface and the stores behind it *)
(* ================================================================== *)

Module ApiProps.
Import model.
Import api.

(** C5 as stated fails: a dependency traversal requested with depth 11 is
    executed, eleven hops deep, and answered with 200. *)
Lemma depth_eleven_is_executed :
  let resp := (handleGetDependencyGraph parse_decimal graph_server
                 (depth_request "0" "11") (chain_world 12)).1 in
  status resp = StatusOK
  /\ match body resp with
     | GraphBody found rels => length found = 12%nat /\ length rels = 11%nat
     | _ => False
     end.
Proof. vm_compute. repeat split; reflexivity. Qed.

(** What both graph handlers answer when the id parses, the graph store is
    there and the transport works. *)
Lemma handleGraph_run uuid_Parse traverse_dir logmsg errmsg srv req w id st :
  uuid_Parse (id_param req) = Some id ->
  neoStore srv = Some st ->
  faults w (calls w) = None ->
  (handleGraph uuid_Parse (fun a d => neo4j.traverseGraph a d traverse_dir)
               logmsg errmsg srv req w).1
  = let d := Atoi (Query_Get req "depth") in
    let depth := if d <=? 0 then 3 else d in
    let '(found, rels) :=
      neo4j.run_traversal (nodes w) (edges w) id depth
                          (bool_decide (traverse_dir = "outgoing")) in
    mkResponse StatusOK (GraphBody found rels).
Proof.
  intros Hid Hst Hf. unfold handleGraph. rewrite Hid, Hst.
  unfold neo4j.traverseGraph. unfold bind, io, ret. rewrite Hf. cbn.
  assert (Hd : forall d, neo4j.traverse_depth (if d <=? 0 then 3 else d)
                         = if d <=? 0 then 3 else d).
  { intros d. unfold neo4j.traverse_depth.
    destruct (d <=? 0) eqn:E; [reflexivity|]. rewrite E. reflexivity. }
  rewrite Hd.
  destruct (neo4j.run_traversal _ _ _ _ _). reflexivity.
Qed.

(** C5, amended. A requested depth of zero or less is replaced by 3, in
    the handlers and again in [traverseGraph]; any positive depth, above 10
    or not, is used as it is: the pattern carries it and the traversal is
    run with it, and the handlers answer 200. *)
Theorem depth_defaults_to_three_and_is_not_capped :
  (forall depth, depth <= 0 -> neo4j.traverse_depth depth = 3)
  /\ (forall depth, 0 < depth -> neo4j.traverse_depth depth = depth)
  /\ (forall depth id direction w,
        (neo4j.traverseGraph id depth direction w).1.2
        = neo4j.pattern (neo4j.traverse_depth depth) direction)
  /\ (forall uuid_Parse srv req w id st,
        uuid_Parse (id_param req) = Some id ->
        neoStore srv = Some st ->
        faults w (calls w) = None ->
        let d := Atoi (Query_Get req "depth") in
        let depth := if d <=? 0 then 3 else d in
        (handleGetDependencyGraph uuid_Parse srv req w).1
          = (let '(found, rels) :=
               neo4j.run_traversal (nodes w) (edges w) id depth true in
             mkResponse StatusOK (GraphBody found rels))
        /\ (handleGetImpactGraph uuid_Parse srv req w).1
          = (let '(found, rels) :=
               neo4j.run_traversal (nodes w) (edges w) id depth false in
             mkResponse StatusOK (GraphBody found rels))).
Proof.
  split; [|split; [|split]].
  - intros depth H. unfold neo4j.traverse_depth.
    destruct (depth <=? 0) eqn:E; [reflexivity | lia].
  - intros depth H. unfold neo4j.traverse_depth.
    destruct (depth <=? 0) eqn:E; [lia | reflexivity].
  - intros depth id direction w. unfold neo4j.traverseGraph, bind, io, ret.
    destruct (faults w (calls w)); reflexivity.
  - intros uuid_Parse srv req w id st Hid Hst Hf. cbn zeta. split.
    + apply (handleGraph_run uuid_Parse "outgoing" _ _ srv req w id st Hid Hst Hf).
    + apply (handleGraph_run uuid_Parse "incoming" _ _ srv req w id st Hid Hst Hf).
Qed.

Lemma depth_defaults_to_three_and_is_not_capped_witness :
  neo4j.traverse_depth (-4) = 3
  /\ neo4j.traverse_depth 11 = 11
  /\ (handleGetDependencyGraph parse_decimal graph_server (depth_request "0" "0")
        (chain_world 5)).1
     = (let '(found, rels) :=
          neo4j.run_traversal (nodes (chain_world 5)) (edges (chain_world 5)) 0%N 3 true in
        mkResponse StatusOK (GraphBody found rels)).
Proof.
  pose proof depth_defaults_to_three_and_is_not_capped as (Hle & Hgt & _ & Hh).
  split; [apply Hle; lia|]. split; [apply Hgt; lia|].
  apply (Hh parse_decimal graph_server (depth_request "0" "0") (chain_world 5)
            0%N neo4j.store); reflexivity.
Defined.

Example dependency_traversal :
  neo4j.run_traversal (nodes (chain_world 3)) (edges (chain_world 3)) 0%N 2 true
  = (map (fun i => neo4j.nodeToAsset i (mkNode "" "vm" "vmware" "active")) [0; 1; 2]%N,
     map neo4j.neoRelToRelationship
         [mkEdge 0%N 1%N "RUNS_ON" 100%N "vmware" "";
          mkEdge 1%N 2%N "RUNS_ON" 101%N "vmware" ""])
  /\ neo4j.run_traversal (nodes (chain_world 3)) (edges (chain_world 3)) 3%N 2 false
  = (map (fun i => neo4j.nodeToAsset i (mkNode "" "vm" "vmware" "active")) [3; 2; 1]%N,
     map neo4j.neoRelToRelationship
         [mkEdge 2%N 3%N "RUNS_ON" 102%N "vmware" "";
          mkEdge 1%N 2%N "RUNS_ON" 101%N "vmware" ""]).
Proof. vm_compute. split; reflexivity. Qed.




End ApiProps.


(* ================================================================== *)
(** * How every store call runs *)
(* ================================================================== *)

Module Runs.
Import model.

Lemma Create_run a w :
  postgres.Create a w =
  (match faults w (calls w) with
   | Some msg => Err ("inserting asset: " +:+ msg)
   | None =>
       if postgres.collides a (assets w)
       then Err "inserting asset: duplicate key value violates unique constraint"
       else if negb (postgres.valid_status (Asset.Status a))
       then Err "inserting asset: invalid input value for enum asset_status"
       else Ok tt
   end,
   match faults w (calls w) with
   | Some _ => set_calls (S (calls w)) w
   | None =>
       if postgres.collides a (assets w) || negb (postgres.valid_status (Asset.Status a))
       then set_calls (S (calls w)) w
       else set_assets (assets w ++ [a]) (set_calls (S (calls w)) w)
   end).
Proof.
  unfold postgres.Create, bind, io, ret, wrap.
  destruct (faults w (calls w)); [reflexivity|]. cbn [assets set_calls].
  destruct (postgres.collides a (assets w)); [reflexivity|].
  destruct (postgres.valid_status (Asset.Status a)); reflexivity.
Qed.

Lemma Update_run a w :
  let stamped := postgres.stamp_UpdatedAt (clock w (ticks w)) a in
  let w1 := set_calls (S (calls w)) (set_ticks (S (ticks w)) w) in
  postgres.Update a w =
  (match faults w (calls w) with
   | Some msg => Err ("updating asset: " +:+ msg)
   | None =>
       if postgres.update_collides stamped (assets w)
       then Err "updating asset: duplicate key value violates unique constraint"
       else if negb (postgres.valid_status (Asset.Status a))
       then Err "updating asset: invalid input value for enum asset_status"
       else Ok tt
   end, stamped,
   match faults w (calls w) with
   | Some _ => w1
   | None =>
       if postgres.update_collides stamped (assets w)
          || negb (postgres.valid_status (Asset.Status a))
       then w1
       else set_assets (postgres.update_rows stamped (assets w)) w1
   end).
Proof.
  unfold postgres.Update, bind, io, ret, wrap, time_Now.
  cbn [assets calls faults set_calls set_ticks].
  destruct (faults w (calls w)); [reflexivity|].
  destruct (postgres.update_collides _ (assets w)); [reflexivity|].
  change (Asset.Status (postgres.stamp_UpdatedAt (clock w (ticks w)) a))
    with (Asset.Status a).
  destruct (postgres.valid_status (Asset.Status a)); reflexivity.
Qed.

Lemma Delete_run id w :
  postgres.Delete id w =
  match faults w (calls w) with
  | Some msg => (Err ("deleting asset: " +:+ msg), set_calls (S (calls w)) w)
  | None =>
      (Ok tt,
       set_change_events (filter (fun e => ChangeEvent.AssetID e <> id) (change_events w))
         (set_assets (filter (fun a => Asset.ID a <> id) (assets w))
            (set_calls (S (calls w)) w)))
  end.
Proof.
  unfold postgres.Delete, bind, io, ret, wrap.
  destruct (faults w (calls w)); reflexivity.
Qed.

Lemma CreateChangeEvent_run e w :
  let refused :=
    existsb (fun e0 => bool_decide (ChangeEvent.ID e0 = ChangeEvent.ID e)) (change_events w)
    || negb (existsb (fun a => bool_decide (Asset.ID a = ChangeEvent.AssetID e)) (assets w)) in
  (postgres.CreateChangeEvent e w).2 =
  match faults w (calls w) with
  | Some _ => set_calls (S (calls w)) w
  | None =>
      if refused then set_calls (S (calls w)) w
      else set_change_events (change_events w ++ [e]) (set_calls (S (calls w)) w)
  end.
Proof.
  unfold postgres.CreateChangeEvent, bind, io, ret, wrap.
  destruct (faults w (calls w)); [reflexivity|].
  cbn [assets change_events set_calls].
  destruct (existsb _ (change_events w)); [reflexivity|]. cbn [orb negb].
  destruct (existsb _ (assets w)); reflexivity.
Qed.

Lemma Publish_run p subject e w :
  reconciler.Publish p subject e w =
  match faults w (calls w) with
  | Some msg => (Err msg, set_calls (S (calls w)) w)
  | None => (Ok tt, set_published (published w ++ [(subject, e)]) (set_calls (S (calls w)) w))
  end.
Proof. unfold reconciler.Publish, io. destruct (faults w (calls w)); reflexivity. Qed.

Lemma UpsertNode_run a w :
  neo4j.UpsertNode a w =
  match faults w (calls w) with
  | Some msg => (Err ("upserting neo4j node: " +:+ msg), set_calls (S (calls w)) w)
  | None =>
      (Ok tt,
       set_nodes (<[Asset.ID a := mkNode (Asset.Name a) (Asset.AssetType a)
                                         (Asset.Source a) (Asset.Status a)]> (nodes w))
                 (set_calls (S (calls w)) w))
  end.
Proof.
  unfold neo4j.UpsertNode, bind, io, ret, wrap.
  destruct (faults w (calls w)); reflexivity.
Qed.

Lemma UpsertRelationship_run rel w :
  neo4j.UpsertRelationship rel w =
  match faults w (calls w) with
  | Some msg => (Err ("upserting neo4j relationship: " +:+ msg), set_calls (S (calls w)) w)
  | None =>
      (Ok tt, set_edges (neo4j.merge_edge rel (nodes w) (edges w)) (set_calls (S (calls w)) w))
  end.
Proof.
  unfold neo4j.UpsertRelationship, bind, io, ret, wrap.
  destruct (faults w (calls w)); reflexivity.
Qed.

Lemma DeleteNode_run id w :
  neo4j.DeleteNode id w =
  match faults w (calls w) with
  | Some msg => (Err ("deleting neo4j node: " +:+ msg), set_calls (S (calls w)) w)
  | None =>
      (Ok tt,
       set_edges (neo4j.detach id (nodes w) (edges w)).2
         (set_nodes (neo4j.detach id (nodes w) (edges w)).1 (set_calls (S (calls w)) w)))
  end.
Proof.
  unfold neo4j.DeleteNode, bind, io, ret, wrap.
  destruct (faults w (calls w)); [reflexivity|]. cbn [nodes edges set_calls].
  destruct (neo4j.detach id (nodes w) (edges w)). reflexivity.
Qed.

End Runs.

(* ================================================================== *)
(** * A frame rule for the reconciler *)
(* ================================================================== *)

Module Frame.
Import model.
Import reconciler.

Section Respect.

(** A preorder on worlds that every bookkeeping step respects, and that
    each write of the reconciler [r] respects. *)
Variable R : World -> World -> Prop.
Variable r : Reconciler.
Hypothesis R_refl : forall w, R w w.
Hypothesis R_trans : forall w1 w2 w3, R w1 w2 -> R w2 w3 -> R w1 w3.
Hypothesis R_calls : forall n w, R w (set_calls n w).
Hypothesis R_ticks : forall n w, R w (set_ticks n w).
Hypothesis R_draws : forall n w, R w (set_draws n w).
Hypothesis R_logs : forall l w, R w (set_logs l w).
Hypothesis R_insert : forall a w,
  postgres.collides a (assets w) = false -> R w (set_assets (assets w ++ [a]) w).
Hypothesis R_update : forall a w,
  postgres.update_collides a (assets w) = false ->
  R w (set_assets (postgres.update_rows a (assets w)) w).
Hypothesis R_node : neoStore r <> None -> forall id n w,
  R w (set_nodes (<[id := n]> (nodes w)) w).
Hypothesis R_edge : neoStore r <> None -> forall rel w,
  R w (set_edges (neo4j.merge_edge rel (nodes w) (edges w)) w).
Hypothesis R_event : publisher r <> None -> forall e w,
  R w (set_change_events (change_events w ++ [e]) w).
Hypothesis R_publish : publisher r <> None -> forall x w,
  R w (set_published (published w ++ [x]) w).

Lemma respects_ret {A} (a : A) : inv.respects R (ret a).
Proof. intros w. apply R_refl. Qed.

Lemma respects_bind {A B} (m : M A) (k : A -> M B) :
  inv.respects R m -> (forall a, inv.respects R (k a)) -> inv.respects R (bind m k).
Proof.
  intros Hm Hk w. unfold bind. destruct (m w) as [a w1] eqn:E.
  apply R_trans with w1; [|apply Hk]. specialize (Hm w). rewrite E in Hm. exact Hm.
Qed.

Lemma respects_log lvl msg : inv.respects R (log lvl msg).
Proof. intros w. apply R_logs. Qed.

Lemma respects_time_Now : inv.respects R time_Now.
Proof. intros w. apply R_ticks. Qed.

Lemma respects_uuid_New : inv.respects R uuid_New.
Proof. intros w. apply R_draws. Qed.

Lemma respects_query {A} (q : World -> A) (ctx : string) :
  inv.respects R
    (bind (io (fun w => (Ok (q w), w)))
          (fun x => ret (match x with Err e => wrap ctx e | Ok a => Ok a end))).
Proof.
  intros w. unfold bind, io, ret. destruct (faults w (calls w)); apply R_calls.
Qed.

Lemma respects_scanAsset sel : inv.respects R (postgres.scanAsset sel).
Proof. apply respects_query. Qed.

Lemma respects_FindByIP ip : inv.respects R (postgres.FindByIP ip).
Proof. apply respects_query. Qed.

Lemma respects_FindByFQDN fqdn : inv.respects R (postgres.FindByFQDN fqdn).
Proof. apply respects_query. Qed.

Lemma respects_Create a : inv.respects R (postgres.Create a).
Proof.
  intros w. rewrite Runs.Create_run. cbn [snd].
  destruct (faults w (calls w)); [apply R_calls|].
  destruct (postgres.collides a (assets w)) eqn:Hc; [apply R_calls|].
  destruct (negb _); [apply R_calls|]. cbn.
  apply R_trans with (set_calls (S (calls w)) w); [apply R_calls|].
  apply (R_insert a (set_calls (S (calls w)) w)). exact Hc.
Qed.

Lemma respects_Update a : inv.respects R (postgres.Update a).
Proof.
  intros w. rewrite Runs.Update_run. cbn [snd].
  set (w1 := set_calls (S (calls w)) (set_ticks (S (ticks w)) w)).
  assert (H1 : R w w1).
  { apply R_trans with (set_ticks (S (ticks w)) w); [apply R_ticks | apply R_calls]. }
  destruct (faults w (calls w)); [exact H1|].
  destruct (postgres.update_collides _ (assets w)) eqn:Hc; [exact H1|].
  destruct (negb _); [exact H1|]. cbn.
  apply R_trans with w1; [exact H1|].
  apply (R_update _ w1). exact Hc.
Qed.

Lemma respects_upsertNode a msg : inv.respects R (upsertNode r a msg).
Proof.
  unfold upsertNode. destruct (neoStore r) as [st|] eqn:Hs; [|apply respects_ret].
  intros w. unfold bind. rewrite Runs.UpsertNode_run.
  destruct (faults w (calls w)); cbn.
  - apply R_trans with (set_calls (S (calls w)) w); [apply R_calls | apply R_logs].
  - apply R_trans with (set_calls (S (calls w)) w); [apply R_calls|].
    apply (R_node ltac:(congruence) _ _ (set_calls (S (calls w)) w)).
Qed.

Lemma respects_publishEvent action a diff : inv.respects R (publishEvent r action a diff).
Proof.
  unfold publishEvent. destruct (publisher r) as [p|] eqn:Hp; [|apply respects_ret].
  apply respects_bind.
  { unfold NewChangeEvent. apply respects_bind; [apply respects_uuid_New|].
    intros ?. apply respects_bind; [apply respects_time_Now|].
    intros ?. apply respects_ret. }
  intros event. apply respects_bind.
  { intros w. rewrite Runs.CreateChangeEvent_run.
    destruct (faults w (calls w)); [apply R_calls|].
    destruct (_ || _); [apply R_calls|].
    apply R_trans with (set_calls (S (calls w)) w); [apply R_calls|].
    apply (R_event ltac:(congruence) _ (set_calls (S (calls w)) w)). }
  intros s. apply respects_bind.
  { destruct s; [apply respects_ret | apply respects_log]. }
  intros _. apply respects_bind.
  { intros w. rewrite Runs.Publish_run.
    destruct (faults w (calls w)); cbn [snd]; [apply R_calls|].
    apply R_trans with (set_calls (S (calls w)) w); [apply R_calls|].
    apply (R_publish ltac:(congruence) _ (set_calls (S (calls w)) w)). }
  intros d. destruct d; [apply respects_ret | apply respects_log].
Qed.

Lemma respects_matchByIP ips : inv.respects R (matchByIP ips).
Proof.
  induction ips as [|ip rest IH]; cbn [matchByIP]; [apply respects_ret|].
  apply respects_bind; [apply respects_FindByIP|].
  intros [[|m [|m' ms]]|msg]; try exact IH; try apply respects_ret.
  apply respects_bind; [apply respects_log | intros _; exact IH].
Qed.

Lemma respects_findExisting incoming : inv.respects R (findExisting incoming).
Proof.
  unfold findExisting, postgres.GetByExternalID.
  apply respects_bind; [apply respects_scanAsset|].
  intros [existing|msg]; [|apply respects_ret].
  apply respects_bind.
  { destruct existing; [apply respects_ret|].
    destruct (0 <? _)%nat; [apply respects_matchByIP | apply respects_ret]. }
  intros existing'. apply respects_bind; [|intros ?; apply respects_ret].
  destruct existing', (Asset.FQDN incoming) as [fqdn|]; try apply respects_ret.
  destruct (bool_decide (fqdn <> "")); [|apply respects_ret].
  unfold matchByFQDN. apply respects_bind; [apply respects_FindByFQDN|].
  intros [[|m [|m' ms]]|msg]; try apply respects_ret.
  apply respects_bind; [apply respects_log | intros _; apply respects_ret].
Qed.

Lemma respects_insertNew now incoming : inv.respects R (insertNew r now incoming).
Proof.
  unfold insertNew. apply respects_bind; [apply respects_Create|].
  intros []; [|apply respects_ret].
  apply respects_bind; [apply respects_upsertNode|].
  intros _. apply respects_bind; [apply respects_publishEvent|].
  intros _. apply respects_ret.
Qed.

Lemma respects_updateExisting now existing incoming :
  inv.respects R (updateExisting r now existing incoming).
Proof.
  unfold updateExisting. destruct (0 <? _)%nat.
  - apply respects_bind; [apply respects_Update|].
    intros [[]?]; [|apply respects_ret].
    apply respects_bind; [apply respects_upsertNode|].
    intros _. apply respects_bind; [apply respects_publishEvent|].
    intros _. apply respects_ret.
  - apply respects_bind; [apply respects_Update|].
    intros [[]?]; apply respects_ret.
Qed.

Lemma respects_reconcileAsset incoming : inv.respects R (reconcileAsset r incoming).
Proof.
  unfold reconcileAsset. apply respects_bind; [apply respects_findExisting|].
  intros [existing|msg]; [|apply respects_ret].
  apply respects_bind; [apply respects_time_Now|].
  intros now. destruct existing;
    [apply respects_updateExisting | apply respects_insertNew].
Qed.

Lemma respects_reconcileAssets l : inv.respects R (reconcileAssets r l).
Proof.
  induction l as [|a rest IH]; cbn [reconcileAssets]; [apply respects_ret|].
  apply respects_bind; [apply respects_reconcileAsset|].
  intros e. apply respects_bind; [|intros _; exact IH].
  destruct e; [apply respects_ret | apply respects_log].
Qed.

Lemma respects_reconcileRelationships l : inv.respects R (reconcileRelationships r l).
Proof.
  induction l as [|rel rest IH]; cbn [reconcileRelationships]; [apply respects_ret|].
  apply respects_bind.
  { unfold reconcileRelationship.
    destruct (neoStore r) as [st|] eqn:Hs; [|apply respects_ret].
    intros w. rewrite Runs.UpsertRelationship_run.
    destruct (faults w (calls w)); cbn [snd]; [apply R_calls|].
    apply R_trans with (set_calls (S (calls w)) w); [apply R_calls|].
    apply (R_edge ltac:(congruence) _ (set_calls (S (calls w)) w)). }
  intros e. apply respects_bind; [|intros _; exact IH].
  destruct e; [apply respects_ret | apply respects_log].
Qed.

Lemma respects_Reconcile res : inv.respects R (Reconcile r res).
Proof.
  unfold Reconcile. apply respects_bind; [apply respects_reconcileAssets|].
  intros _. apply respects_bind; [apply respects_reconcileRelationships|].
  intros _. apply respects_ret.
Qed.

End Respect.

End Frame.

(* ================================================================== *)
(** * Properties of the canonical store *)
(* ================================================================== *)

Module StoreProps.
Import model.

Lemma collides_false a rows :
  postgres.collides a rows = false ->
  (Asset.ID a ∉ map Asset.ID rows) /\ (inv.asset_key a ∉ map inv.asset_key rows).
Proof.
  unfold postgres.collides. induction rows as [|row rest IH]; cbn [existsb map].
  { intros _. split; apply not_elem_of_nil. }
  intros H. apply orb_false_elim in H as [Hrow Hrest].
  apply orb_false_elim in Hrow as [Hid Hkey].
  apply bool_decide_eq_false in Hid.
  destruct (IH Hrest) as [IH1 IH2]. split.
  - rewrite not_elem_of_cons. split; [congruence | exact IH1].
  - rewrite not_elem_of_cons. split; [|exact IH2].
    unfold inv.asset_key. intros E. injection E as E1 E2.
    rewrite (bool_decide_eq_true_2 _ (eq_sym E1)), (bool_decide_eq_true_2 _ (eq_sym E2)) in Hkey.
    discriminate.
Qed.

Lemma keys_unique_insert a rows :
  postgres.collides a rows = false ->
  inv.keys_unique rows -> inv.keys_unique (rows ++ [a]).
Proof.
  intros Hc [Hid Hkey]. destruct (collides_false a rows Hc) as [H1 H2].
  unfold inv.keys_unique. rewrite !map_app. cbn [map]. split.
  - apply NoDup_app. split; [exact Hid|]. split.
    + intros x Hx Hin. apply list_elem_of_singleton in Hin. subst x. contradiction.
    + apply NoDup_singleton.
  - apply NoDup_app. split; [exact Hkey|]. split.
    + intros x Hx Hin. apply list_elem_of_singleton in Hin. subst x. contradiction.
    + apply NoDup_singleton.
Qed.

Lemma update_rows_ids a rows :
  map Asset.ID (postgres.update_rows a rows) = map Asset.ID rows.
Proof.
  unfold postgres.update_rows. induction rows as [|row rest IH]; [reflexivity|].
  cbn [map]. rewrite IH. f_equal. destruct (bool_decide _); reflexivity.
Qed.

Lemma update_rows_absent a rows :
  Asset.ID a ∉ map Asset.ID rows -> postgres.update_rows a rows = rows.
Proof.
  unfold postgres.update_rows. induction rows as [|row rest IH]; [reflexivity|].
  cbn [map]. rewrite not_elem_of_cons. intros [Hne Hrest].
  rewrite IH by exact Hrest. rewrite bool_decide_eq_false_2 by congruence. reflexivity.
Qed.

Lemma update_collides_false a rows :
  postgres.update_collides a rows = false ->
  Asset.ID a ∈ map Asset.ID rows ->
  forall row, row ∈ rows -> Asset.ID row <> Asset.ID a ->
              inv.asset_key row <> inv.asset_key a.
Proof.
  unfold postgres.update_collides. intros H Hin row Hrow Hne.
  apply andb_false_iff in H as [H|H].
  - exfalso. apply list_elem_of_fmap in Hin as (r0 & Hid & Hr0).
    assert (existsb (fun r => bool_decide (Asset.ID r = Asset.ID a)) rows = true).
    { apply existsb_exists. exists r0. split; [apply list_elem_of_In, Hr0|].
      apply bool_decide_eq_true. congruence. }
    congruence.
  - intros E. unfold inv.asset_key in E. injection E as E1 E2.
    assert (existsb (fun r => negb (bool_decide (Asset.ID r = Asset.ID a))
                              && bool_decide (Asset.Source r = Asset.Source a)
                              && bool_decide (Asset.ExternalID r = Asset.ExternalID a))
                    rows = true).
    { apply existsb_exists. exists row. split; [apply list_elem_of_In, Hrow|].
      rewrite (bool_decide_eq_false_2 _ Hne), (bool_decide_eq_true_2 _ E1),
        (bool_decide_eq_true_2 _ E2). reflexivity. }
    congruence.
Qed.

Lemma update_rows_keys a rows :
  NoDup (map Asset.ID rows) ->
  (forall row, row ∈ rows -> Asset.ID row <> Asset.ID a ->
               inv.asset_key row <> inv.asset_key a) ->
  NoDup (map inv.asset_key rows) ->
  NoDup (map inv.asset_key (postgres.update_rows a rows)).
Proof.
  induction rows as [|row rest IH]; intros Hid Hother Hkey; [constructor|].
  cbn [map] in Hid, Hkey. apply NoDup_cons in Hid as [Hid1 Hid2].
  apply NoDup_cons in Hkey as [Hkey1 Hkey2].
  unfold postgres.update_rows. cbn [map]. fold (postgres.update_rows a rest).
  destruct (decide (Asset.ID row = Asset.ID a)) as [E|E].
  - rewrite (bool_decide_eq_true_2 _ E).
    rewrite update_rows_absent by (rewrite <- E; exact Hid1).
    apply NoDup_cons. split; [|exact Hkey2].
    intros Hin. apply list_elem_of_fmap in Hin as (r0 & Hk & Hr0).
    apply (Hother r0); [right; exact Hr0 | | ].
    + intros E0. apply Hid1. rewrite E, <- E0. apply list_elem_of_fmap.
      exists r0. split; [reflexivity | exact Hr0].
    + symmetry. exact Hk.
  - rewrite (bool_decide_eq_false_2 _ E).
    apply NoDup_cons. split.
    + intros Hin. apply list_elem_of_fmap in Hin as (r0 & Hk & Hr0).
      unfold postgres.update_rows in Hr0. apply list_elem_of_fmap in Hr0 as (r1 & Hr1 & Hin1).
      destruct (bool_decide (Asset.ID r1 = Asset.ID a)); subst r0.
      * apply (Hother row); [left | exact E | exact Hk].
      * apply Hkey1. rewrite Hk. apply list_elem_of_fmap.
        exists r1. split; [reflexivity | exact Hin1].
    + apply IH; [exact Hid2 | | exact Hkey2].
      intros r0 Hr0. apply Hother. right. exact Hr0.
Qed.

Lemma keys_unique_update a rows :
  postgres.update_collides a rows = false ->
  inv.keys_unique rows -> inv.keys_unique (postgres.update_rows a rows).
Proof.
  intros Hc [Hid Hkey]. split; [rewrite update_rows_ids; exact Hid|].
  destruct (decide (Asset.ID a ∈ map Asset.ID rows)) as [Hin|Hout].
  - apply update_rows_keys; [exact Hid | | exact Hkey].
    apply update_collides_false; assumption.
  - rewrite update_rows_absent by exact Hout. exact Hkey.
Qed.

Lemma keys_unique_filter (P : Asset.t -> Prop) `{forall a, Decision (P a)} rows :
  inv.keys_unique rows -> inv.keys_unique (filter P rows).
Proof.
  intros [Hid Hkey]. split.
  - apply (sublist_NoDup _ (map Asset.ID rows)); [exact Hid|].
    apply (fmap_sublist Asset.ID), sublist_filter.
  - apply (sublist_NoDup _ (map inv.asset_key rows)); [exact Hkey|].
    apply (fmap_sublist inv.asset_key), sublist_filter.
Qed.

(** ** Pages of a sorted query *)

Lemma strongly_sorted_lookup {A} (R : relation A) (l : list A) :
  (forall a, R a a) -> StronglySorted R l ->
  forall i j a b, (i <= j)%nat -> l !! i = Some a -> l !! j = Some b -> R a b.
Proof.
  intros Hrefl Hs. induction Hs as [|x l Hs IH Hall]; intros i j a b Hij Ha Hb.
  { rewrite lookup_nil in Ha. discriminate. }
  destruct i as [|i], j as [|j]; cbn in Ha, Hb.
  - injection Ha as <-. injection Hb as <-. apply Hrefl.
  - injection Ha as <-. rewrite Forall_forall in Hall. apply Hall.
    eapply list_elem_of_lookup_2. exact Hb.
  - lia.
  - apply (IH i j); [lia | exact Ha | exact Hb].
Qed.

Lemma paged_descending {A} (key : A -> Z) (R : relation A)
    `{forall x y, Decision (R x y)} (n m : nat) (l : list A) :
  (forall a b, R a b <-> key b <= key a) ->
  inv.descending key (take n (drop m (merge_sort R l))).
Proof.
  intros HR i j a b Hij Ha Hb.
  apply lookup_take_Some in Ha as [Ha _]. apply lookup_take_Some in Hb as [Hb _].
  rewrite lookup_drop in Ha, Hb.
  apply HR.
  apply (strongly_sorted_lookup R (merge_sort R l)) with (i := (m + i)%nat) (j := (m + j)%nat);
    [ | | lia | exact Ha | exact Hb].
  - intros x. apply HR. lia.
  - apply StronglySorted_merge_sort.
    + intros x y z Hxy Hyz. apply HR. apply HR in Hxy, Hyz. lia.
    + intros x y. destruct (decide (key y <= key x)); [left | right]; apply HR; lia.
Qed.

Lemma paged_elem_of {A} (R : relation A) `{forall x y, Decision (R x y)}
    (n m : nat) (l : list A) (x : A) :
  x ∈ take n (drop m (merge_sort R l)) -> x ∈ l.
Proof.
  intros Hx. apply elem_of_take in Hx as (i & Hi & _).
  rewrite lookup_drop in Hi. apply list_elem_of_lookup_2 in Hi.
  rewrite merge_sort_Permutation in Hi. exact Hi.
Qed.

(** ** Insert and look up *)

Lemma find_app_last {A} (sel : A -> bool) (l : list A) (x : A) :
  (forall y, y ∈ l -> sel y = false) -> sel x = true -> find sel (l ++ [x]) = Some x.
Proof.
  induction l as [|y l IH]; intros Hl Hx; cbn.
  - rewrite Hx. reflexivity.
  - rewrite (Hl y) by left. apply IH; [|exact Hx]. intros z Hz. apply Hl. right. exact Hz.
Qed.



(** X2. [Create] refuses an asset whose id or whose (source, external_id)
    is already in the table: it returns an error and the table stays as it
    was. *)
Theorem Create_refuses_duplicates (a row : Asset.t) (w : World) :
  row ∈ assets w ->
  Asset.ID row = Asset.ID a \/ inv.asset_key row = inv.asset_key a ->
  (exists msg, (postgres.Create a w).1 = Err msg)
  /\ assets (postgres.Create a w).2 = assets w.
Proof.
  intros Hrow Hsame. rewrite Runs.Create_run. cbn [fst snd].
  destruct (faults w (calls w)) as [msg|]; [split; [eexists|]; reflexivity|].
  assert (Hc : postgres.collides a (assets w) = true).
  { unfold postgres.collides. apply existsb_exists. exists row.
    split; [apply list_elem_of_In, Hrow|].
    destruct Hsame as [E|E].
    - rewrite (bool_decide_eq_true_2 _ E). reflexivity.
    - unfold inv.asset_key in E. injection E as E1 E2.
      rewrite (bool_decide_eq_true_2 _ E1), (bool_decide_eq_true_2 _ E2).
      apply orb_true_r. }
  rewrite Hc. split; [eexists|]; reflexivity.
Qed.

Lemma Create_refuses_duplicates_witness :
  assets (postgres.Create nmap_host after_first_sighting).2 = assets after_first_sighting.
Proof.
  apply (Create_refuses_duplicates nmap_host
           (Asset.mk 7%N "10.0.0.5" "nmap" "host" "" None ["10.0.0.5"] ""
                     100 100 "active" 100 100) after_first_sighting).
  - vm_compute. left.
  - left. reflexivity.
Defined.

(** X3. [Create], [Update] and [Delete] keep the primary key and the
    (source, external_id) index unique, whether they succeed or fail. *)
Theorem store_writes_keep_keys_unique (a : Asset.t) (id : UUID) (w : World) :
  inv.keys_unique (assets w) ->
  inv.keys_unique (assets (postgres.Create a w).2)
  /\ inv.keys_unique (assets (postgres.Update a w).2)
  /\ inv.keys_unique (assets (postgres.Delete id w).2).
Proof.
  intros Hu. split; [|split].
  - rewrite Runs.Create_run. cbn [snd].
    destruct (faults w (calls w)); [exact Hu|].
    destruct (postgres.collides a (assets w)) eqn:Hc; [exact Hu|].
    destruct (negb _); [exact Hu|]. cbn. apply keys_unique_insert; assumption.
  - rewrite Runs.Update_run. cbn [snd].
    destruct (faults w (calls w)); [exact Hu|].
    destruct (postgres.update_collides _ (assets w)) eqn:Hc; [exact Hu|].
    destruct (negb _); [exact Hu|]. cbn. apply keys_unique_update; assumption.
  - rewrite Runs.Delete_run.
    destruct (faults w (calls w)); [exact Hu|]. cbn.
    apply keys_unique_filter. exact Hu.
Qed.

Lemma store_writes_keep_keys_unique_witness :
  inv.keys_unique (assets (postgres.Update nmap_host_named after_first_sighting).2).
Proof.
  apply (store_writes_keep_keys_unique nmap_host_named 7%N after_first_sighting).
  vm_compute. split; repeat constructor; apply not_elem_of_nil.
Defined.

Lemma update_rows_first_seen a rows :
  map Asset.FirstSeen (postgres.update_rows a rows) = map Asset.FirstSeen rows
  /\ map Asset.CreatedAt (postgres.update_rows a rows) = map Asset.CreatedAt rows.
Proof.
  unfold postgres.update_rows. induction rows as [|row rest [IH1 IH2]]; [split; reflexivity|].
  cbn [map]. rewrite IH1, IH2. destruct (bool_decide _); split; reflexivity.
Qed.

(** X4. [Update] never adds, removes or reorders rows and never changes
    an id, a [first_seen] or a [created_at]; an update of an id that is not
    in the table changes no row and still reports success. *)
Theorem Update_keeps_rows_in_place (a : Asset.t) (w : World) :
  let w' := (postgres.Update a w).2 in
  map Asset.ID (assets w') = map Asset.ID (assets w)
  /\ map Asset.FirstSeen (assets w') = map Asset.FirstSeen (assets w)
  /\ map Asset.CreatedAt (assets w') = map Asset.CreatedAt (assets w)
  /\ (Asset.ID a ∉ map Asset.ID (assets w) ->
      assets w' = assets w
      /\ (faults w (calls w) = None -> postgres.valid_status (Asset.Status a) = true ->
          (postgres.Update a w).1.1 = Ok tt)).
Proof.
  cbn zeta. rewrite Runs.Update_run. cbn [fst snd].
  set (stamped := postgres.stamp_UpdatedAt (clock w (ticks w)) a).
  assert (Hsame : forall b : bool,
            map Asset.ID (assets (if b then set_calls (S (calls w)) (set_ticks (S (ticks w)) w)
                                  else set_assets (postgres.update_rows stamped (assets w))
                                         (set_calls (S (calls w)) (set_ticks (S (ticks w)) w))))
            = map Asset.ID (assets w)
            /\ map Asset.FirstSeen (assets (if b then set_calls (S (calls w)) (set_ticks (S (ticks w)) w)
                                  else set_assets (postgres.update_rows stamped (assets w))
                                         (set_calls (S (calls w)) (set_ticks (S (ticks w)) w))))
            = map Asset.FirstSeen (assets w)
            /\ map Asset.CreatedAt (assets (if b then set_calls (S (calls w)) (set_ticks (S (ticks w)) w)
                                  else set_assets (postgres.update_rows stamped (assets w))
                                         (set_calls (S (calls w)) (set_ticks (S (ticks w)) w))))
            = map Asset.CreatedAt (assets w)).
  { intros [|]; cbn; [repeat split; reflexivity|].
    rewrite update_rows_ids. destruct (update_rows_first_seen stamped (assets w)) as [-> ->].
    repeat split; reflexivity. }
  destruct (faults w (calls w)) as [msg|] eqn:Hf.
  { repeat split; try reflexivity. intros; discriminate. }
  destruct (Hsame (postgres.update_collides stamped (assets w)
                   || negb (postgres.valid_status (Asset.Status a)))) as (H1 & H2 & H3).
  split; [exact H1|]. split; [exact H2|]. split; [exact H3|].
  intros Hout. split.
  - destruct (_ || _); [reflexivity|]. cbn. apply update_rows_absent. exact Hout.
  - intros _ Hvalid. rewrite Hvalid. cbn [negb].
    assert (Hc : postgres.update_collides stamped (assets w) = false).
    { unfold postgres.update_collides. apply andb_false_iff. left.
      apply not_true_iff_false. intros Hex. apply existsb_exists in Hex as (r0 & Hr0 & Hid).
      apply bool_decide_eq_true in Hid. apply Hout.
      apply list_elem_of_fmap. exists r0. split; [symmetry; exact Hid|].
      apply list_elem_of_In. exact Hr0. }
    rewrite Hc. reflexivity.
Qed.

Lemma Update_keeps_rows_in_place_witness :
  assets (postgres.Update vmware_vm after_first_sighting).2 = assets after_first_sighting.
Proof.
  apply (Update_keeps_rows_in_place vmware_vm after_first_sighting).
  vm_compute. intros H. apply list_elem_of_singleton in H. discriminate H.
Defined.

Lemma find_update_rows a rows row :
  find (fun r => bool_decide (Asset.ID r = Asset.ID a)) rows = Some row ->
  find (fun r => bool_decide (Asset.ID r = Asset.ID a)) (postgres.update_rows a rows)
  = Some (postgres.updated_row a row).
Proof.
  unfold postgres.update_rows. induction rows as [|r0 rest IH]; [discriminate|].
  cbn [find map]. destruct (bool_decide (Asset.ID r0 = Asset.ID a)) eqn:E.
  - intros H. injection H as <-. cbn. rewrite E. reflexivity.
  - rewrite E. exact IH.
Qed.



(** X6. [Delete] reports success whether or not the id is in the table;
    afterwards no row has the id, the other rows are there in their order,
    the change events of the asset are gone with it (the cascade) and the
    others are kept, and [GetByID] finds nothing. *)
Theorem Delete_removes_asset_and_history (id : UUID) (w : World) :
  faults w (calls w) = None ->
  let w' := (postgres.Delete id w).2 in
  (postgres.Delete id w).1 = Ok tt
  /\ assets w' = filter (fun a => Asset.ID a <> id) (assets w)
  /\ change_events w' = filter (fun e => ChangeEvent.AssetID e <> id) (change_events w)
  /\ (forall e, e ∈ change_events w' -> ChangeEvent.AssetID e <> id)
  /\ (faults w (S (calls w)) = None -> (postgres.GetByID id w').1 = Ok None).
Proof.
  intros Hf. cbn zeta. rewrite Runs.Delete_run, Hf. cbn [fst snd].
  split; [reflexivity|]. split; [reflexivity|]. split; [reflexivity|]. split.
  - intros e He. cbn in He. apply list_elem_of_filter in He as [He _]. exact He.
  - intros Hnext. unfold postgres.GetByID. rewrite ReconcilerProps.scanAsset_run.
    cbn [fst faults calls assets set_assets set_calls set_change_events].
    rewrite Hnext. f_equal.
    destruct (find _ _) as [row|] eqn:E; [|reflexivity].
    apply find_some in E as [Hin Hid]. apply bool_decide_eq_true in Hid.
    apply list_elem_of_In, list_elem_of_filter in Hin as [Hne _]. contradiction.
Qed.

Lemma Delete_removes_asset_and_history_witness :
  (postgres.GetByID 7%N (postgres.Delete 7%N after_first_sighting).2).1 = Ok None
  /\ change_events (postgres.Delete 7%N after_first_sighting).2 = [].
Proof.
  pose proof (Delete_removes_asset_and_history 7%N after_first_sighting eq_refl)
    as (_ & _ & Hev & _ & Hget).
  split; [apply Hget; reflexivity | rewrite Hev; vm_compute; reflexivity].
Defined.

Lemma length_paged {A} (R : relation A) `{forall x y, Decision (R x y)}
    (n m : nat) (l : list A) :
  (length (take n (drop m (merge_sort R l))) <= n)%nat
  /\ (length (take n (drop m (merge_sort R l))) <= length l)%nat.
Proof.
  rewrite length_take, length_drop.
  rewrite (Permutation_length (merge_sort_Permutation R l)). lia.
Qed.

(** X7. A page [List] returns has at most the effective limit of rows,
    never more than the total it reports; the total counts every row that
    matches the filter; every returned row is a row of the table that
    matches the filter; the rows come newest [updated_at] first; and the
    query changes no table. *)
Theorem List_returns_a_sorted_page (ILIKE : string -> string -> bool)
    (f : store.AssetFilter.t) (w : World) (rows : list Asset.t) (total : Z) :
  (postgres.List ILIKE f w).1 = Ok (rows, total) ->
  total = Z.of_nat (length (filter (fun a => postgres.where_ ILIKE f a = true) (assets w)))
  /\ (length rows <= Z.to_nat (postgres.List_limit f))%nat
  /\ Z.of_nat (length rows) <= total
  /\ (forall a, a ∈ rows -> a ∈ assets w /\ postgres.where_ ILIKE f a = true)
  /\ inv.descending Asset.UpdatedAt rows
  /\ assets (postgres.List ILIKE f w).2 = assets w.
Proof.
  unfold postgres.List, bind, io, ret, wrap.
  destruct (faults w (calls w)); [discriminate|].
  cbn [faults calls assets set_calls].
  destruct (faults w (S (calls w))); [discriminate|].
  cbn [fst snd assets set_calls]. intros H. injection H as <- <-.
  unfold postgres.page.
  set (matching := filter (fun a => postgres.where_ ILIKE f a = true) (assets w)).
  destruct (@length_paged _ postgres.newer_first postgres.newer_first_dec (Z.to_nat (postgres.List_limit f))
              (Z.to_nat (postgres.List_offset f)) matching) as [Hl1 Hl2].
  split; [reflexivity|]. split; [exact Hl1|]. split; [lia|]. split; [|split; [|reflexivity]].
  - intros a Ha. apply paged_elem_of in Ha.
    apply list_elem_of_filter in Ha as [Hw Hin]. split; assumption.
  - apply paged_descending. intros a b. reflexivity.
Qed.

Lemma List_returns_a_sorted_page_witness :
  inv.descending Asset.UpdatedAt (take 3 (rev many_assets))
  /\ (length (take 3 (rev many_assets)) <= Z.to_nat (postgres.List_limit (limit_filter 3)))%nat.
Proof.
  pose proof (List_returns_a_sorted_page (fun _ _ => true) (limit_filter 3) crowded_world
                (take 3 (rev many_assets)) 120) as H.
  destruct H as (_ & Hlen & _ & _ & Hdesc & _); [vm_compute; reflexivity|].
  split; assumption.
Defined.



End StoreProps.
(* ================================================================== *)
(** * The graph store *)
(* ================================================================== *)

Module GraphProps.
Import model.

Lemma closed_insert_node id n g es :
  inv.graph_closed g es -> inv.graph_closed (<[id := n]> g) es.
Proof.
  unfold inv.graph_closed. intros H. eapply Forall_impl; [exact H|].
  intros e [H1 H2]. split; apply lookup_insert_is_Some'; right; assumption.
Qed.

Lemma closed_merge_edge rel g es :
  inv.graph_closed g es -> inv.graph_closed g (neo4j.merge_edge rel g es).
Proof.
  unfold inv.graph_closed, neo4j.merge_edge. intros H.
  destruct (g !! Relationship.FromID rel) eqn:Hfrom; [|exact H].
  destruct (g !! Relationship.ToID rel) eqn:Hto; [|exact H].
  assert (Hnew : is_Some (g !! edge_from (neo4j.edge_of rel))
                 /\ is_Some (g !! edge_to (neo4j.edge_of rel))).
  { cbn. rewrite Hfrom, Hto. split; eexists; reflexivity. }
  destruct (existsb _ es).
  - apply Forall_forall. intros e He. apply list_elem_of_fmap in He as (e0 & -> & He0).
    destruct (neo4j.same_edge rel e0); [exact Hnew|].
    rewrite Forall_forall in H. apply H, He0.
  - apply Forall_app. split; [exact H|]. constructor; [exact Hnew | constructor].
Qed.

Lemma closed_filter (P : GraphEdge -> Prop) `{forall e, Decision (P e)} g es :
  inv.graph_closed g es -> inv.graph_closed g (filter P es).
Proof.
  unfold inv.graph_closed. rewrite !Forall_forall. intros Hc e He.
  apply list_elem_of_filter in He as [_ He]. apply Hc, He.
Qed.

Lemma closed_detach id g es :
  inv.graph_closed g es ->
  inv.graph_closed (neo4j.detach id g es).1 (neo4j.detach id g es).2.
Proof.
  unfold neo4j.detach. intros Hc. destruct (g !! id); [|exact Hc]. cbn [fst snd].
  unfold inv.graph_closed in *. rewrite Forall_forall in *. intros e He.
  apply list_elem_of_filter in He as [[Hf Ht] He]. destruct (Hc e He) as [H1 H2].
  split; rewrite lookup_delete_ne by congruence; assumption.
Qed.

Lemma filter_all {A} (P : A -> Prop) `{forall x, Decision (P x)} (l : list A) :
  Forall P l -> filter P l = l.
Proof.
  induction 1 as [|x l Hx _ IH]; [reflexivity|].
  rewrite filter_cons_True by exact Hx. rewrite IH. reflexivity.
Qed.

Lemma same_edge_edge_of rel : neo4j.same_edge rel (neo4j.edge_of rel) = true.
Proof.
  unfold neo4j.same_edge, neo4j.edge_of. cbn.
  rewrite !bool_decide_eq_true_2 by reflexivity. reflexivity.
Qed.

Lemma existsb_false_Forall {A} (f : A -> bool) (l : list A) :
  existsb f l = false -> Forall (fun x => f x = false) l.
Proof.
  induction l as [|x l IH]; cbn; [constructor|].
  intros H. apply orb_false_iff in H as [Hx Hl]. constructor; auto.
Qed.

Lemma merge_edge_again rel g es :
  neo4j.merge_edge rel g (neo4j.merge_edge rel g es) = neo4j.merge_edge rel g es.
Proof.
  unfold neo4j.merge_edge.
  destruct (g !! Relationship.FromID rel); [|reflexivity].
  destruct (g !! Relationship.ToID rel); [|reflexivity].
  destruct (existsb (neo4j.same_edge rel) es) eqn:Hex.
  - assert (Hstill : existsb (neo4j.same_edge rel)
                       (map (fun e => if neo4j.same_edge rel e then neo4j.edge_of rel else e) es)
                     = true).
    { apply existsb_exists in Hex as (e & He & Hsame). apply existsb_exists.
      exists (neo4j.edge_of rel). split; [|apply same_edge_edge_of].
      apply in_map_iff. exists e. rewrite Hsame. split; [reflexivity | exact He]. }
    rewrite Hstill. rewrite map_map. apply map_ext. intros e.
    destruct (neo4j.same_edge rel e) eqn:He.
    + rewrite same_edge_edge_of. reflexivity.
    + rewrite He. reflexivity.
  - rewrite existsb_app. cbn [existsb]. rewrite same_edge_edge_of, !orb_true_r.
    rewrite map_app. cbn [map]. rewrite same_edge_edge_of. f_equal.
    apply existsb_false_Forall in Hex. induction Hex as [|e l He _ IH]; [reflexivity|].
    cbn [map]. rewrite He, IH. reflexivity.
Qed.

Lemma edge_of_merged rel g es :
  is_Some (g !! Relationship.FromID rel) -> is_Some (g !! Relationship.ToID rel) ->
  neo4j.edge_of rel ∈ neo4j.merge_edge rel g es.
Proof.
  intros [n1 H1] [n2 H2]. unfold neo4j.merge_edge. rewrite H1, H2.
  destruct (existsb (neo4j.same_edge rel) es) eqn:Hex.
  - apply existsb_exists in Hex as (e & He & Hsame).
    apply list_elem_of_In, in_map_iff. exists e. rewrite Hsame. split; [reflexivity | exact He].
  - apply elem_of_app. right. apply list_elem_of_singleton. reflexivity.
Qed.



(** X18. Every write of the graph store keeps the graph closed: if each
    relationship joined two nodes of the graph before [UpsertNode],
    [UpsertRelationship], [DeleteNode] or [DeleteRelationship], so it does
    afterwards. *)
Theorem graph_writes_keep_graph_closed (a : Asset.t) (rel : Relationship.t)
    (id rid : UUID) (w : World) :
  inv.graph_closed (nodes w) (edges w) ->
  inv.graph_stays_closed w (neo4j.UpsertNode a w).2
  /\ inv.graph_stays_closed w (neo4j.UpsertRelationship rel w).2
  /\ inv.graph_stays_closed w (neo4j.DeleteNode id w).2
  /\ inv.graph_stays_closed w (neo4j.DeleteRelationship rid w).2.
Proof.
  intros Hc. unfold inv.graph_stays_closed.
  rewrite Runs.UpsertNode_run, Runs.UpsertRelationship_run, Runs.DeleteNode_run.
  unfold neo4j.DeleteRelationship, bind, io, ret.
  destruct (faults w (calls w)); cbn; repeat split; intros _; try exact Hc.
  - apply closed_insert_node, Hc.
  - apply closed_merge_edge, Hc.
  - apply closed_detach, Hc.
  - apply (closed_filter (fun e => edge_id e <> rid)), Hc.
Qed.

Lemma graph_writes_keep_graph_closed_witness :
  inv.graph_closed (nodes (neo4j.DeleteNode 2%N (chain_world 3)).2)
                   (edges (neo4j.DeleteNode 2%N (chain_world 3)).2).
Proof.
  assert (Hc : inv.graph_closed (nodes (chain_world 3)) (edges (chain_world 3))).
  { vm_compute. repeat constructor; eexists; reflexivity. }
  exact (proj1 (proj2 (proj2 (graph_writes_keep_graph_closed
                                nmap_host (Relationship.mk 9%N 1%N 2%N "depends_on" "nmap" "" 0 0)
                                2%N 9%N (chain_world 3) Hc))) Hc).
Defined.

(** X19. On a closed graph a [DeleteNode] that reaches the store removes
    the node, keeps every other node, and keeps exactly the relationships
    that neither start nor end at the node, in their order. *)
Theorem DeleteNode_detaches (id : UUID) (w : World) :
  faults w (calls w) = None ->
  inv.graph_closed (nodes w) (edges w) ->
  let w' := (neo4j.DeleteNode id w).2 in
  (neo4j.DeleteNode id w).1 = Ok tt
  /\ nodes w' !! id = None
  /\ (forall j, j <> id -> nodes w' !! j = nodes w !! j)
  /\ edges w' = filter (fun e => edge_from e <> id /\ edge_to e <> id) (edges w).
Proof.
  intros Hf Hc. cbn zeta. rewrite Runs.DeleteNode_run, Hf. cbn [fst snd].
  split; [reflexivity|]. cbn [nodes edges set_edges set_nodes set_calls].
  unfold neo4j.detach. destruct (nodes w !! id) eqn:Hid; cbn [fst snd].
  - split; [apply lookup_delete_eq|]. split; [|reflexivity].
    intros j Hj. apply lookup_delete_ne. congruence.
  - split; [exact Hid|]. split; [reflexivity|].
    symmetry. apply filter_all. unfold inv.graph_closed in Hc.
    eapply Forall_impl; [exact Hc|]. intros e [[n1 H1] [n2 H2]]. split; congruence.
Qed.

Lemma DeleteNode_detaches_witness :
  nodes (neo4j.DeleteNode 2%N (chain_world 3)).2 !! 2%N = None.
Proof.
  refine (proj1 (proj2 (DeleteNode_detaches 2%N (chain_world 3) _ _))).
  - reflexivity.
  - vm_compute. repeat constructor; eexists; reflexivity.
Defined.

(** ** Traversals *)

Lemma paths_sound outgoing es d :
  forall at_ used p,
    p ∈ neo4j.paths outgoing es d at_ used ->
    (1 <= length p <= d)%nat
    /\ inv.chained outgoing at_ p.*2
    /\ NoDup p.*1
    /\ (forall i, i ∈ p.*1 -> i ∉ used)
    /\ Forall (fun e => e ∈ es) p.
Proof.
  induction d as [|d IH]; intros at_ used p Hp; cbn [neo4j.paths] in Hp.
  - apply elem_of_nil in Hp. destruct Hp.
  - apply list_elem_of_In, in_flat_map in Hp as (e & He & Hp).
    apply list_elem_of_In in He.
    destruct (bool_decide _ && negb _) eqn:Hcond; [|destruct Hp].
    apply andb_true_iff in Hcond as [Hhere Hfresh].
    apply bool_decide_eq_true_1 in Hhere.
    apply negb_true_iff, bool_decide_eq_false_1 in Hfresh.
    destruct Hp as [<- | Hp].
    + cbn. repeat split; try lia; try assumption.
      * apply NoDup_singleton.
      * intros i Hi. apply list_elem_of_singleton in Hi. subst i. exact Hfresh.
      * constructor; [exact He | constructor].
    + apply in_map_iff in Hp as (p' & <- & Hp'). apply list_elem_of_In in Hp'.
      destruct (IH _ _ _ Hp') as (Hlen & Hchain & Hnd & Hused & Hall).
      cbn. repeat split; try lia; try assumption.
      * constructor; [|exact Hnd]. intros Hin. apply (Hused _ Hin). left.
      * intros i Hi. apply elem_of_cons in Hi as [-> | Hi]; [exact Hfresh|].
        intros Hin. apply (Hused _ Hi). right. exact Hin.
      * constructor; assumption.
Qed.

(** X20. The variable-length pattern of [traverseGraph] is bounded and
    simple: every path it matches has between one and [depth]
    relationships, starts at the anchored node, follows the relationships
    head to tail in the direction of the query, uses no relationship
    twice, and uses only relationships of the graph. *)
Theorem traversal_paths_are_bounded (outgoing : bool) (es : list GraphEdge) (d : nat)
    (at_ : UUID) (p : list (nat * GraphEdge)) :
  p ∈ neo4j.paths outgoing (imap (fun i e => (i, e)) es) d at_ [] ->
  (1 <= length p <= d)%nat
  /\ inv.chained outgoing at_ p.*2
  /\ NoDup p.*1
  /\ Forall (fun e => es !! e.1 = Some e.2) p.
Proof.
  intros Hp. destruct (paths_sound _ _ _ _ _ _ Hp) as (Hlen & Hchain & Hnd & _ & Hall).
  repeat split; try lia; try assumption.
  eapply Forall_impl; [exact Hall|]. intros [i e] He.
  apply elem_of_lookup_imap in He as (j & y & Heq & Hy). injection Heq as -> ->. exact Hy.
Qed.

Lemma traversal_paths_are_bounded_witness :
  inv.chained true 0%N [mkEdge 0%N 1%N "RUNS_ON" 100%N "vmware" "";
                        mkEdge 1%N 2%N "RUNS_ON" 101%N "vmware" ""].
Proof.
  refine (proj1 (proj2 (traversal_paths_are_bounded true (edges (chain_world 3)) 2 0%N
                   [(0%nat, mkEdge 0%N 1%N "RUNS_ON" 100%N "vmware" "");
                    (1%nat, mkEdge 1%N 2%N "RUNS_ON" 101%N "vmware" "")] _))).
  vm_compute. repeat constructor.
Defined.

Lemma omap_ids_sublist (g : gmap UUID GraphNode) (ns : list UUID) :
  map Asset.ID (omap (fun id => neo4j.nodeToAsset id <$> g !! id) ns) `sublist_of` ns.
Proof.
  induction ns as [|id ns IH]; cbn; [constructor|].
  destruct (g !! id); cbn.
  - apply sublist_skip, IH.
  - apply sublist_cons, IH.
Qed.

Lemma NoDup_bounded_length (l : list nat) (n : nat) :
  NoDup l -> Forall (fun i => (i < n)%nat) l -> (length l <= n)%nat.
Proof.
  intros Hnd Hall. transitivity (length (seq 0 n)); [|rewrite length_seq; reflexivity].
  apply submseteq_length, NoDup_submseteq; [exact Hnd|].
  intros i Hi. rewrite Forall_forall in Hall. apply elem_of_seq. specialize (Hall i Hi). lia.
Qed.

Lemma omap_length_le {A B} (f : A -> option B) (l : list A) :
  (length (omap f l) <= length (filter (fun x => is_Some (f x)) l))%nat.
Proof.
  induction l as [|x l IH]; [cbn; lia|].
  rewrite filter_cons.
  change (omap f (x :: l)) with (match f x with Some y => y :: omap f l | None => omap f l end).
  destruct (f x) eqn:Hx.
  - rewrite decide_True by (eexists; reflexivity). cbn [length]. lia.
  - rewrite decide_False by (intros [? ?]; discriminate). exact IH.
Qed.

(** X21. A traversal that reaches the store only reads.  It returns
    assets rebuilt from nodes of the graph, each node at most once, and
    relationships rebuilt from relationships of the graph, at most one for
    each, whose endpoints [FromID] and [ToID] are left zero.  A start id
    that is not a node gives two empty lists, not an error. *)
Theorem traversal_reads_the_graph (assetID : UUID) (depth : Z) (direction : string)
    (w : World) :
  faults w (calls w) = None ->
  exists found rels,
    (neo4j.traverseGraph assetID depth direction w).1.1 = Ok (found, rels)
    /\ (neo4j.traverseGraph assetID depth direction w).2 = set_calls (S (calls w)) w
    /\ (nodes w !! assetID = None -> found = [] /\ rels = [])
    /\ Forall (fun a => exists n, nodes w !! Asset.ID a = Some n
                                  /\ a = neo4j.nodeToAsset (Asset.ID a) n) found
    /\ NoDup (map Asset.ID found)
    /\ Forall (fun r => Relationship.FromID r = 0%N /\ Relationship.ToID r = 0%N
                        /\ exists e, e ∈ edges w /\ r = neo4j.neoRelToRelationship e) rels
    /\ (length rels <= length (edges w))%nat.
Proof.
  intros Hf. unfold neo4j.traverseGraph. unfold bind, io, ret. rewrite Hf.
  cbn [fst snd nodes edges set_calls].
  set (d := neo4j.traverse_depth depth). set (out := bool_decide (direction = "outgoing")).
  unfold neo4j.run_traversal.
  destruct (nodes w !! assetID) eqn:Hstart.
  2:{ exists [], []. repeat split; try constructor; try discriminate. cbn. lia. }
  set (ps := neo4j.paths out _ _ _ _).
  eexists _, _. split; [reflexivity|]. split; [reflexivity|].
  split; [discriminate|]. split; [|split; [|split]].
  - apply Forall_forall. intros a Ha.
    apply list_elem_of_omap in Ha as (id & _ & Ha).
    destruct (nodes w !! id) eqn:Hid; [|discriminate]. cbn in Ha. injection Ha as <-.
    cbn. exists g0. split; [exact Hid | reflexivity].
  - eapply sublist_NoDup; [|apply omap_ids_sublist]. apply NoDup_remove_dups.
  - apply Forall_forall. intros r Hr.
    apply list_elem_of_omap in Hr as (i & _ & Hr).
    destruct (edges w !! i) eqn:Hi; [|discriminate]. cbn in Hr. injection Hr as <-.
    cbn. repeat split. exists g0. split; [|reflexivity].
    eapply list_elem_of_lookup_2, Hi.
  - etransitivity; [apply omap_length_le|].
    apply NoDup_bounded_length.
    + apply NoDup_filter, NoDup_remove_dups.
    + apply Forall_forall. intros i Hi. apply list_elem_of_filter in Hi as [[r Hr] _].
      destruct (edges w !! i) eqn:Hlk; [|discriminate].
      eapply lookup_lt_Some, Hlk.
Qed.

Lemma traversal_reads_the_graph_witness :
  exists found rels,
    (neo4j.traverseGraph 77%N 2 "outgoing" (chain_world 3)).1.1 = Ok (found, rels)
    /\ found = [] /\ rels = [].
Proof.
  destruct (traversal_reads_the_graph 77%N 2 "outgoing" (chain_world 3))
    as (found & rels & Hrun & _ & Hnone & _); [reflexivity|].
  exists found, rels. split; [exact Hrun|]. apply Hnone. vm_compute. reflexivity.
Defined.

End GraphProps.

(* ================================================================== *)
(** * More properties of the reconciler *)
(* ================================================================== *)

Module ReconcilerInvariants.
Import model.
Import reconciler.

(** X9. A reconciliation run keeps the primary key and the
    (source, external_id) index of the asset table unique, whatever the
    batch, the faults and the configuration of the reconciler. *)
Theorem Reconcile_keeps_keys_unique (r : Reconciler) (res : collector.CollectResult)
    (w : World) :
  inv.keys_unique (assets w) ->
  inv.keys_unique (assets (Reconcile r res w).2).
Proof.
  apply (Frame.respects_Reconcile inv.keys_stay_unique r); unfold inv.keys_stay_unique;
    try (intros; assumption); try (intros; cbn; assumption).
  - intros w1 w2 w3 H12 H23 H. apply H23, H12, H.
  - intros a w0 Hc Hu. cbn. apply StoreProps.keys_unique_insert; assumption.
  - intros a w0 Hc Hu. cbn. apply StoreProps.keys_unique_update; assumption.
Qed.

Lemma Reconcile_keeps_keys_unique_witness :
  inv.keys_unique (assets after_replay).
Proof.
  apply (Reconcile_keeps_keys_unique with_bus nmap_snapshot after_first_sighting).
  vm_compute. split; repeat constructor; apply not_elem_of_nil.
Defined.

(** X10. A reconciliation run never removes or reorders rows of the asset
    table and never changes the id of a row: the ids after the run are the
    ids before it, followed by those of the rows it inserted. *)
Theorem Reconcile_only_appends_rows (r : Reconciler) (res : collector.CollectResult)
    (w : World) :
  exists added,
    map Asset.ID (assets (Reconcile r res w).2) = map Asset.ID (assets w) ++ added.
Proof.
  apply (Frame.respects_Reconcile inv.rows_stay r); unfold inv.rows_stay;
    try (intros; exists []; cbn; rewrite app_nil_r; reflexivity).
  - intros w1 w2 w3 [a1 H1] [a2 H2]. exists (a1 ++ a2). rewrite H2, H1, app_assoc. reflexivity.
  - intros a w0 _. exists [Asset.ID a]. cbn. rewrite map_app. reflexivity.
  - intros a w0 _. exists []. cbn. rewrite StoreProps.update_rows_ids, app_nil_r. reflexivity.
Qed.

(** X11. A reconciler whose graph store is nil never changes the graph:
    after a whole run the nodes and the relationships are what they were. *)
Theorem Reconcile_without_graph_store (p : option EventPublisher)
    (res : collector.CollectResult) (w : World) :
  nodes (Reconcile (New None p) res w).2 = nodes w
  /\ edges (Reconcile (New None p) res w).2 = edges w.
Proof.
  apply (Frame.respects_Reconcile inv.same_graph (New None p)); unfold inv.same_graph;
    try (intros; split; reflexivity); try (cbn; intros; congruence).
  intros w1 w2 w3 [H1 H2] [H3 H4]. split; congruence.
Qed.

(** X12. A reconciliation run keeps the graph closed: if every
    relationship joined two nodes of the graph before the run, so it does
    after it. *)
Theorem Reconcile_keeps_graph_closed (r : Reconciler) (res : collector.CollectResult)
    (w : World) :
  inv.graph_closed (nodes w) (edges w) ->
  inv.graph_closed (nodes (Reconcile r res w).2) (edges (Reconcile r res w).2).
Proof.
  apply (Frame.respects_Reconcile inv.graph_stays_closed r);
    unfold inv.graph_stays_closed; try (intros; assumption); try (intros; cbn; assumption).
  - intros w1 w2 w3 H12 H23 H. apply H23, H12, H.
  - intros _ id n w0 H. cbn. apply GraphProps.closed_insert_node, H.
  - intros _ rel w0 H. cbn. apply GraphProps.closed_merge_edge, H.
Qed.

Lemma Reconcile_keeps_graph_closed_witness :
  inv.graph_closed (nodes (Reconcile with_bus nmap_snapshot (chain_world 3)).2)
                   (edges (Reconcile with_bus nmap_snapshot (chain_world 3)).2).
Proof.
  apply (Reconcile_keeps_graph_closed with_bus nmap_snapshot (chain_world 3)).
  vm_compute. repeat constructor; eexists; reflexivity.
Defined.

End ReconcilerInvariants.

(* ================================================================== *)
(** * How the branches of the reconciler behave *)
(* ================================================================== *)

Module ReconcilerBranches.
Import model.
Import reconciler.

Lemma same_assets_upsertNode r a msg w :
  assets (upsertNode r a msg w).2 = assets w.
Proof.
  apply (Frame.respects_upsertNode inv.same_assets r); unfold inv.same_assets;
    try (intros; reflexivity).
  intros w1 w2 w3 H1 H2. congruence.
Qed.

Lemma same_assets_publishEvent r action a diff w :
  assets (publishEvent r action a diff w).2 = assets w.
Proof.
  apply (Frame.respects_publishEvent inv.same_assets r); unfold inv.same_assets;
    try (intros; reflexivity).
  intros w1 w2 w3 H1 H2. congruence.
Qed.

Lemma lookups_keep_stores incoming w :
  inv.same_stores w (findExisting incoming w).2
  /\ ticks (findExisting incoming w).2 = ticks w
  /\ clock (findExisting incoming w).2 = clock w
  /\ faults (findExisting incoming w).2 = faults w.
Proof.
  destruct (ReconcilerProps.findExisting_run incoming w) as (k & l & ->).
  cbn. unfold inv.same_stores. cbn. repeat split; reflexivity.
Qed.

(** X13. When no stage matches and the insert of the new asset fails, the
    asset is dropped from the run: [reconcileAsset] returns the wrapped
    error, and no table, no graph element and no event has changed. *)
Theorem failed_insert_drops_the_asset (r : Reconciler) (incoming : Asset.t) (w : World)
    (msg : string) :
  spec.cascade w incoming = Ok None ->
  (postgres.Create (stamp_new (clock w (ticks w)) incoming)
                   (set_ticks (S (ticks w)) (findExisting incoming w).2)).1 = Err msg ->
  (reconcileAsset r incoming w).1 = Err ("creating new asset: " +:+ msg)
  /\ inv.same_stores w (reconcileAsset r incoming w).2.
Proof.
  intros Hc Hcreate.
  destruct (lookups_keep_stores incoming w) as (Hst & Hticks & Hclock & _).
  assert (Hrun : reconcileAsset r incoming w =
                 (Err ("creating new asset: " +:+ msg),
                  (postgres.Create (stamp_new (clock w (ticks w)) incoming)
                     (set_ticks (S (ticks w)) (findExisting incoming w).2)).2)).
  { rewrite ReconcilerProps.reconcileAsset_by_cascade, Hc.
    unfold bind, time_Now. rewrite Hticks, Hclock. unfold insertNew, bind.
    destruct (postgres.Create _ _) as [c w2]. cbn [fst] in Hcreate. subst c. reflexivity. }
  rewrite Hrun. cbn [fst snd]. split; [reflexivity|].
  set (w0 := (findExisting incoming w).2) in *. clearbody w0.
  rewrite Runs.Create_run in Hcreate |- *. cbn [fst snd] in Hcreate |- *.
  destruct Hst as (H1 & H2 & H3 & H4 & H5 & H6).
  destruct (faults _ _); [unfold inv.same_stores; cbn; repeat split; assumption|].
  destruct (postgres.collides _ _); [unfold inv.same_stores; cbn; repeat split; assumption|].
  destruct (negb _); [|discriminate].
  unfold inv.same_stores. cbn. repeat split; assumption.
Qed.

Lemma failed_insert_drops_the_asset_witness :
  (reconcileAsset with_bus (Asset.mk 1%N "z-1" "zabbix" "host" "db01" None [] "" 0 0 "" 0 0)
                  (set_assets [vmware_vm] world0)).1
  = Err "creating new asset: inserting asset: duplicate key value violates unique constraint".
Proof.
  apply (failed_insert_drops_the_asset with_bus
           (Asset.mk 1%N "z-1" "zabbix" "host" "db01" None [] "" 0 0 "" 0 0)
           (set_assets [vmware_vm] world0)); vm_compute; reflexivity.
Defined.

(** X14. When no stage matches and the insert succeeds, the new row is
    the incoming asset stamped with one clock reading and the status
    active, and it stays stored and [reconcileAsset] reports success
    whatever then happens to the graph write, to the history insert and to
    the publication. *)
Theorem new_asset_is_stored_whatever_follows (r : Reconciler) (incoming : Asset.t)
    (w : World) :
  spec.cascade w incoming = Ok None ->
  (postgres.Create (stamp_new (clock w (ticks w)) incoming)
                   (set_ticks (S (ticks w)) (findExisting incoming w).2)).1 = Ok tt ->
  (reconcileAsset r incoming w).1 = Ok tt
  /\ assets (reconcileAsset r incoming w).2
     = assets w ++ [stamp_new (clock w (ticks w)) incoming].
Proof.
  intros Hc Hcreate.
  destruct (lookups_keep_stores incoming w) as (Hst & Hticks & Hclock & _).
  destruct Hst as (Hassets & _).
  destruct (reconcileAsset r incoming w) as [res w'] eqn:Hrun. cbn [fst snd].
  rewrite ReconcilerProps.reconcileAsset_by_cascade, Hc in Hrun.
  unfold bind at 1 in Hrun. unfold time_Now in Hrun. rewrite Hticks, Hclock in Hrun.
  set (w0 := (findExisting incoming w).2) in *. clearbody w0.
  set (stamped := stamp_new (clock w (ticks w)) incoming) in *.
  unfold insertNew in Hrun. fold stamped in Hrun. unfold bind at 1 in Hrun.
  rewrite Runs.Create_run in Hcreate, Hrun. cbn [fst snd] in Hcreate.
  destruct (faults _ _); [discriminate|].
  destruct (postgres.collides _ _); [discriminate|].
  destruct (negb _); [discriminate|]. cbn [orb] in Hrun.
  set (w2 := set_assets _ _) in Hrun.
  assert (Hw2 : assets w2 = assets w ++ [stamped]).
  { subst w2. cbn. rewrite Hassets. reflexivity. }
  clearbody w2. unfold bind in Hrun.
  pose proof (same_assets_upsertNode r stamped "failed to create neo4j node" w2) as Hn.
  destruct (upsertNode r stamped "failed to create neo4j node" w2) as [u w3].
  pose proof (same_assets_publishEvent r ChangeActionCreated stamped None w3) as Hp.
  destruct (publishEvent r ChangeActionCreated stamped None w3) as [v w4].
  cbn in Hn, Hp, Hrun. injection Hrun as <- <-. split; [reflexivity | congruence].
Qed.

Lemma new_asset_is_stored_whatever_follows_witness :
  assets (reconcileAsset with_bus nmap_host world0).2 = [stamp_new 100 nmap_host].
Proof.
  apply (new_asset_is_stored_whatever_follows with_bus nmap_host world0);
    vm_compute; reflexivity.
Defined.

Lemma same_row_ids_updateExisting r now existing incoming w :
  map Asset.ID (assets (updateExisting r now existing incoming w).2)
  = map Asset.ID (assets w).
Proof.
  apply (Frame.respects_updateExisting inv.same_row_ids r); unfold inv.same_row_ids;
    try (intros; reflexivity).
  - intros w1 w2 w3 H1 H2. congruence.
  - intros a w1 _. cbn. apply StoreProps.update_rows_ids.
Qed.

(** X15. An incoming asset that matches a stored one is never inserted:
    whatever the diff and the faults, the table has the same rows with the
    same ids afterwards, so a record matched through its IP or FQDN gets no
    row of its own under its (source, external_id). *)
Theorem matched_asset_is_never_inserted (r : Reconciler) (incoming existing : Asset.t)
    (w : World) :
  spec.cascade w incoming = Ok (Some existing) ->
  map Asset.ID (assets (reconcileAsset r incoming w).2) = map Asset.ID (assets w).
Proof.
  intros Hc. rewrite ReconcilerProps.reconcileAsset_by_cascade, Hc.
  destruct (lookups_keep_stores incoming w) as ((Hassets & _) & _).
  rewrite <- Hassets.
  set (w0 := (findExisting incoming w).2). clearbody w0.
  unfold bind at 1. unfold time_Now.
  exact (same_row_ids_updateExisting r _ existing incoming (set_ticks (S (ticks w0)) w0)).
Qed.

Lemma matched_asset_is_never_inserted_witness :
  map Asset.ID (assets (reconcileAsset with_bus nmap_host (set_assets [vmware_vm] world0)).2)
  = [1%N].
Proof.
  apply (matched_asset_is_never_inserted with_bus nmap_host vmware_vm
           (set_assets [vmware_vm] world0)).
  vm_compute. reflexivity.
Defined.

(** X16. With a publisher, a change event is published even when storing
    it in the history fails (the failure is a warning), and it stays in
    the history even when publishing fails (again a warning); the subject
    is "assets." followed by the action. *)
Theorem publishEvent_store_and_bus_fail_apart (neo : option neo4j.Store)
    (p : EventPublisher) (action : ChangeAction) (asset : Asset.t)
    (diff : option json.Diff) (w : World) :
  let event := ChangeEvent.mk (uuids w (draws w)) (Asset.ID asset) action
                              (Asset.Source asset) (json.Marshal diff)
                              (clock w (ticks w)) in
  let w' := (publishEvent (New neo (Some p)) action asset diff w).2 in
  (forall msg,
     faults w (calls w) = Some msg -> faults w (S (calls w)) = None ->
     change_events w' = change_events w
     /\ published w' = published w ++ [("assets." +:+ action, event)]
     /\ logs w' = logs w ++ [(Warn, "failed to store change event")])
  /\ (forall msg,
        (postgres.CreateChangeEvent event
           (set_ticks (S (ticks w)) (set_draws (S (draws w)) w))).1 = Ok tt ->
        faults w (S (calls w)) = Some msg ->
        change_events w' = change_events w ++ [event]
        /\ published w' = published w
        /\ logs w' = logs w ++ [(Warn, "failed to publish event")]).
Proof.
  cbn zeta.
  destruct (publishEvent (New neo (Some p)) action asset diff w) as [u w'] eqn:Hrun.
  cbn [snd]. unfold publishEvent in Hrun. cbn [publisher] in Hrun.
  unfold bind at 1 in Hrun.
  unfold NewChangeEvent, bind at 1, uuid_New, bind at 1, time_Now, ret in Hrun.
  cbn [ticks clock set_draws] in Hrun.
  set (event := ChangeEvent.mk _ _ _ _ _ _) in *.
  set (w1 := set_ticks (S (ticks w)) (set_draws (S (draws w)) w)) in *.
  unfold bind at 1 in Hrun.
  split.
  - intros msg Hf1 Hf2.
    unfold postgres.CreateChangeEvent, bind, io, ret, log in Hrun.
    cbn in Hrun. rewrite Hf1 in Hrun. cbn in Hrun.
    rewrite Runs.Publish_run in Hrun. cbn in Hrun. rewrite Hf2 in Hrun.
    injection Hrun as _ <-. cbn. repeat split; reflexivity.
  - intros msg Hok Hf2.
    destruct (postgres.CreateChangeEvent event w1) as [c w2] eqn:E.
    cbn [fst] in Hok. subst c.
    assert (Hw2 : w2 = set_change_events (change_events w ++ [event])
                         (set_calls (S (calls w)) w1)).
    { unfold postgres.CreateChangeEvent, bind, io, ret, wrap in E. cbn in E.
      destruct (faults w (calls w)); [discriminate|]. cbn in E.
      destruct (existsb _ (change_events w)); [discriminate|]. cbn in E.
      destruct (existsb _ (assets w)); cbn in E; [|discriminate].
      injection E as <-. reflexivity. }
    subst w2. unfold bind, ret in Hrun. rewrite Runs.Publish_run in Hrun.
    cbn in Hrun. rewrite Hf2 in Hrun. injection Hrun as _ <-. cbn.
    repeat split; reflexivity.
Qed.

Lemma publishEvent_store_and_bus_fail_apart_witness :
  published (publishEvent with_bus "asset.created" vmware_vm None
               (mkWorld [vmware_vm] [] ∅ [] [] [] [] ∅ 0 0 0 (fun n => 100 + Z.of_nat n)
                        (fun n => if Nat.eqb n 0 then Some "connection reset" else None)
                        (fun _ => 200) (fun n => (1000 + N.of_nat n)%N))).2
  = [("assets.asset.created",
      ChangeEvent.mk 1000%N 1%N "asset.created" "vmware" json.null 100)].
Proof.
  refine (proj1 (proj2 (proj1 (publishEvent_store_and_bus_fail_apart
                                 (Some neo4j.store) bus "asset.created" vmware_vm None _)
                               "connection reset" _ _)));
    reflexivity.
Defined.

End ReconcilerBranches.
(* ================================================================== *)
(** * The registry, the scheduler's start, the notifier *)
(* ================================================================== *)

Module RegistryRoundTrip.
Import model.
Import collector.

(** X22. After [Register] the registry answers [Get] for the collector's
    name with that collector and that config, and for every other name as
    before; the collector's status is a new blank one, also when the name
    was registered before; and no status cell that existed is touched. *)
Theorem Register_then_Get (r : Registry) (c : Collector) (cfg : CollectorConfig.t)
    (w : World) :
  let r' := (Register r c cfg w).1 in
  let w' := (Register r c cfg w).2 in
  Get r' (Name c) = Ok (c, cfg)
  /\ (forall name, name <> Name c -> Get r' name = Get r name)
  /\ status_of r' (Name c) w' = Some (CollectorStatus.mk (Name c) 0 0 "" false 0)
  /\ (forall name, name <> Name c -> statuses r' !! name = statuses r !! name)
  /\ (forall p, is_Some (heap w !! p) -> heap w' !! p = heap w !! p).
Proof.
  cbn zeta. unfold Register, new_status, bind, log, ret. cbn [fst snd].
  unfold Get, status_of, load.
  cbn [collectors configs statuses heap set_heap set_logs].
  rewrite !lookup_insert_eq. cbn [default].
  split; [reflexivity|]. split; [|split; [reflexivity|split]].
  - intros name Hne. rewrite !lookup_insert_ne by congruence. reflexivity.
  - intros name Hne. rewrite lookup_insert_ne by congruence. reflexivity.
  - intros p Hp. apply lookup_insert_ne. intros <-.
    apply (is_fresh (dom (heap w))). apply elem_of_dom. exact Hp.
Qed.

Lemma Names_spec (r : Registry) (name : string) :
  name ∈ Names r <-> is_Some (collectors r !! name).
Proof.
  unfold Names. rewrite list_elem_of_fmap. split.
  - intros ([k c] & -> & Hin). apply elem_of_map_to_list in Hin. eexists. exact Hin.
  - intros [c Hc]. exists (name, c). split; [reflexivity|].
    apply elem_of_map_to_list. exact Hc.
Qed.

End RegistryRoundTrip.

Module StartProps.
Import model.
Import scheduler.

Lemma set_logs_nil w : set_logs (logs w ++ []) w = w.
Proof. rewrite app_nil_r. destruct w. reflexivity. Qed.

Lemma set_logs_twice a b w :
  set_logs (logs (set_logs (logs w ++ a) w) ++ b) (set_logs (logs w ++ a) w)
  = set_logs (logs w ++ a ++ b) w.
Proof. unfold set_logs. cbn. rewrite app_assoc. reflexivity. Qed.

Lemma start_workers_run s names :
  Forall (fun n => is_Some (collector.collectors (registry s) !! n)) names ->
  forall w,
    exists added,
      start_workers s names w =
      (omap (fun name =>
               match collector.Get (registry s) name with
               | Ok (c, cfg) => if CollectorConfig.Enabled cfg then Some (c, cfg) else None
               | Err _ => None
               end) names,
       set_logs (logs w ++ added) w)
      /\ Forall (fun l => l.1 = Info) added.
Proof.
  induction 1 as [|name names [c Hc] _ IH]; intros w.
  - exists []. rewrite set_logs_nil. split; [reflexivity | constructor].
  - cbn [start_workers].
    change (omap ?f (name :: names))
      with (match f name with Some y => y :: omap f names | None => omap f names end).
    set (cfg := default (CollectorConfig.mk "" "" false 0 ∅)
                        (collector.configs (registry s) !! name)).
    assert (Hget : collector.Get (registry s) name = Ok (c, cfg)).
    { unfold collector.Get. rewrite Hc. reflexivity. }
    rewrite !Hget.
    destruct (CollectorConfig.Enabled cfg); cbn [negb].
    + unfold bind, ret. destruct (IH w) as (added & -> & Hadded).
      exists added. split; [reflexivity | exact Hadded].
    + unfold bind, log.
      destruct (IH (set_logs (logs w ++ [(Info, "collector disabled, skipping")]) w))
        as (added & -> & Hadded).
      exists ((Info, "collector disabled, skipping") :: added).
      rewrite set_logs_twice. split; [reflexivity|]. constructor; [reflexivity | exact Hadded].
Qed.

(** X23. [Start] hands a worker exactly the registered collectors whose
    config is enabled, each with its registered config.  It changes
    nothing but the log, where it writes only at info level: the lookup of
    a listed name never fails. *)
Theorem Start_starts_the_enabled_collectors (s : Scheduler) (w : World) :
  (forall c cfg,
      (c, cfg) ∈ (Start s w).1 <->
      exists name,
        collector.collectors (registry s) !! name = Some c
        /\ collector.Get (registry s) name = Ok (c, cfg)
        /\ CollectorConfig.Enabled cfg = true)
  /\ exists added,
       (Start s w).2 = set_logs (logs w ++ added) w
       /\ Forall (fun l => l.1 = Info) added.
Proof.
  assert (Hnames : Forall (fun n => is_Some (collector.collectors (registry s) !! n))
                          (collector.Names (registry s))).
  { apply Forall_forall. intros n Hn. apply RegistryRoundTrip.Names_spec, Hn. }
  destruct (start_workers_run s _ Hnames w) as (added & Hrun & Hadded).
  unfold Start, bind, log, ret. rewrite Hrun. cbn [fst snd]. split.
  - intros c cfg. rewrite list_elem_of_omap. split.
    + intros (name & Hin & Hsel). exists name.
      unfold collector.Get in *.
      destruct (collector.collectors (registry s) !! name) as [c0|]; [|discriminate].
      destruct (CollectorConfig.Enabled _) eqn:Hen; [|discriminate].
      injection Hsel as <- <-. split; [reflexivity|]. split; [reflexivity | exact Hen].
    + intros (name & Hc & Hget & Hen). exists name. split.
      * apply RegistryRoundTrip.Names_spec. eexists. exact Hc.
      * rewrite Hget, Hen. reflexivity.
  - exists (added ++ [(Info, "scheduler started")]).
    rewrite set_logs_twice. split; [reflexivity|].
    apply Forall_app. split; [exact Hadded|]. constructor; [reflexivity | constructor].
Qed.

(** X24. Cancellation ends the worker: the signals that arrive after
    [Done] are never served, and the worker leaves the world as the ticks
    before [Done] left it. *)
Theorem loop_stops_at_Done (s : Scheduler) (c : collector.Collector)
    (cfg : CollectorConfig.t) (pre post : list Signal) (w : World) :
  Done ∉ pre ->
  loop s c cfg (pre ++ Done :: post) w = (Exited, (loop s c cfg pre w).2).
Proof.
  revert w. induction pre as [|[|] pre IH]; intros w Hnd.
  - reflexivity.
  - exfalso. apply Hnd. left.
  - cbn [app loop]. unfold bind. destruct (runCollector s c cfg w) as [u w1].
    apply IH. intros Hin. apply Hnd. right. exact Hin.
Qed.

Lemma loop_stops_at_Done_witness :
  loop worker broken_collector nmap_config [Tick; Done; Tick; Tick] one_collector.2
  = (Exited, (loop worker broken_collector nmap_config [Tick] one_collector.2).2).
Proof.
  apply (loop_stops_at_Done worker broken_collector nmap_config [Tick] [Tick; Tick]).
  intros Hin. apply elem_of_cons in Hin as [Hin | Hin]; [discriminate|].
  apply elem_of_nil in Hin. exact Hin.
Defined.

End StartProps.

Module NotifierFrame.
Import model.
Import notifier.

Section Webhook.
Variable url_ok : string -> bool.

Lemma notified_refl n event w : inv.notified n event w w.
Proof.
  repeat split. exists []. rewrite app_nil_r. split; [reflexivity | constructor].
Qed.

Lemma notified_trans n event w1 w2 w3 :
  inv.notified n event w1 w2 -> inv.notified n event w2 w3 -> inv.notified n event w1 w3.
Proof.
  intros (Hs1 & (s1 & Hp1 & Hf1) & Hu1) (Hs2 & (s2 & Hp2 & Hf2) & Hu2).
  split; [|split].
  - unfold inv.only_notified in *. intuition congruence.
  - exists (s1 ++ s2). rewrite Hp2, Hp1, app_assoc.
    split; [reflexivity | apply Forall_app; split; assumption].
  - intros Hu. destruct (Hu1 Hu), (Hu2 Hu). split; congruence.
Qed.

Lemma notified_log n event lvl msg w : inv.notified n event w (log lvl msg w).2.
Proof.
  repeat split. exists []. rewrite app_nil_r. split; [reflexivity | constructor].
Qed.

Lemma notified_post n event sent w w' :
  inv.only_notified w w' ->
  posted w' = posted w ++ sent ->
  Forall (fun p => p = (webhookURL n, event)) sent ->
  webhookURL n <> "" ->
  inv.notified n event w w'.
Proof.
  intros Hs Hp Hf Hurl. split; [exact Hs|]. split; [|intros; contradiction].
  exists sent. split; assumption.
Qed.

Lemma notified_sendWebhook n event w :
  inv.notified n event w (sendWebhook url_ok n event w).2.
Proof.
  unfold sendWebhook. case_bool_decide as Hurl; [apply notified_refl|].
  destruct (url_ok (webhookURL n)); cbn [negb]; [|apply notified_log].
  unfold bind, io. destruct (faults w (calls w)).
  - eapply notified_trans; [|apply notified_log].
    apply (notified_post n event []); [repeat split | | constructor | exact Hurl].
    cbn. rewrite app_nil_r. reflexivity.
  - cbn [responses calls set_calls posted Nat.pred].
    eapply notified_trans;
      [|destruct (300 <=? responses w (calls w)); [apply notified_log | apply notified_refl]].
    apply (notified_post n event [(webhookURL n, event)]);
      [repeat split | reflexivity | | exact Hurl].
    constructor; [reflexivity | constructor].
Qed.

Lemma notified_dispatch_all n event chs w :
  inv.notified n event w (dispatch_all url_ok n event chs w).2.
Proof.
  revert w. induction chs as [|ch chs IH]; intros w; [apply notified_refl|].
  cbn [dispatch_all]. unfold bind.
  destruct (dispatch url_ok n event ch w) as [u w1] eqn:Hd.
  eapply notified_trans; [|apply IH].
  change w1 with (u, w1).2. rewrite <- Hd. unfold dispatch.
  repeat case_bool_decide; first [apply notified_sendWebhook | apply notified_log
                                 | apply notified_refl].
Qed.

Lemma notified_evaluate_rules n event rs w :
  inv.notified n event w (evaluate_rules url_ok n event rs w).2.
Proof.
  revert w. induction rs as [|rule rs IH]; intros w; [apply notified_refl|].
  cbn [evaluate_rules]. unfold bind.
  destruct ((if matches rule event then fire url_ok n rule event else ret tt) w)
    as [u w1] eqn:Hd.
  eapply notified_trans; [|apply IH].
  change w1 with (u, w1).2. rewrite <- Hd.
  destruct (matches rule event); [|apply notified_refl].
  unfold fire, bind, log. eapply notified_trans; [|apply notified_dispatch_all].
  apply (notified_log n event Info "alert rule matched" w).
Qed.

(** X25. [Evaluate] never writes to a store: the assets, the change
    events, the graph, the bus and the collector statuses are as before.
    Whatever it posts is this event, to the notifier's webhook URL; with
    an empty URL it posts nothing and makes no call at all. *)
Theorem Evaluate_only_notifies (n : Notifier) (event : ChangeEvent.t) (w : World) :
  let w' := (Evaluate url_ok n event w).2 in
  inv.only_notified w w'
  /\ (exists sent, posted w' = posted w ++ sent
                   /\ Forall (fun p => p = (webhookURL n, event)) sent)
  /\ (webhookURL n = "" -> posted w' = posted w /\ calls w' = calls w).
Proof. apply notified_evaluate_rules. Qed.

Lemma evaluate_rules_app n event rs1 rs2 w :
  evaluate_rules url_ok n event (rs1 ++ rs2) w
  = evaluate_rules url_ok n event rs2 (evaluate_rules url_ok n event rs1 w).2.
Proof.
  revert w. induction rs1 as [|rule rs1 IH]; intros w; [reflexivity|].
  cbn [app evaluate_rules]. unfold bind.
  destruct ((if matches rule event then fire url_ok n rule event else ret tt) w) as [u w1].
  apply IH.
Qed.

Lemma dispatch_all_same_url n1 n2 event chs w :
  webhookURL n1 = webhookURL n2 ->
  dispatch_all url_ok n1 event chs w = dispatch_all url_ok n2 event chs w.
Proof.
  intros Hurl. revert w. induction chs as [|ch chs IH]; intros w; [reflexivity|].
  cbn [dispatch_all]. unfold bind.
  assert (Hd : dispatch url_ok n1 event ch w = dispatch url_ok n2 event ch w).
  { unfold dispatch, sendWebhook. rewrite Hurl. reflexivity. }
  rewrite Hd. destruct (dispatch url_ok n2 event ch w). apply IH.
Qed.

Lemma evaluate_rules_same_url n1 n2 event rs w :
  webhookURL n1 = webhookURL n2 ->
  evaluate_rules url_ok n1 event rs w = evaluate_rules url_ok n2 event rs w.
Proof.
  intros Hurl. revert w. induction rs as [|rule rs IH]; intros w; [reflexivity|].
  cbn [evaluate_rules]. unfold bind.
  assert (Hd : (if matches rule event then fire url_ok n1 rule event else ret tt) w
               = (if matches rule event then fire url_ok n2 rule event else ret tt) w).
  { destruct (matches rule event); [|reflexivity].
    unfold fire, bind. destruct (log Info "alert rule matched" w).
    apply dispatch_all_same_url, Hurl. }
  rewrite Hd.
  destruct ((if matches rule event then fire url_ok n2 rule event else ret tt) w).
  apply IH.
Qed.

(** X26. Rules are evaluated in the order they were added: evaluating
    after [AddRule] is evaluating the old rules as before and then the new
    rule, which fires if and only if it matches the event. *)
Theorem AddRule_is_evaluated_last (n : Notifier) (rule : AlertRule)
    (event : ChangeEvent.t) (w : World) :
  let w1 := (Evaluate url_ok n event w).2 in
  (Evaluate url_ok (AddRule n rule) event w).2
  = if matches rule event then (fire url_ok n rule event w1).2 else w1.
Proof.
  cbn zeta. unfold Evaluate. cbn [rules AddRule].
  rewrite evaluate_rules_app.
  rewrite (evaluate_rules_same_url (AddRule n rule) n event (rules n) w) by reflexivity.
  cbn [evaluate_rules]. unfold bind, ret.
  destruct (matches rule event); [|reflexivity].
  unfold fire, bind.
  destruct (log Info "alert rule matched" (evaluate_rules url_ok n event (rules n) w).2)
    as [u w2].
  rewrite (dispatch_all_same_url (AddRule n rule) n) by reflexivity.
  destruct (dispatch_all url_ok n event (Channels rule) w2). reflexivity.
Qed.

End Webhook.

End NotifierFrame.
(* ================================================================== *)
(** * The asset handlers *)
(* ================================================================== *)

Module AssetHandlerProps.
Import model.
Import api.

Section Handlers.
Variable uuid_Parse : string -> option UUID.

(** X27. A request that cannot be understood is answered with 400 and
    changes nothing, not even a counter: a path id that is not a UUID, for
    the four handlers that take one, and for [handleCreateAsset] a body
    that does not decode or that leaves a required field empty. *)
Theorem bad_requests_change_nothing (s : Server) (r : Request)
    (update : option UpdateInput) (w : World) :
  (uuid_Parse (id_param r) = None ->
   let bad := mkReply StatusBadRequest (ErrorData ("invalid UUID: " +:+ id_param r)) in
   handleGetAsset uuid_Parse s r w = (bad, w)
   /\ handleUpdateAsset uuid_Parse s r update w = (bad, w)
   /\ handleDeleteAsset uuid_Parse s r w = (bad, w)
   /\ handleGetAssetHistory uuid_Parse s r w = (bad, w))
  /\ handleCreateAsset s None w
     = (mkReply StatusBadRequest (ErrorData "invalid request body"), w)
  /\ (forall input,
        in_ExternalID input = "" \/ in_Source input = ""
        \/ in_AssetType input = "" \/ in_Name input = "" ->
        handleCreateAsset s (Some input) w
        = (mkReply StatusBadRequest
                   (ErrorData "external_id, source, asset_type, and name are required"), w)).
Proof.
  split; [|split].
  - intros Hbad. cbn zeta.
    unfold handleGetAsset, handleUpdateAsset, handleDeleteAsset, handleGetAssetHistory.
    rewrite Hbad. repeat split.
  - reflexivity.
  - intros input Hempty. unfold handleCreateAsset.
    assert (Hcond : bool_decide (in_ExternalID input = "") || bool_decide (in_Source input = "")
                    || bool_decide (in_AssetType input = "") || bool_decide (in_Name input = "")
                    = true).
    { destruct Hempty as [H | [H | [H | H]]]; rewrite H;
        change (bool_decide (@eq string "" "")) with true;
        rewrite ?orb_true_r; reflexivity. }
    rewrite Hcond. reflexivity.
Qed.

Lemma find_by_id_last (a : Asset.t) (rows : list Asset.t) :
  postgres.collides a rows = false ->
  find (fun r => bool_decide (Asset.ID r = Asset.ID a)) (rows ++ [a]) = Some a.
Proof.
  intros Hc. destruct (StoreProps.collides_false a _ Hc) as [Hid _].
  apply StoreProps.find_app_last.
  - intros y Hy. apply bool_decide_eq_false. intros E. apply Hid. rewrite <- E.
    apply list_elem_of_fmap. exists y. split; [reflexivity | exact Hy].
  - apply bool_decide_eq_true. reflexivity.
Qed.


(** X29. A [handleDeleteAsset] that reaches the store replies 204
    whether or not the asset exists and whether or not the graph could be
    updated; the asset and its change events are gone; with a graph store
    that answers, the node is gone too; and a [handleGetAsset] for the same
    id that reaches the store replies 404. *)
Theorem deleted_asset_is_gone (s : Server) (r : Request) (id : UUID) (w : World) :
  uuid_Parse (id_param r) = Some id ->
  faults w (calls w) = None ->
  let reply := (handleDeleteAsset uuid_Parse s r w).1 in
  let w' := (handleDeleteAsset uuid_Parse s r w).2 in
  reply = mkReply StatusNoContent NoData
  /\ assets w' = filter (fun a => Asset.ID a <> id) (assets w)
  /\ change_events w' = filter (fun e => ChangeEvent.AssetID e <> id) (change_events w)
  /\ (neoStore s = None -> nodes w' = nodes w /\ edges w' = edges w)
  /\ (neoStore s <> None -> faults w (S (calls w)) = None -> nodes w' !! id = None)
  /\ (faults w' (calls w') = None ->
      (handleGetAsset uuid_Parse s r w').1
      = mkReply StatusNotFound (ErrorData "asset not found")).
Proof.
  intros Hid Hf. cbn zeta.
  destruct (handleDeleteAsset uuid_Parse s r w) as [reply w'] eqn:Hrun. cbn [fst snd].
  unfold handleDeleteAsset in Hrun. rewrite Hid in Hrun.
  unfold bind at 1 in Hrun. rewrite Runs.Delete_run, Hf in Hrun.
  set (w1 := set_change_events _ _) in Hrun.
  assert (Hw' : reply = mkReply StatusNoContent NoData
                /\ assets w' = assets w1 /\ change_events w' = change_events w1
                /\ (neoStore s = None -> nodes w' = nodes w /\ edges w' = edges w)
                /\ (neoStore s <> None -> faults w (S (calls w)) = None ->
                    nodes w' !! id = None)).
  { unfold bind at 1 in Hrun. destruct (neoStore s).
    - unfold bind at 1 in Hrun. rewrite Runs.DeleteNode_run in Hrun.
      change (faults w1 (calls w1)) with (faults w (S (calls w))) in Hrun.
      destruct (faults w (S (calls w))); unfold log, ret in Hrun; injection Hrun as <- <-;
        (split; [reflexivity|]); (split; [reflexivity|]); (split; [reflexivity|]);
        (split; [discriminate|]); intros _ Hn; [discriminate|].
      cbn [nodes set_edges set_nodes set_calls]. unfold neo4j.detach.
      change (nodes w1) with (nodes w).
      destruct (nodes w !! id) eqn:Hn'; cbn [fst]; [apply lookup_delete_eq | exact Hn'].
    - unfold ret in Hrun. injection Hrun as <- <-. repeat split. contradiction. }
  destruct Hw' as (-> & Hrows & Hev & Hnone & Hsome).
  split; [reflexivity|]. split; [exact Hrows|]. split; [exact Hev|].
  split; [exact Hnone|]. split; [exact Hsome|].
  intros Hnext. unfold handleGetAsset. rewrite Hid.
  unfold bind, postgres.GetByID. rewrite ReconcilerProps.scanAsset_run.
  rewrite Hnext, Hrows. cbn [fst]. subst w1. cbn [assets set_assets set_change_events].
  destruct (find _ _) as [row|] eqn:E; [|reflexivity].
  apply find_some in E as [Hin Hrow]. apply bool_decide_eq_true in Hrow.
  apply list_elem_of_In, list_elem_of_filter in Hin as [Hne _]. contradiction.
Qed.

End Handlers.

Lemma bad_requests_change_nothing_witness :
  handleDeleteAsset parse_decimal graph_server (mkRequest [] "not-a-uuid") after_first_sighting
  = (mkReply StatusBadRequest (ErrorData "invalid UUID: not-a-uuid"), after_first_sighting).
Proof.
  refine (proj1 (proj2 (proj2 (proj1 (bad_requests_change_nothing
            parse_decimal graph_server (mkRequest [] "not-a-uuid") None after_first_sighting) _)))).
  reflexivity.
Defined.


Lemma deleted_asset_is_gone_witness :
  (handleGetAsset parse_decimal graph_server (mkRequest [] "7")
     (handleDeleteAsset parse_decimal graph_server (mkRequest [] "7") after_first_sighting).2).1
  = mkReply StatusNotFound (ErrorData "asset not found").
Proof.
  refine (proj2 (proj2 (proj2 (proj2 (proj2
            (deleted_asset_is_gone parse_decimal graph_server (mkRequest [] "7") 7%N
               after_first_sighting _ _))))) _);
    reflexivity.
Defined.

End AssetHandlerProps.
(* ================================================================== *)
(** * The nmap collector *)
(* ================================================================== *)

Module NmapProps.
Import model.
Import nmap.

Section Collect.
Variable ReadFile : string -> result string.
Variable xml_Unmarshal : string -> result (list hostXML).
Variable marshal_attrs : list (gmap string string) -> string -> string.

Lemma hosts_assets_run (hosts : list hostXML) (w : World) :
  exists found,
    hosts_assets marshal_attrs hosts w
    = (found, set_draws (draws w + length found) (set_ticks (ticks w + length found) w))
    /\ Forall2 (inv.scanned marshal_attrs) found
               (filter (fun h => HostState h = "up") hosts)
    /\ map Asset.ID found = map (fun i => uuids w (draws w + i)) (seq 0 (length found)).
Proof.
  revert w. induction hosts as [|host hosts IH]; intros w.
  - exists []. cbn. rewrite !Nat.add_0_r. split; [destruct w; reflexivity|].
    split; constructor.
  - cbn [hosts_assets]. rewrite filter_cons. case_bool_decide as Hup.
    + rewrite decide_False by exact Hup. apply IH.
    + rewrite decide_True by exact Hup.
      unfold bind at 1. unfold host_asset, NewAsset, time_Now, uuid_New.
      unfold bind at 1 2 3, ret at 1 2.
      set (w1 := set_draws _ (set_ticks _ w)).
      unfold bind at 1. destruct (IH w1) as (found & -> & Hall & Hids).
      unfold ret. eexists (_ :: found). split; [|split].
      * f_equal. subst w1. unfold set_draws, set_ticks. cbn. f_equal; lia.
      * constructor; [|exact Hall]. unfold inv.scanned. cbn.
        repeat split. destruct (Hostnames host) as [|name ?]; cbn; [reflexivity|].
        destruct (decide (name = "")) as [->|Hn]; [reflexivity|].
        rewrite bool_decide_eq_true_2 by exact Hn. reflexivity.
      * cbn [map length seq Asset.ID]. rewrite Nat.add_0_r. f_equal.
        rewrite Hids, <- seq_shift, map_map. apply map_ext. intros i.
        subst w1. cbn. f_equal. lia.
Qed.

(** X30. [Collect] of the nmap collector.  Without an [xml_path] setting
    it fails before reading anything.  When the report is read and parsed
    it returns one asset for each host that is up, in the order of the
    report, and no relationships: source nmap, type host, status active,
    the ipv4 and ipv6 addresses of the host in order, the first of them (or
    the empty string) as external id, the first host name as name and, when
    that is not empty, as FQDN.  The ids are the next identifiers drawn,
    and no store is touched. *)
Theorem Collect_reports_the_hosts_that_are_up (cfg : CollectorConfig.t) (w : World) :
  (default "" (CollectorConfig.Settings cfg !! "xml_path") = "" ->
   Collect ReadFile xml_Unmarshal marshal_attrs cfg w
   = (Err "nmap collector requires xml_path setting", w))
  /\ (forall path data hosts,
        CollectorConfig.Settings cfg !! "xml_path" = Some path -> path <> "" ->
        ReadFile path = Ok data -> xml_Unmarshal data = Ok hosts ->
        exists found,
          (Collect ReadFile xml_Unmarshal marshal_attrs cfg w).1
          = Ok (collector.mkResult found [])
          /\ Forall2 (inv.scanned marshal_attrs) found
                     (filter (fun h => HostState h = "up") hosts)
          /\ map Asset.ID found = map (fun i => uuids w (draws w + i)) (seq 0 (length found))
          /\ inv.same_stores w (Collect ReadFile xml_Unmarshal marshal_attrs cfg w).2).
Proof.
  unfold Collect. split.
  - intros ->. reflexivity.
  - intros path data hosts Hpath Hne Hread Hparse. cbv zeta. rewrite Hpath.
    change (default "" (Some path)) with path.
    rewrite bool_decide_eq_false_2 by exact Hne. rewrite Hread, Hparse.
    unfold bind, ret. destruct (hosts_assets_run hosts w) as (found & -> & Hall & Hids).
    exists found. cbn [fst snd]. split; [reflexivity|]. split; [exact Hall|].
    split; [exact Hids|]. repeat split.
Qed.

End Collect.

Lemma Collect_reports_the_hosts_that_are_up_witness :
  exists found,
    (nmap.Collect (fun _ => Ok "<nmaprun>") (fun _ => Ok [scanned_host; silent_host])
                  (fun _ _ => "{}") scan_config world0).1
    = Ok (collector.mkResult found [])
    /\ length found = 1%nat.
Proof.
  destruct (proj2 (Collect_reports_the_hosts_that_are_up
                     (fun _ => Ok "<nmaprun>") (fun _ => Ok [scanned_host; silent_host])
                     (fun _ _ => "{}") scan_config world0)
                  "scan.xml" "<nmaprun>" [scanned_host; silent_host])
    as (found & Hrun & Hall & _); [reflexivity | discriminate | reflexivity | reflexivity |].
  exists found. split; [exact Hrun|].
  apply Forall2_length in Hall. rewrite Hall. reflexivity.
Defined.

End NmapProps.
